(** * ACT coordination hub: agent registry, task coordinator, socket handlers

    Shallow embedding of
      - services/AgentRegistry.ts   (module [AgentRegistry])
      - services/TaskCoordinator.ts (module [TaskCoordinator])
      - services/EventHub.ts, the event history (module [EventHub])
      - the socket.io handlers of the server entry point (module [Server])

    Modelling conventions
      - a JS [Map] is an association list in insertion order ([JSMap]):
        [set] on a present key replaces the value in place, on a new key it
        appends, which is the iteration order the source relies on;
      - objects held in a [Map] are mutated in place by the source; here the
        mutation is a [JSMap.set] at the key the object was fetched from;
      - [async] methods run to completion without interleaving (every [await]
        is on an already settled promise), so they are state transformers
        that either return or throw; state changes made before a [throw]
        are kept ([M]);
      - [new Date()] is the argument [now] (milliseconds), [uuidv4()] the
        argument [uuid]; logging is dropped;
      - [number] is [Q] for scores and averages (exact arithmetic, no NaN or
        infinities; the one division by a possibly zero duration is spelled
        out) and [Z] for progress, durations and counters;
      - [Partial<T>] is a record of options, [None] for an absent property;
      - the event hub only listens to the two emitters; what they emit is
        kept in the [emitted] field of each. *)

From Stdlib Require Import String List ZArith QArith Qminmax Bool Lia Lqa.
Import ListNotations.

Open Scope string_scope.
Open Scope Z_scope.

(* ================================================================= *)
(** ** JavaScript Map, insertion ordered *)

Module JSMap.

Definition t (V : Type) : Type := list (string * V).

Definition empty {V : Type} : t V := [].

Fixpoint get {V : Type} (k : string) (m : t V) : option V :=
  match m with
  | [] => None
  | (k', v) :: m' => if String.eqb k k' then Some v else get k m'
  end.

Fixpoint set {V : Type} (k : string) (v : V) (m : t V) : t V :=
  match m with
  | [] => [(k, v)]
  | (k', v') :: m' =>
      if String.eqb k k' then (k, v) :: m' else (k', v') :: set k v m'
  end.

Fixpoint delete {V : Type} (k : string) (m : t V) : t V :=
  match m with
  | [] => []
  | (k', v') :: m' =>
      if String.eqb k k' then m' else (k', v') :: delete k m'
  end.

Definition keys {V : Type} (m : t V) : list string := map fst m.

Definition values {V : Type} (m : t V) : list V := map snd m.

Definition size {V : Type} (m : t V) : nat := length m.

End JSMap.

(* ================================================================= *)
(** ** Completions: a call returns or throws, the state survives both *)

Inductive Completion (A : Type) : Type :=
| Return (a : A)
| Throw (message : string).

Arguments Return {A} a.
Arguments Throw {A} message.

Definition M (S A : Type) : Type := S -> Completion A * S.

Definition ret {S A : Type} (a : A) : M S A := fun s => (Return a, s).

Definition throw {S A : Type} (message : string) : M S A :=
  fun s => (Throw message, s).

Definition bind {S A B : Type} (c : M S A) (k : A -> M S B) : M S B :=
  fun s =>
    match c s with
    | (Return a, s') => k a s'
    | (Throw e, s') => (Throw e, s')
    end.

Definition gets {S A : Type} (f : S -> A) : M S A := fun s => (Return (f s), s).

Definition modify {S : Type} (f : S -> S) : M S unit :=
  fun s => (Return tt, f s).

(** [try { c } catch (error) { log }]: the error is swallowed. *)
Definition try_catch {S A : Type} (c : M S A) : M S unit :=
  fun s => (Return tt, snd (c s)).

(** [for (const x of xs) { body x }] *)
Fixpoint for_of {S A : Type} (xs : list A) (body : A -> M S unit) : M S unit :=
  match xs with
  | [] => ret tt
  | x :: xs' => bind (body x) (fun _ => for_of xs' body)
  end.

Definition exec {S A : Type} (c : M S A) (s : S) : S := snd (c s).

Definition result {S A : Type} (c : M S A) (s : S) : Completion A := fst (c s).

Declare Scope js_scope.
Delimit Scope js_scope with js.
Notation "x <- c ;; k" := (bind c (fun x => k))
  (at level 61, c at next level, right associativity) : js_scope.
Notation "c ;; k" := (bind c (fun _ => k))
  (at level 61, right associativity) : js_scope.

(** JS truthiness of the values the source tests with [||], [!] and [if]. *)
Definition truthy_string (s : string) : bool := negb (String.eqb s EmptyString).

Definition truthy_opt (o : option string) : bool :=
  match o with
  | Some s => truthy_string s
  | None => false
  end.

(** [if (o) { k o }] for an optional string. *)
Definition when_truthy {S : Type} (o : option string) (k : string -> M S unit)
  : M S unit :=
  match o with
  | Some x => if truthy_string x then k x else ret tt
  | None => ret tt
  end.

Definition or_else {A : Type} (o : option A) (d : A) : A :=
  match o with
  | Some a => a
  | None => d
  end.

(** [o || d] for an optional string. *)
Definition or_string (o : option string) (d : string) : string :=
  match o with
  | Some s => if truthy_string s then s else d
  | None => d
  end.

(** [o || d] for an optional number. *)
Definition or_Q (o : option Q) (d : Q) : Q :=
  match o with
  | Some q => if Qeq_bool q 0 then d else q
  | None => d
  end.

Definition or_Z (o : option Z) (d : Z) : Z :=
  match o with
  | Some z => if Z.eqb z 0 then d else z
  | None => d
  end.

(** [xs.includes(x)] on an array of strings. *)
Definition includes (xs : list string) (x : string) : bool :=
  existsb (String.eqb x) xs.

(** [xs.sort(cmp)]. The sort is stable and [cmp] orders by a number, so
    the result does not depend on the algorithm; here each element is
    inserted in front of the sorted rest, and [cmp a b <= 0] keeps [a] in
    front of [b]. *)
Fixpoint sort_insert {A : Type} (cmp : A -> A -> Q) (x : A) (l : list A)
  : list A :=
  match l with
  | [] => [x]
  | y :: l' =>
      if Qle_bool (cmp x y) 0 then x :: y :: l' else y :: sort_insert cmp x l'
  end.

Fixpoint sort {A : Type} (cmp : A -> A -> Q) (l : list A) : list A :=
  match l with
  | [] => []
  | x :: l' => sort_insert cmp x (sort cmp l')
  end.

(* ================================================================= *)
(** ** services/AgentRegistry.ts *)

Module AgentRegistry.

Inductive Status : Type := online | busy | offline.

Definition Status_eqb (a b : Status) : bool :=
  match a, b with
  | online, online | busy, busy | offline, offline => true
  | _, _ => false
  end.

Record Agent : Type := mkAgent {
  id : string;
  name : string;
  capabilities : list string;
  status : Status;
  socketId : option string;
  currentTask : option string;
  lastSeen : Z;
  performanceScore : Q;
  tasksCompleted : Z;
  averageTaskTime : Q
}.

(** [Partial<Agent>] *)
Record PartialAgent : Type := mkPartialAgent {
  opt_id : option string;
  opt_name : option string;
  opt_capabilities : option (list string);
  opt_status : option Status;
  opt_socketId : option string;
  opt_currentTask : option string;
  opt_lastSeen : option Z;
  opt_performanceScore : option Q;
  opt_tasksCompleted : option Z;
  opt_averageTaskTime : option Q
}.

(** [{ ...base, ...agentData }]: every property present in [agentData] wins. *)
Definition spread (base : Agent) (agentData : PartialAgent) : Agent :=
  {| id := or_else (opt_id agentData) (id base);
     name := or_else (opt_name agentData) (name base);
     capabilities := or_else (opt_capabilities agentData) (capabilities base);
     status := or_else (opt_status agentData) (status base);
     socketId :=
       match opt_socketId agentData with
       | Some x => Some x
       | None => socketId base
       end;
     currentTask :=
       match opt_currentTask agentData with
       | Some x => Some x
       | None => currentTask base
       end;
     lastSeen := or_else (opt_lastSeen agentData) (lastSeen base);
     performanceScore :=
       or_else (opt_performanceScore agentData) (performanceScore base);
     tasksCompleted :=
       or_else (opt_tasksCompleted agentData) (tasksCompleted base);
     averageTaskTime :=
       or_else (opt_averageTaskTime agentData) (averageTaskTime base) |}.

(** What the emitter hands to its listeners (the agent as it is then). *)
Inductive Event : Type :=
| agent_registered (agent : Agent)
| agent_status_updated (agent : Agent)
| agent_performance_updated (agent : Agent).

Record State : Type := mkState {
  agents : JSMap.t Agent;
  socketToAgent : JSMap.t string;
  emitted : list Event
}.

Definition init : State :=
  {| agents := JSMap.empty; socketToAgent := JSMap.empty; emitted := [] |}.

Definition set_agents (f : JSMap.t Agent -> JSMap.t Agent) (s : State) : State :=
  {| agents := f (agents s);
     socketToAgent := socketToAgent s;
     emitted := emitted s |}.

Definition set_socketToAgent (f : JSMap.t string -> JSMap.t string)
  (s : State) : State :=
  {| agents := agents s;
     socketToAgent := f (socketToAgent s);
     emitted := emitted s |}.

Definition emit (e : Event) (s : State) : State :=
  {| agents := agents s;
     socketToAgent := socketToAgent s;
     emitted := emitted s ++ [e] |}.

Local Open Scope js_scope.

Definition registerAgent (now : Z) (agentId : string) (agentData : PartialAgent)
  : M State Agent :=
  existingAgent <- gets (fun s => JSMap.get agentId (agents s)) ;;
  let agent :=
    spread
      {| id := agentId;
         name := or_string (opt_name agentData) agentId;
         capabilities := or_else (opt_capabilities agentData) [];
         status := online;
         socketId := opt_socketId agentData;
         currentTask := None;
         lastSeen := now;
         performanceScore :=
           or_Q (option_map performanceScore existingAgent) 1;
         tasksCompleted := or_Z (option_map tasksCompleted existingAgent) 0;
         averageTaskTime :=
           or_Q (option_map averageTaskTime existingAgent) 0 |}
      agentData in
  modify (set_agents (JSMap.set agentId agent)) ;;
  when_truthy (socketId agent)
    (fun socket => modify (set_socketToAgent (JSMap.set socket agentId))) ;;
  modify (emit (agent_registered agent)) ;;
  ret agent.

(** [agent.status = status; agent.lastSeen = new Date();
    if (currentTask !== undefined) agent.currentTask = currentTask] *)
Definition assign_status (now : Z) (status' : Status)
  (currentTask' : option string) (agent : Agent) : Agent :=
  {| id := id agent;
     name := name agent;
     capabilities := capabilities agent;
     status := status';
     socketId := socketId agent;
     currentTask :=
       match currentTask' with
       | Some c => Some c
       | None => currentTask agent
       end;
     lastSeen := now;
     performanceScore := performanceScore agent;
     tasksCompleted := tasksCompleted agent;
     averageTaskTime := averageTaskTime agent |}.

(** [agent.socketId = undefined] *)
Definition clear_socketId (agent : Agent) : Agent :=
  {| id := id agent;
     name := name agent;
     capabilities := capabilities agent;
     status := status agent;
     socketId := None;
     currentTask := currentTask agent;
     lastSeen := lastSeen agent;
     performanceScore := performanceScore agent;
     tasksCompleted := tasksCompleted agent;
     averageTaskTime := averageTaskTime agent |}.

Definition updateAgentStatus (now : Z) (agentId : string) (status' : Status)
  (currentTask' : option string) : M State unit :=
  found <- gets (fun s => JSMap.get agentId (agents s)) ;;
  match found with
  | None => throw ("Agent " ++ agentId ++ " not found")
  | Some agent =>
      let agent1 := assign_status now status' currentTask' agent in
      let agent2 :=
        if Status_eqb status' offline then clear_socketId agent1 else agent1 in
      (if Status_eqb status' offline
       then when_truthy (socketId agent1)
              (fun socket => modify (set_socketToAgent (JSMap.delete socket)))
       else ret tt) ;;
      modify (set_agents (JSMap.set agentId agent2)) ;;
      modify (emit (agent_status_updated agent2))
  end.

Definition getAgent (agentId : string) (s : State) : option Agent :=
  JSMap.get agentId (agents s).

Definition getAllAgents (s : State) : list Agent := JSMap.values (agents s).

(** [agent.status === 'online' && !agent.currentTask] *)
Definition available (agent : Agent) : bool :=
  Status_eqb (status agent) online && negb (truthy_opt (currentTask agent)).

Definition getAvailableAgents (s : State) : list Agent :=
  filter available (getAllAgents s).

Definition calculateCapabilityMatch (agent : Agent)
  (requiredCapabilities : list string) : Q :=
  if Nat.eqb (length requiredCapabilities) 0 then 1%Q
  else
    let matchingCapabilities :=
      filter (includes (capabilities agent)) requiredCapabilities in
    (inject_Z (Z.of_nat (length matchingCapabilities))
     / inject_Z (Z.of_nat (length requiredCapabilities)))%Q.

Definition totalScore (requiredCapabilities : list string) (agent : Agent)
  : Q :=
  let capabilityScore := calculateCapabilityMatch agent requiredCapabilities in
  let performanceScore := performanceScore agent in
  let workloadScore :=
    if Status_eqb (status agent) online then 1%Q else (5 # 10)%Q in
  (capabilityScore * (6 # 10)
   + performanceScore * (3 # 10)
   + workloadScore * (1 # 10))%Q.

Definition getOptimalAgent (requiredCapabilities : list string) (s : State)
  : option Agent :=
  let availableAgents := getAvailableAgents s in
  if Nat.eqb (length availableAgents) 0 then None
  else
    let scoredAgents :=
      map (fun agent => (agent, totalScore requiredCapabilities agent))
        availableAgents in
    let sorted := sort (fun a b => (snd b - snd a)%Q) scoredAgents in
    match sorted with
    | best :: _ => Some (fst best)
    | [] => None
    end.

(** [Math.max(0.1, Math.min(2.0, 60000 / taskDuration))]; a zero duration
    divides to +Infinity, which the inner [min] brings back to 2.0. *)
Definition efficiency (taskDuration : Z) : Q :=
  if Z.eqb taskDuration 0 then 2%Q
  else Qmax (1 # 10) (Qmin 2 (60000 / inject_Z taskDuration))%Q.

Definition record_success (taskDuration : Z) (agent : Agent) : Agent :=
  {| id := id agent;
     name := name agent;
     capabilities := capabilities agent;
     status := status agent;
     socketId := socketId agent;
     currentTask := currentTask agent;
     lastSeen := lastSeen agent;
     performanceScore :=
       Qmin 2 (performanceScore agent * (9 # 10)
               + efficiency taskDuration * (1 # 10))%Q;
     tasksCompleted := tasksCompleted agent + 1;
     averageTaskTime :=
       if Qeq_bool (averageTaskTime agent) 0 then inject_Z taskDuration
       else ((averageTaskTime agent + inject_Z taskDuration) / 2)%Q |}.

Definition record_failure (agent : Agent) : Agent :=
  {| id := id agent;
     name := name agent;
     capabilities := capabilities agent;
     status := status agent;
     socketId := socketId agent;
     currentTask := currentTask agent;
     lastSeen := lastSeen agent;
     performanceScore := Qmax (1 # 10) (performanceScore agent * (8 # 10))%Q;
     tasksCompleted := tasksCompleted agent;
     averageTaskTime := averageTaskTime agent |}.

Definition updateAgentPerformance (agentId : string) (taskDuration : Z)
  (success : bool) : M State unit :=
  found <- gets (fun s => JSMap.get agentId (agents s)) ;;
  match found with
  | None => ret tt
  | Some agent =>
      let agent' :=
        if success then record_success taskDuration agent
        else record_failure agent in
      modify (set_agents (JSMap.set agentId agent')) ;;
      modify (emit (agent_performance_updated agent'))
  end.

Definition getAgentCount (s : State) : nat := JSMap.size (agents s).

(** The loop walks the live map: each agent is read when its turn comes.
    [updateAgentStatus] replaces values in place, so the keys are those of
    the start. *)
Definition performHealthCheck (now : Z) : M State unit :=
  let staleThreshold := 5 * 60 * 1000 in
  keys <- gets (fun s => JSMap.keys (agents s)) ;;
  for_of keys
    (fun key =>
       found <- gets (fun s => JSMap.get key (agents s)) ;;
       match found with
       | Some agent =>
           if negb (Status_eqb (status agent) offline)
              && Z.ltb staleThreshold (now - lastSeen agent)
           then updateAgentStatus now (id agent) offline None
           else ret tt
       | None => ret tt
       end).

Definition getOnlineAgentCount (s : State) : nat :=
  length (filter (fun agent => negb (Status_eqb (status agent) offline))
            (getAllAgents s)).

Definition getAgentBySocketId (socketId' : string) (s : State)
  : option Agent :=
  match JSMap.get socketId' (socketToAgent s) with
  | Some agentId =>
      if truthy_string agentId then JSMap.get agentId (agents s) else None
  | None => None
  end.

Definition getAgentsByCapability (capability : string) (s : State)
  : list Agent :=
  filter
    (fun agent =>
       includes (capabilities agent) capability
       && negb (Status_eqb (status agent) offline))
    (getAllAgents s).

End AgentRegistry.

(* ================================================================= *)
(** ** services/TaskCoordinator.ts *)

Module TaskCoordinator.

Inductive Priority : Type := low | medium | high | critical.

Inductive Status : Type := pending | assigned | in_progress | completed | failed.

Definition Status_eqb (a b : Status) : bool :=
  match a, b with
  | pending, pending | assigned, assigned | in_progress, in_progress
  | completed, completed | failed, failed => true
  | _, _ => false
  end.

(** [metadata] (a free-form record the coordinator never reads) is left out. *)
Record Task : Type := mkTask {
  id : string;
  description : string;
  requiredCapabilities : list string;
  priority : Priority;
  status : Status;
  assignedAgent : option string;
  dependencies : list string;
  progress : Z;
  estimatedDuration : option Z;
  createdAt : Z;
  startedAt : option Z;
  completedAt : option Z
}.

(** [Partial<Task>] *)
Record PartialTask : Type := mkPartialTask {
  opt_id : option string;
  opt_description : option string;
  opt_requiredCapabilities : option (list string);
  opt_priority : option Priority;
  opt_status : option Status;
  opt_assignedAgent : option string;
  opt_dependencies : option (list string);
  opt_progress : option Z;
  opt_estimatedDuration : option Z;
  opt_createdAt : option Z;
  opt_startedAt : option Z;
  opt_completedAt : option Z
}.

Definition or_opt {A : Type} (o d : option A) : option A :=
  match o with
  | Some x => Some x
  | None => d
  end.

(** [{ ...base, ...taskData }] *)
Definition spread (base : Task) (taskData : PartialTask) : Task :=
  {| id := or_else (opt_id taskData) (id base);
     description := or_else (opt_description taskData) (description base);
     requiredCapabilities :=
       or_else (opt_requiredCapabilities taskData) (requiredCapabilities base);
     priority := or_else (opt_priority taskData) (priority base);
     status := or_else (opt_status taskData) (status base);
     assignedAgent := or_opt (opt_assignedAgent taskData) (assignedAgent base);
     dependencies := or_else (opt_dependencies taskData) (dependencies base);
     progress := or_else (opt_progress taskData) (progress base);
     estimatedDuration :=
       or_opt (opt_estimatedDuration taskData) (estimatedDuration base);
     createdAt := or_else (opt_createdAt taskData) (createdAt base);
     startedAt := or_opt (opt_startedAt taskData) (startedAt base);
     completedAt := or_opt (opt_completedAt taskData) (completedAt base) |}.

Record TaskAssignment : Type := mkTaskAssignment {
  taskId : string;
  agentId : string;
  assignedAt : Z;
  reason : string
}.

Inductive ConflictType : Type :=
| resource_contention
| dependency_deadlock
| capability_mismatch.

Inductive Severity : Type := severity_low | severity_medium | severity_high.

Record ConflictDetection : Type := mkConflictDetection {
  type : ConflictType;
  involvedTasks : list string;
  involvedAgents : list string;
  severity : Severity;
  suggestedResolution : string
}.

(** The [update] argument of [updateTaskProgress]. *)
Record Update : Type := mkUpdate {
  upd_progress : option Z;
  upd_status : option Status;
  upd_message : option string
}.

Inductive Event : Type :=
| task_created (task : Task)
| task_assigned (task : Task) (assignment : TaskAssignment)
| task_progress_updated (task : Task) (update : Update)
| conflicts_detected (conflicts : list ConflictDetection).

(** [agentRegistry] is the registry object the server also holds: both reach
    it through this field. *)
Record State : Type := mkState {
  tasks : JSMap.t Task;
  assignments : JSMap.t TaskAssignment;
  agentRegistry : AgentRegistry.State;
  emitted : list Event
}.

Definition init : State :=
  {| tasks := JSMap.empty;
     assignments := JSMap.empty;
     agentRegistry := AgentRegistry.init;
     emitted := [] |}.

Definition set_tasks (f : JSMap.t Task -> JSMap.t Task) (s : State) : State :=
  {| tasks := f (tasks s);
     assignments := assignments s;
     agentRegistry := agentRegistry s;
     emitted := emitted s |}.

Definition set_assignments
  (f : JSMap.t TaskAssignment -> JSMap.t TaskAssignment) (s : State) : State :=
  {| tasks := tasks s;
     assignments := f (assignments s);
     agentRegistry := agentRegistry s;
     emitted := emitted s |}.

Definition emit (e : Event) (s : State) : State :=
  {| tasks := tasks s;
     assignments := assignments s;
     agentRegistry := agentRegistry s;
     emitted := emitted s ++ [e] |}.

(** A call into the shared registry. *)
Definition registry {A : Type} (c : M AgentRegistry.State A) : M State A :=
  fun s =>
    let (r, reg) := c (agentRegistry s) in
    (r, {| tasks := tasks s;
           assignments := assignments s;
           agentRegistry := reg;
           emitted := emitted s |}).

Definition with_status (st : Status) (t : Task) : Task :=
  mkTask (id t) (description t) (requiredCapabilities t) (priority t) st
    (assignedAgent t) (dependencies t) (progress t) (estimatedDuration t)
    (createdAt t) (startedAt t) (completedAt t).

Definition with_assignedAgent (a : option string) (t : Task) : Task :=
  mkTask (id t) (description t) (requiredCapabilities t) (priority t)
    (status t) a (dependencies t) (progress t) (estimatedDuration t)
    (createdAt t) (startedAt t) (completedAt t).

Definition with_progress (p : Z) (t : Task) : Task :=
  mkTask (id t) (description t) (requiredCapabilities t) (priority t)
    (status t) (assignedAgent t) (dependencies t) p (estimatedDuration t)
    (createdAt t) (startedAt t) (completedAt t).

Definition with_startedAt (d : option Z) (t : Task) : Task :=
  mkTask (id t) (description t) (requiredCapabilities t) (priority t)
    (status t) (assignedAgent t) (dependencies t) (progress t)
    (estimatedDuration t) (createdAt t) d (completedAt t).

Definition with_completedAt (d : option Z) (t : Task) : Task :=
  mkTask (id t) (description t) (requiredCapabilities t) (priority t)
    (status t) (assignedAgent t) (dependencies t) (progress t)
    (estimatedDuration t) (createdAt t) (startedAt t) d.

Local Open Scope js_scope.

Definition createTask (now : Z) (uuid : string) (taskData : PartialTask)
  : M State Task :=
  let task :=
    spread
      {| id := uuid;
         description := or_string (opt_description taskData) "Untitled task";
         requiredCapabilities :=
           or_else (opt_requiredCapabilities taskData) [];
         priority := or_else (opt_priority taskData) medium;
         status := pending;
         assignedAgent := None;
         dependencies := or_else (opt_dependencies taskData) [];
         progress := 0;
         estimatedDuration := opt_estimatedDuration taskData;
         createdAt := now;
         startedAt := None;
         completedAt := None |}
      taskData in
  modify (set_tasks (JSMap.set (id task) task)) ;;
  modify (emit (task_created task)) ;;
  ret task.

Definition checkDependencies (task : Task) (s : State) : list string :=
  filter
    (fun depId =>
       match JSMap.get depId (tasks s) with
       | None => true
       | Some depTask => negb (Status_eqb (status depTask) completed)
       end)
    (dependencies task).

Definition assignOptimalAgent (now : Z) (taskId' : string)
  : M State (option TaskAssignment) :=
  found <- gets (fun s => JSMap.get taskId' (tasks s)) ;;
  match found with
  | None => throw ("Task " ++ taskId' ++ " not found")
  | Some task =>
      if negb (Status_eqb (status task) pending)
      then throw ("Task " ++ taskId' ++ " is not pending")
      else
        uncompletedDependencies <- gets (checkDependencies task) ;;
        if Nat.ltb 0 (length uncompletedDependencies) then ret None
        else
          selected <- gets (fun s =>
            AgentRegistry.getOptimalAgent (requiredCapabilities task)
              (agentRegistry s)) ;;
          match selected with
          | None => ret None
          | Some optimalAgent =>
              let assignment :=
                {| taskId := id task;
                   agentId := AgentRegistry.id optimalAgent;
                   assignedAt := now;
                   reason := "Optimal match for capabilities: "
                             ++ String.concat ", " (requiredCapabilities task)
                |} in
              let task' :=
                with_assignedAgent (Some (AgentRegistry.id optimalAgent))
                  (with_status assigned task) in
              modify (set_tasks (JSMap.set taskId' task')) ;;
              registry (AgentRegistry.updateAgentStatus now
                          (AgentRegistry.id optimalAgent) AgentRegistry.busy
                          (Some (id task'))) ;;
              modify (set_assignments (JSMap.set (id task') assignment)) ;;
              modify (emit (task_assigned task' assignment)) ;;
              ret (Some assignment)
          end
  end.

Definition processPendingTasks (now : Z) : M State unit :=
  pendingTasks <- gets (fun s =>
    filter (fun task => Status_eqb (status task) pending)
      (JSMap.values (tasks s))) ;;
  for_of pendingTasks
    (fun task => try_catch (assignOptimalAgent now (id task))).

Definition handleTaskCompletion (now : Z) (task : Task) : M State unit :=
  when_truthy (assignedAgent task)
    (fun agent =>
       let duration :=
         match startedAt task, completedAt task with
         | Some started, Some finished => finished - started
         | _, _ => 0
         end in
       registry (AgentRegistry.updateAgentPerformance agent duration true) ;;
       registry (AgentRegistry.updateAgentStatus now agent
                   AgentRegistry.online None)).

Definition handleTaskFailure (now : Z) (task : Task) : M State unit :=
  when_truthy (assignedAgent task)
    (fun agent =>
       registry (AgentRegistry.updateAgentPerformance agent 0 false) ;;
       registry (AgentRegistry.updateAgentStatus now agent
                   AgentRegistry.online None)).

(** The task object after the field assignments of [updateTaskProgress]
    (everything the method writes to the task itself). *)
Definition apply_update (now : Z) (update : Update) (task : Task) : Task :=
  let task1 :=
    match upd_progress update with
    | Some p => with_progress (Z.max 0 (Z.min 100 p)) task
    | None => task
    end in
  match upd_status update with
  | None => task1
  | Some st =>
      let task2 := with_status st task1 in
      match st with
      | in_progress =>
          match startedAt task2 with
          | None => with_startedAt (Some now) task2
          | Some _ => task2
          end
      | completed => with_progress 100 (with_completedAt (Some now) task2)
      | failed => with_completedAt (Some now) task2
      | _ => task2
      end
  end.

Definition updateTaskProgress (now : Z) (taskId' : string) (update : Update)
  : M State unit :=
  found <- gets (fun s => JSMap.get taskId' (tasks s)) ;;
  match found with
  | None => throw ("Task " ++ taskId' ++ " not found")
  | Some task =>
      let previousStatus := status task in
      let task' := apply_update now update task in
      modify (set_tasks (JSMap.set taskId' task')) ;;
      match upd_status update with
      | Some completed => handleTaskCompletion now task'
      | Some failed => handleTaskFailure now task'
      | _ => ret tt
      end ;;
      modify (emit (task_progress_updated task' update)) ;;
      if negb (Status_eqb previousStatus completed)
         && Status_eqb (status task') completed
      then processPendingTasks now
      else ret tt
  end.

(** *** Conflict detection *)

Definition buildDependencyGraph (s : State) : JSMap.t (list string) :=
  fold_left (fun graph task => JSMap.set (id task) (dependencies task) graph)
    (JSMap.values (tasks s)) JSMap.empty.

(** The three mutable collections of [detectCycles]. *)
Record Search : Type := mkSearch {
  visited : list string;
  recursionStack : list string;
  cycles : list (list string)
}.

Definition set_add (x : string) (xs : list string) : list string :=
  if includes xs x then xs else (xs ++ [x])%list.

Definition set_delete (x : string) (xs : list string) : list string :=
  filter (fun y => negb (String.eqb x y)) xs.

(** [path.slice(path.indexOf(dep))] for a [dep] that occurs in [path]. *)
Fixpoint slice_from (dep : string) (path : list string) : list string :=
  match path with
  | [] => []
  | x :: path' => if String.eqb dep x then path else slice_from dep path'
  end.

(** The closure [dfs]; [fuel] bounds the recursion depth, and every call
    marks a node not visited before, so the number of distinct ids in the
    graph is enough. *)
Fixpoint dfs (fuel : nat) (graph : JSMap.t (list string)) (node : string)
  (path : list string) (st : Search) : Search :=
  match fuel with
  | O => st
  | S fuel' =>
      let path' := (path ++ [node])%list in
      let st1 :=
        {| visited := set_add node (visited st);
           recursionStack := set_add node (recursionStack st);
           cycles := cycles st |} in
      let st2 :=
        fold_left
          (fun acc dep =>
             if negb (includes (visited acc) dep)
             then dfs fuel' graph dep path' acc
             else if includes (recursionStack acc) dep
                  then {| visited := visited acc;
                          recursionStack := recursionStack acc;
                          cycles := (cycles acc ++ [slice_from dep path'])%list |}
                  else acc)
          (or_else (JSMap.get node graph) []) st1 in
      {| visited := visited st2;
         recursionStack := set_delete node (recursionStack st2);
         cycles := cycles st2 |}
  end.

(** The loop over [graph.keys()], with the recursion bound of [dfs]. *)
Definition search (fuel : nat) (graph : JSMap.t (list string)) : Search :=
  fold_left
    (fun acc node =>
       if negb (includes (visited acc) node)
       then dfs fuel graph node [] acc
       else acc)
    (JSMap.keys graph)
    {| visited := []; recursionStack := []; cycles := [] |}.

(** Every id of the graph, keys first, then the dependency lists. *)
Definition ids (graph : JSMap.t (list string)) : list string :=
  (JSMap.keys graph ++ concat (JSMap.values graph))%list.

Definition detectCycles (graph : JSMap.t (list string)) : list (list string) :=
  cycles (search (S (length (ids graph))) graph).

(** First loop of [detectConflicts]. *)
Definition resourceContention (s : State) : list ConflictDetection :=
  let busyAgents :=
    filter
      (fun agent =>
         AgentRegistry.Status_eqb (AgentRegistry.status agent)
           AgentRegistry.busy)
      (AgentRegistry.getAllAgents (agentRegistry s)) in
  flat_map
    (fun agent =>
       let agentTasks :=
         filter
           (fun task =>
              match assignedAgent task with
              | Some a => String.eqb a (AgentRegistry.id agent)
              | None => false
              end)
           (JSMap.values (tasks s)) in
       if Nat.ltb 1 (length agentTasks)
       then [ {| type := resource_contention;
                 involvedTasks := map id agentTasks;
                 involvedAgents := [AgentRegistry.id agent];
                 severity := severity_medium;
                 suggestedResolution :=
                   "Redistribute tasks from agent " ++ AgentRegistry.id agent
              |} ]
       else [])
    busyAgents.

(** Second loop. *)
Definition dependencyDeadlock (s : State) : list ConflictDetection :=
  map
    (fun cycle =>
       {| type := dependency_deadlock;
          involvedTasks := cycle;
          involvedAgents := [];
          severity := severity_high;
          suggestedResolution :=
            "Restructure task dependencies to break cycle" |})
    (detectCycles (buildDependencyGraph s)).

(** Third loop. *)
Definition capabilityMismatch (s : State) : list ConflictDetection :=
  let assignedTasks :=
    filter
      (fun task =>
         Status_eqb (status task) assigned
         || Status_eqb (status task) in_progress)
      (JSMap.values (tasks s)) in
  flat_map
    (fun task =>
       match
         match assignedAgent task with
         | Some a =>
             if truthy_string a
             then AgentRegistry.getAgent a (agentRegistry s)
             else None
         | None => None
         end
       with
       | Some agent =>
             let missingCapabilities :=
               filter
                 (fun cap =>
                    negb (includes (AgentRegistry.capabilities agent) cap))
                 (requiredCapabilities task) in
             if Nat.ltb 0 (length missingCapabilities)
             then [ {| type := capability_mismatch;
                       involvedTasks := [id task];
                       involvedAgents := [AgentRegistry.id agent];
                       severity := severity_low;
                       suggestedResolution :=
                         "Agent " ++ AgentRegistry.id agent
                         ++ " missing capabilities: "
                         ++ String.concat ", " missingCapabilities |} ]
             else []
       | None => []
       end)
    assignedTasks.

Definition detectConflicts : M State (list ConflictDetection) :=
  conflicts <- gets (fun s =>
    (resourceContention s ++ dependencyDeadlock s
     ++ capabilityMismatch s)%list) ;;
  (if Nat.ltb 0 (length conflicts)
   then modify (emit (conflicts_detected conflicts))
   else ret tt) ;;
  ret conflicts.

Definition getTask (taskId' : string) (s : State) : option Task :=
  JSMap.get taskId' (tasks s).

Definition getAllTasks (s : State) : list Task := JSMap.values (tasks s).

Definition getTasksByStatus (st : Status) (s : State) : list Task :=
  filter (fun task => Status_eqb (status task) st) (getAllTasks s).

Definition getTasksByAgent (agentId' : string) (s : State) : list Task :=
  filter
    (fun task =>
       match assignedAgent task with
       | Some a => String.eqb a agentId'
       | None => false
       end)
    (getAllTasks s).

Definition getTaskCount (s : State) : nat := JSMap.size (tasks s).

(** The three tasks of the demo project; each [createTask] draws its own
    uuid. *)
Definition createDemoProject (now : Z) (uuid1 uuid2 uuid3 : string)
  : M State (list Task) :=
  backendTask <- createTask now uuid1
    (mkPartialTask None (Some "Create Flask API for todo app")
       (Some ["python"; "backend"; "api"]) (Some high) None None None None
       (Some 30) None None None) ;;
  frontendTask <- createTask now uuid2
    (mkPartialTask None (Some "Create React frontend for todo app")
       (Some ["react"; "frontend"; "javascript"]) (Some high) None None
       (Some [id backendTask]) None (Some 45) None None None) ;;
  testingTask <- createTask now uuid3
    (mkPartialTask None (Some "Test todo app functionality")
       (Some ["testing"; "qa"]) (Some medium) None None
       (Some [id frontendTask]) None (Some 20) None None None) ;;
  ret [backendTask; frontendTask; testingTask].

End TaskCoordinator.

(* ================================================================= *)
(** ** services/EventHub.ts: the event history *)

Module EventHub.

(** The [data] of an event: the two properties the hub reads, and the
    rest of the object. *)
Record Data : Type := mkData {
  data_agentId : option string;
  data_taskId : option string;
  data_rest : list (string * string)
}.

Record CoordinationEvent : Type := mkCoordinationEvent {
  type : string;
  agentId : option string;
  taskId : option string;
  data : Data;
  timestamp : Z
}.

(** [eventHistory], and what went out through [io.emit]. *)
Record State : Type := mkState {
  eventHistory : list CoordinationEvent;
  emitted : list (string * Data)
}.

Definition init : State := {| eventHistory := []; emitted := [] |}.

(** [xs.slice(start)]: a negative [start] counts from the end. *)
Definition slice {A : Type} (start : Z) (xs : list A) : list A :=
  let len := Z.of_nat (length xs) in
  let from :=
    if Z.ltb start 0 then Z.max (len + start) 0 else Z.min start len in
  skipn (Z.to_nat from) xs.

(** The event is pushed, the history is cut back to its last 1000
    entries, and type and data go out through [io.emit]. The hub also
    emits them to its own listeners, of which the server registers none. *)
Definition broadcastEvent (now : Z) (type' : string) (data' : Data)
  (s : State) : State :=
  let event :=
    {| type := type';
       agentId := data_agentId data';
       taskId := data_taskId data';
       data := data';
       timestamp := now |} in
  let pushed := (eventHistory s ++ [event])%list in
  {| eventHistory :=
       if Nat.ltb 1000 (length pushed) then slice (- 1000) pushed else pushed;
     emitted := (emitted s ++ [(type', data')])%list |}.

Definition broadcastCoordinationEvent (now : Z) (type' : string)
  (data' : Data) : State -> State :=
  broadcastEvent now type' data'.

(** [limit] defaults to 50. *)
Definition getRecentEvents (limit : option Z) (s : State)
  : list CoordinationEvent :=
  slice (- or_else limit 50) (eventHistory s).

Definition getEventsByType (type' : string) (limit : option Z) (s : State)
  : list CoordinationEvent :=
  slice (- or_else limit 50)
    (filter (fun event => String.eqb (type event) type') (eventHistory s)).

End EventHub.

(* ================================================================= *)
(** ** The socket.io handlers of the server *)

Module Server.

Import TaskCoordinator.

(** What a handler sends: a reply on the socket of the sender, or a
    broadcast on [io]. *)
Inductive Outbound : Type :=
| reply (socket : string) (event : string)
| broadcast (event : string).

Record State : Type := mkState {
  taskCoordinator : TaskCoordinator.State;
  outbox : list Outbound
}.

Definition init : State :=
  {| taskCoordinator := TaskCoordinator.init; outbox := [] |}.

Definition send (o : Outbound) (s : State) : State :=
  {| taskCoordinator := taskCoordinator s; outbox := outbox s ++ [o] |}.

Definition coordinator {A : Type} (c : M TaskCoordinator.State A) : M State A :=
  fun s =>
    let (r, tc) := c (taskCoordinator s) in
    (r, {| taskCoordinator := tc; outbox := outbox s |}).

Definition agentRegistry {A : Type} (c : M AgentRegistry.State A) : M State A :=
  coordinator (TaskCoordinator.registry c).

(** [try { body } catch (error) { handler }] around a whole socket handler. *)
Definition guarded (body : M State unit) (handler : M State unit)
  : State -> State :=
  fun s =>
    match body s with
    | (Return _, s') => s'
    | (Throw _, s') => exec handler s'
    end.

(** The messages of the bidirectional channel that change state. *)
Inductive Message : Type :=
| register_agent (agentId : string) (capabilities : option (list string))
    (name : option string)
| create_task (data : PartialTask)
| task_progress (taskId : string) (update : Update)
| update_task_progress (taskId : string) (update : Update)
| agent_status (agentId : string) (status : AgentRegistry.Status)
    (currentTask : option string).

Local Open Scope js_scope.

Definition on_register_agent (now : Z) (socket : string) (agentId : string)
  (capabilities : option (list string)) (name : option string)
  : State -> State :=
  guarded
    (agentRegistry
       (AgentRegistry.registerAgent now agentId
          (AgentRegistry.mkPartialAgent None
             (Some (or_string name agentId))
             (Some (or_else capabilities []))
             (Some AgentRegistry.online)
             (Some socket)
             None None None None None)) ;;
     modify (send (reply socket "agent_registered")) ;;
     modify (send (broadcast "agent_joined")))
    (modify (send (reply socket "registration_error"))).

Definition on_create_task (now : Z) (uuid : string) (socket : string)
  (data : PartialTask) : State -> State :=
  guarded
    (task <- coordinator (createTask now uuid data) ;;
     assignment <- coordinator (assignOptimalAgent now (id task)) ;;
     match assignment with
     | Some _ => modify (send (broadcast "task_assigned"))
     | None => modify (send (broadcast "task_pending"))
     end ;;
     modify (send (reply socket "task_created")))
    (modify (send (reply socket "task_error"))).

Definition on_task_progress (now : Z) (taskId : string) (update : Update)
  : State -> State :=
  guarded
    (coordinator (updateTaskProgress now taskId update) ;;
     modify (send (broadcast "task_progress")))
    (ret tt).

Definition on_agent_status (now : Z) (agentId : string)
  (status : AgentRegistry.Status) (currentTask : option string)
  : State -> State :=
  guarded
    (agentRegistry
       (AgentRegistry.updateAgentStatus now agentId status currentTask) ;;
     modify (send (broadcast "agent_status_update")))
    (ret tt).

(** One inbound message, with the clock reading, the next uuid and the
    socket it came in on. *)
Record Inbound : Type := mkInbound {
  at_time : Z;
  next_uuid : string;
  from_socket : string;
  message : Message
}.

Definition handle (i : Inbound) : State -> State :=
  match message i with
  | register_agent agentId capabilities name =>
      on_register_agent (at_time i) (from_socket i) agentId capabilities name
  | create_task data =>
      on_create_task (at_time i) (next_uuid i) (from_socket i) data
  | task_progress taskId update => on_task_progress (at_time i) taskId update
  | update_task_progress taskId update =>
      on_task_progress (at_time i) taskId update
  | agent_status agentId status currentTask =>
      on_agent_status (at_time i) agentId status currentTask
  end.

Definition run (inbox : list Inbound) (s : State) : State :=
  fold_left (fun acc i => handle i acc) inbox s.

(** *** Requests of the dashboard *)

Inductive ProjectPhase : Type :=
| phase_initializing
| phase_completed
| phase_active.

Record ProjectStatus : Type := mkProjectStatus {
  phase : ProjectPhase;
  progress : Z;
  activeAgents : nat;
  totalTasks : nat;
  completedTasks : nat
}.

(** [percent completed total] stands for
    [Math.round((completedTasks / totalTasks) * 100)], a floating point
    computation the embedding takes as it comes. *)
Definition projectStatus (percent : nat -> nat -> Z) (s : State)
  : ProjectStatus :=
  let allTasks := getAllTasks (taskCoordinator s) in
  let totalTasks := length allTasks in
  let completedTasks :=
    length
      (filter
         (fun task => Status_eqb (TaskCoordinator.status task)
                        TaskCoordinator.completed)
         allTasks) in
  let progress :=
    if Nat.ltb 0 totalTasks then percent completedTasks totalTasks else 0 in
  {| phase :=
       if Nat.eqb totalTasks 0 then phase_initializing
       else if Nat.eqb completedTasks totalTasks then phase_completed
       else phase_active;
     progress := progress;
     activeAgents :=
       AgentRegistry.getOnlineAgentCount
         (TaskCoordinator.agentRegistry (taskCoordinator s));
     totalTasks := totalTasks;
     completedTasks := completedTasks |}.

Definition on_get_project_status (socket : string) : State -> State :=
  send (reply socket "project_status_update").

Definition on_get_agent_registry (socket : string) (s : State) : State :=
  fold_left (fun acc _ => send (reply socket "agent_registered") acc)
    (AgentRegistry.getAllAgents
       (TaskCoordinator.agentRegistry (taskCoordinator s)))
    s.

Definition on_get_tasks (socket : string) (s : State) : State :=
  fold_left (fun acc _ => send (reply socket "task_assigned") acc)
    (getAllTasks (taskCoordinator s)) s.

End Server.

(* ================================================================= *)
(** * Vocabulary of the properties *)

(** The element a descending stable sort puts first: nothing before it in
    the input scores as much, nothing after it scores more. *)
Definition first_maximum {A : Type} (score : A -> Q) (best : A) (l : list A)
  : Prop :=
  exists before after : list A,
    l = (before ++ best :: after)%list
    /\ (forall b, In b before -> (score b < score best)%Q)
    /\ (forall b, In b after -> (score b <= score best)%Q).

(** [current_task] is empty: unset, or the empty string (both falsy). *)
Definition idle (agent : AgentRegistry.Agent) : Prop :=
  AgentRegistry.currentTask agent = None
  \/ AgentRegistry.currentTask agent = Some EmptyString.





(** [c] keeps [P], whether it returns or throws. *)
Definition preserves {S A : Type} (P : S -> Prop) (c : M S A) : Prop :=
  forall s, P s -> P (exec c s).

(** The status changes the task state machine allows. *)
Definition permitted_transition (from to : TaskCoordinator.Status) : Prop :=
  (from = TaskCoordinator.assigned /\ to = TaskCoordinator.in_progress)
  \/ ((from = TaskCoordinator.assigned \/ from = TaskCoordinator.in_progress)
      /\ (to = TaskCoordinator.completed \/ to = TaskCoordinator.failed)).

(** Every declared dependency is a known task in state completed. *)
Definition dependencies_completed (s : TaskCoordinator.State)
  (task : TaskCoordinator.Task) : Prop :=
  forall depId,
    In depId (TaskCoordinator.dependencies task) ->
    exists dep,
      TaskCoordinator.getTask depId s = Some dep
      /\ TaskCoordinator.status dep = TaskCoordinator.completed.

(** Some task in state assigned or in_progress names the agent. *)
Definition names_active_task (s : TaskCoordinator.State)
  (agent : AgentRegistry.Agent) : Prop :=
  exists key task,
    TaskCoordinator.getTask key s = Some task
    /\ TaskCoordinator.assignedAgent task = Some (AgentRegistry.id agent)
    /\ (TaskCoordinator.status task = TaskCoordinator.assigned
        \/ TaskCoordinator.status task = TaskCoordinator.in_progress).

(** Invariant 1 of the data model, for every agent of the registry. *)
Definition status_consistent (s : TaskCoordinator.State) : Prop :=
  forall key agent,
    AgentRegistry.getAgent key (TaskCoordinator.agentRegistry s) = Some agent ->
    (AgentRegistry.status agent = AgentRegistry.busy <-> ~ idle agent)
    /\ (AgentRegistry.status agent = AgentRegistry.busy
        <-> names_active_task s agent).

(** The range the registry keeps performance scores in. *)
Definition score_in_range (q : Q) : Prop := ((1 # 10) <= q /\ q <= 2)%Q.

(** No key occurs twice. *)
Definition unique_keys {V : Type} (m : JSMap.t V) : Prop :=
  NoDup (JSMap.keys m).

(** Every agent sits under its own id. *)
Definition agents_keyed_by_id (reg : AgentRegistry.State) : Prop :=
  forall key agent,
    AgentRegistry.getAgent key reg = Some agent ->
    AgentRegistry.id agent = key.

(** Every task sits under its own id. *)
Definition tasks_keyed_by_id (s : TaskCoordinator.State) : Prop :=
  forall key task,
    TaskCoordinator.getTask key s = Some task ->
    TaskCoordinator.id task = key.

(** The registry holds each agent once and under its own id; the
    coordinator holds each task once and under its own id. *)
Definition registry_well_keyed (reg : AgentRegistry.State) : Prop :=
  unique_keys (AgentRegistry.agents reg) /\ agents_keyed_by_id reg.

Definition task_map_well_keyed (m : JSMap.t TaskCoordinator.Task) : Prop :=
  unique_keys m
  /\ forall key task,
       JSMap.get key m = Some task -> TaskCoordinator.id task = key.

Definition coordinator_well_keyed (s : TaskCoordinator.State) : Prop :=
  unique_keys (TaskCoordinator.tasks s)
  /\ tasks_keyed_by_id s
  /\ registry_well_keyed (TaskCoordinator.agentRegistry s).

(** The required capabilities of a task that an agent does not offer, in
    the order they are required. *)
Definition missing_capabilities (task : TaskCoordinator.Task)
  (agent : AgentRegistry.Agent) : list string :=
  filter (fun cap => negb (includes (AgentRegistry.capabilities agent) cap))
    (TaskCoordinator.requiredCapabilities task).

(** Each element of the list is related to the next one. *)
Fixpoint chain {A : Type} (R : A -> A -> Prop) (xs : list A) : Prop :=
  match xs with
  | x :: (y :: _) as rest => R x y /\ chain R rest
  | _ => True
  end.

(** A chain that is not empty and whose last element is related to the
    first. *)
Definition cycle_of {A : Type} (R : A -> A -> Prop) (xs : list A) : Prop :=
  match xs with
  | [] => False
  | first :: _ => chain R xs /\ R (last xs first) first
  end.

(** The edges of a dependency graph: [y] is in the list stored for [x]. *)
Definition depends_on (graph : JSMap.t (list string)) (x y : string) : Prop :=
  In y (or_else (JSMap.get x graph) []).

(** Some stored task with id [x] lists [y] among its dependencies. *)
Definition task_depends_on (s : TaskCoordinator.State) (x y : string) : Prop :=
  exists task,
    In task (TaskCoordinator.getAllTasks s)
    /\ TaskCoordinator.id task = x
    /\ In y (TaskCoordinator.dependencies task).

(** The test of the liveness sweep: not offline, last seen more than five
    minutes before [now]. *)
Definition stale (now : Z) (agent : AgentRegistry.Agent) : bool :=
  negb (AgentRegistry.Status_eqb (AgentRegistry.status agent)
          AgentRegistry.offline)
  && Z.ltb 300000 (now - AgentRegistry.lastSeen agent).

(** The last [n] elements of a list, all of it when it is shorter. *)
Definition last_n {A : Type} (n : nat) (l : list A) : list A :=
  skipn (length l - n) l.

(** A broadcast: the time it happens at, its type and its data. *)
Definition Broadcast : Type := (Z * string * EventHub.Data)%type.

(** The event the hub records for a broadcast. *)
Definition recorded (b : Broadcast) : EventHub.CoordinationEvent :=
  let '(now, type', data') := b in
  EventHub.mkCoordinationEvent type' (EventHub.data_agentId data')
    (EventHub.data_taskId data') data' now.

(** A sequence of calls of [broadcastEvent]. *)
Definition broadcast_all (bs : list Broadcast) (s : EventHub.State)
  : EventHub.State :=
  fold_left
    (fun acc (b : Broadcast) =>
       let '(now, type', data') := b in
       EventHub.broadcastEvent now type' data' acc)
    bs s.

(** ** Fixtures *)

Module Fixture.

Definition agent_fields (capabilities : list string)
  : AgentRegistry.PartialAgent :=
  AgentRegistry.mkPartialAgent None None (Some capabilities) None None None
    None None None None.

Definition no_fields : TaskCoordinator.PartialTask :=
  TaskCoordinator.mkPartialTask None None None None None None None None None
    None None None.

Definition task_fields (description : string)
  (requiredCapabilities dependencies : list string)
  : TaskCoordinator.PartialTask :=
  TaskCoordinator.mkPartialTask None (Some description)
    (Some requiredCapabilities) None None None (Some dependencies) None None
    None None None.

Definition only_status (st : TaskCoordinator.Status) : TaskCoordinator.Update :=
  TaskCoordinator.mkUpdate None (Some st) None.

Definition only_progress (p : Z) : TaskCoordinator.Update :=
  TaskCoordinator.mkUpdate (Some p) None None.

(** Two idle agents, registered in this order: A1 = {react},
    A2 = {react, typescript}. *)
Definition two_react_agents : AgentRegistry.State :=
  exec (AgentRegistry.registerAgent 2 "A2"
          (agent_fields ["react"; "typescript"]))
    (exec (AgentRegistry.registerAgent 1 "A1" (agent_fields ["react"]))
       AgentRegistry.init).

Definition agent_A2 : AgentRegistry.Agent :=
  {| AgentRegistry.id := "A2";
     AgentRegistry.name := "A2";
     AgentRegistry.capabilities := ["react"; "typescript"];
     AgentRegistry.status := AgentRegistry.online;
     AgentRegistry.socketId := None;
     AgentRegistry.currentTask := None;
     AgentRegistry.lastSeen := 2;
     AgentRegistry.performanceScore := 1;
     AgentRegistry.tasksCompleted := 0;
     AgentRegistry.averageTaskTime := 0 |}.

(** A1 = {python} registers on socket s1. *)
Definition A1_registers (now : Z) : Server.Inbound :=
  Server.mkInbound now "-" "s1"
    (Server.register_agent "A1" (Some ["python"]) None).

(** A producer on socket s2 creates a python task; [uuid] becomes its id. *)
Definition creates (now : Z) (uuid : string) (dependencies : list string)
  : Server.Inbound :=
  Server.mkInbound now uuid "s2"
    (Server.create_task (task_fields uuid ["python"] dependencies)).

Definition reports (now : Z) (taskId : string)
  (update : TaskCoordinator.Update) : Server.Inbound :=
  Server.mkInbound now "-" "s1" (Server.task_progress taskId update).

(** Dependency gating: A1 registers, T1 is created and goes to A1, T2 is
    created depending on T1 and waits, then T1 is reported completed. *)
Definition T1_assigned_T2_waiting : list Server.Inbound :=
  [ A1_registers 1000; creates 2000 "T1" []; creates 3000 "T2" ["T1"] ].

Definition dependency_gating : list Server.Inbound :=
  (T1_assigned_T2_waiting
   ++ [ reports 4000 "T1" (only_status TaskCoordinator.completed) ])%list.

(** A1 completes T1, registers again and is given T2. *)
Definition second_task_after_reregistration : list Server.Inbound :=
  [ A1_registers 1000;
    creates 2000 "T1" [];
    reports 3000 "T1" (only_status TaskCoordinator.completed);
    A1_registers 4000;
    creates 5000 "T2" [] ].

Definition coordinator_after (inbox : list Server.Inbound)
  : TaskCoordinator.State :=
  Server.taskCoordinator (Server.run inbox Server.init).

Definition registry_after (inbox : list Server.Inbound)
  : AgentRegistry.State :=
  TaskCoordinator.agentRegistry (coordinator_after inbox).



Definition T1_assigned : TaskCoordinator.Task :=
  {| TaskCoordinator.id := "T1";
     TaskCoordinator.description := "T1";
     TaskCoordinator.requiredCapabilities := ["python"];
     TaskCoordinator.priority := TaskCoordinator.medium;
     TaskCoordinator.status := TaskCoordinator.assigned;
     TaskCoordinator.assignedAgent := Some "A1";
     TaskCoordinator.dependencies := [];
     TaskCoordinator.progress := 0;
     TaskCoordinator.estimatedDuration := None;
     TaskCoordinator.createdAt := 2000;
     TaskCoordinator.startedAt := None;
     TaskCoordinator.completedAt := None |}.

Definition T1_completed : TaskCoordinator.Task :=
  TaskCoordinator.with_progress 100
    (TaskCoordinator.with_completedAt (Some 4000)
       (TaskCoordinator.with_status TaskCoordinator.completed T1_assigned)).

Definition T2_waiting : TaskCoordinator.Task :=
  {| TaskCoordinator.id := "T2";
     TaskCoordinator.description := "T2";
     TaskCoordinator.requiredCapabilities := ["python"];
     TaskCoordinator.priority := TaskCoordinator.medium;
     TaskCoordinator.status := TaskCoordinator.pending;
     TaskCoordinator.assignedAgent := None;
     TaskCoordinator.dependencies := ["T1"];
     TaskCoordinator.progress := 0;
     TaskCoordinator.estimatedDuration := None;
     TaskCoordinator.createdAt := 3000;
     TaskCoordinator.startedAt := None;
     TaskCoordinator.completedAt := None |}.

(** A1 is registered and idle, T9 has just been created and is pending. *)
Definition T9_created : TaskCoordinator.State :=
  exec (TaskCoordinator.createTask 2500 "T9" (task_fields "T9" ["python"] []))
    (coordinator_after [ A1_registers 1000 ]).

Definition T9_to_A1 : TaskCoordinator.TaskAssignment :=
  {| TaskCoordinator.taskId := "T9";
     TaskCoordinator.agentId := "A1";
     TaskCoordinator.assignedAt := 2500;
     TaskCoordinator.reason := "Optimal match for capabilities: python" |}.

(** A1 offers python only; the pending T9 requires python and rust. *)
Definition T9_needs_rust : TaskCoordinator.State :=
  exec
    (TaskCoordinator.createTask 2500 "T9"
       (task_fields "T9" ["python"; "rust"] []))
    (coordinator_after [ A1_registers 1000 ]).

(** T1 and T2 are created depending on each other, with no agent around. *)
Definition mutual_dependency : TaskCoordinator.State :=
  coordinator_after [ creates 1000 "T1" ["T2"]; creates 2000 "T2" ["T1"] ].

(** An agent registered under the key k1 with a record that carries the
    id ghost, and a pending task T1. *)
Definition misfiled_agent_and_T1 : TaskCoordinator.State :=
  exec (TaskCoordinator.createTask 20 "T1" no_fields)
    (exec
       (TaskCoordinator.registry
          (AgentRegistry.registerAgent 10 "k1"
             (AgentRegistry.mkPartialAgent (Some "ghost") None None None None
                None None None None None)))
       TaskCoordinator.init).

End Fixture.

(* ================================================================= *)
(** * Properties *)

(** ** Maps *)

Lemma JSMap_get_set_same {V : Type} (k : string) (v : V) (m : JSMap.t V) :
  JSMap.get k (JSMap.set k v m) = Some v.
Proof.
  induction m as [| [k' v'] m IH]; simpl.
  - now rewrite String.eqb_refl.
  - destruct (String.eqb k k') eqn:E; simpl.
    + now rewrite String.eqb_refl.
    + now rewrite E.
Qed.

Lemma JSMap_get_set_other {V : Type} (k k' : string) (v : V) (m : JSMap.t V) :
  k <> k' -> JSMap.get k' (JSMap.set k v m) = JSMap.get k' m.
Proof.
  intros Hne. induction m as [| [k0 v0] m IH]; simpl.
  - destruct (String.eqb k' k) eqn:E; auto.
    apply String.eqb_eq in E. congruence.
  - destruct (String.eqb k k0) eqn:E; simpl.
    + apply String.eqb_eq in E. subst k0.
      destruct (String.eqb k' k) eqn:E'; auto.
      apply String.eqb_eq in E'. congruence.
    + now rewrite IH.
Qed.

Lemma JSMap_get_In {V : Type} (k : string) (v : V) (m : JSMap.t V) :
  JSMap.get k m = Some v -> In (k, v) m.
Proof.
  induction m as [| [k' v'] m IH]; simpl; [discriminate |].
  destruct (String.eqb k k') eqn:E.
  - apply String.eqb_eq in E. intros [= ->]. left. now subst.
  - intros H. right. now apply IH.
Qed.

(** ** Lists *)

Lemma includes_In (xs : list string) (x : string) :
  includes xs x = true <-> In x xs.
Proof.
  unfold includes. rewrite existsb_exists. split.
  - intros (y & Hin & E). apply String.eqb_eq in E. now subst.
  - intros Hin. exists x. split; [exact Hin | apply String.eqb_refl].
Qed.

Section FilterLength.

Context {A : Type}.
Variables p q : A -> bool.

Lemma filter_length_mono (l : list A) :
  (forall x, In x l -> q x = true -> p x = true) ->
  (length (filter q l) <= length (filter p l))%nat.
Proof.
  induction l as [| y ys IH]; intros Hsub; simpl; [lia |].
  assert (length (filter q ys) <= length (filter p ys))%nat as Hle
      by (apply IH; intros x Hx; apply Hsub; now right).
  destruct (q y) eqn:Eq; destruct (p y) eqn:Ep; simpl; try lia.
  rewrite (Hsub y (or_introl eq_refl) Eq) in Ep. discriminate Ep.
Qed.

Lemma filter_length_strict (l : list A) (x : A) :
  (forall y, In y l -> q y = true -> p y = true) ->
  In x l -> p x = true -> q x = false ->
  (length (filter q l) < length (filter p l))%nat.
Proof.
  induction l as [| y ys IH]; intros Hsub Hin Hp Hq; simpl; [destruct Hin |].
  assert (length (filter q ys) <= length (filter p ys))%nat as Hle
      by (apply filter_length_mono; intros z Hz; apply Hsub; now right).
  destruct Hin as [-> | Hin].
  - rewrite Hp, Hq. simpl. lia.
  - assert (length (filter q ys) < length (filter p ys))%nat as Hlt
        by (apply IH; auto; intros z Hz; apply Hsub; now right).
    destruct (q y) eqn:Eq; destruct (p y) eqn:Ep; simpl; try lia.
    rewrite (Hsub y (or_introl eq_refl) Eq) in Ep. discriminate Ep.
Qed.

End FilterLength.

(** ** What a call leaves in place *)

Section Preservation.

Context {S : Type}.
Variable P : S -> Prop.

Lemma preserves_ret {A : Type} (a : A) : preserves P (ret a).
Proof. intros s H. exact H. Qed.

Lemma preserves_throw {A : Type} (e : string) : preserves P (@throw S A e).
Proof. intros s H. exact H. Qed.

Lemma preserves_gets {A : Type} (f : S -> A) : preserves P (gets f).
Proof. intros s H. exact H. Qed.

Lemma preserves_modify (f : S -> S) :
  (forall s, P s -> P (f s)) -> preserves P (modify f).
Proof. intros Hf s H. now apply Hf. Qed.

Lemma preserves_bind {A B : Type} (c : M S A) (k : A -> M S B) :
  preserves P c -> (forall a, preserves P (k a)) -> preserves P (bind c k).
Proof.
  intros Hc Hk s H. unfold exec, bind.
  specialize (Hc s H). unfold exec in Hc.
  destruct (c s) as [[a | e] s']; simpl in *.
  - now apply Hk.
  - exact Hc.
Qed.

Lemma preserves_try_catch {A : Type} (c : M S A) :
  preserves P c -> preserves P (try_catch c).
Proof. intros Hc s H. now apply Hc. Qed.

Lemma preserves_for_of {A : Type} (xs : list A) (body : A -> M S unit) :
  (forall x, In x xs -> preserves P (body x)) -> preserves P (for_of xs body).
Proof.
  induction xs as [| x xs IH]; intros Hbody; simpl.
  - apply preserves_ret.
  - apply preserves_bind.
    + apply Hbody. now left.
    + intros _. apply IH. intros y Hy. apply Hbody. now right.
Qed.

End Preservation.

(** A property of the task map alone survives every call into the registry
    and every emitted event. *)
Section TaskMapProperty.

Variable Q : JSMap.t TaskCoordinator.Task -> Prop.

Let P (s : TaskCoordinator.State) : Prop := Q (TaskCoordinator.tasks s).

Lemma registry_preserves {A : Type} (c : M AgentRegistry.State A) :
  preserves P (TaskCoordinator.registry c).
Proof.
  intros s H. unfold exec, TaskCoordinator.registry.
  now destruct (c (TaskCoordinator.agentRegistry s)).
Qed.

Lemma emit_preserves (e : TaskCoordinator.Event) :
  preserves P (modify (TaskCoordinator.emit e)).
Proof. intros s H. exact H. Qed.

Lemma set_assignments_preserves f :
  preserves P (modify (TaskCoordinator.set_assignments f)).
Proof. intros s H. exact H. Qed.

Lemma handleTaskCompletion_preserves (now : Z) (task : TaskCoordinator.Task) :
  preserves P (TaskCoordinator.handleTaskCompletion now task).
Proof.
  unfold TaskCoordinator.handleTaskCompletion, when_truthy.
  destruct (TaskCoordinator.assignedAgent task) as [agent |];
    [destruct (truthy_string agent) |]; try apply preserves_ret.
  apply preserves_bind; [apply registry_preserves |].
  intros _. apply registry_preserves.
Qed.

Lemma handleTaskFailure_preserves (now : Z) (task : TaskCoordinator.Task) :
  preserves P (TaskCoordinator.handleTaskFailure now task).
Proof.
  unfold TaskCoordinator.handleTaskFailure, when_truthy.
  destruct (TaskCoordinator.assignedAgent task) as [agent |];
    [destruct (truthy_string agent) |]; try apply preserves_ret.
  apply preserves_bind; [apply registry_preserves |].
  intros _. apply registry_preserves.
Qed.

End TaskMapProperty.

(** ** The registry on known and unknown agents *)

Section UnknownAgent.

Variable s : AgentRegistry.State.
Variable agentId : string.
Hypothesis unknown : AgentRegistry.getAgent agentId s = None.

Lemma updateAgentPerformance_unknown (taskDuration : Z) (success : bool) :
  AgentRegistry.updateAgentPerformance agentId taskDuration success s
  = (Return tt, s).
Proof.
  unfold AgentRegistry.updateAgentPerformance, bind, gets.
  unfold AgentRegistry.getAgent in unknown. now rewrite unknown.
Qed.

Lemma updateAgentStatus_unknown (now : Z) (status : AgentRegistry.Status)
  (currentTask : option string) :
  AgentRegistry.updateAgentStatus now agentId status currentTask s
  = (Throw ("Agent " ++ agentId ++ " not found"), s).
Proof.
  unfold AgentRegistry.updateAgentStatus, bind, gets.
  unfold AgentRegistry.getAgent in unknown. now rewrite unknown.
Qed.

End UnknownAgent.

(** C10. For an agent id the registry does not know, [updateAgentPerformance]
    returns normally and hands back the very same registry state (agents,
    socket index and emitted events), whatever the duration and the success
    flag; [updateAgentStatus] on the same id throws "Agent ... not found". *)
Theorem record_performance_unknown_agent_is_noop :
  forall (s : AgentRegistry.State) (agentId : string),
    AgentRegistry.getAgent agentId s = None ->
    (forall (taskDuration : Z) (success : bool),
        AgentRegistry.updateAgentPerformance agentId taskDuration success s
        = (Return tt, s))
    /\ (forall (now : Z) (status : AgentRegistry.Status)
          (currentTask : option string),
          AgentRegistry.updateAgentStatus now agentId status currentTask s
          = (Throw ("Agent " ++ agentId ++ " not found"), s)).
Proof.
  intros s agentId H. split; intros.
  - now apply updateAgentPerformance_unknown.
  - now apply updateAgentStatus_unknown.
Qed.

Lemma record_performance_unknown_agent_is_noop_witness :
  AgentRegistry.updateAgentPerformance "ghost" 1500 true AgentRegistry.init
  = (Return tt, AgentRegistry.init)
  /\ AgentRegistry.updateAgentStatus 7 "ghost" AgentRegistry.online None
       AgentRegistry.init
     = (Throw "Agent ghost not found", AgentRegistry.init).
Proof.
  destruct (record_performance_unknown_agent_is_noop AgentRegistry.init "ghost"
              eq_refl) as [Hperf Hstatus].
  split.
  - apply Hperf.
  - apply (Hstatus 7 AgentRegistry.online None).
Defined.

Lemma updateAgentStatus_known (now : Z) (agentId : string)
  (status : AgentRegistry.Status) (currentTask : option string)
  (s : AgentRegistry.State) (agent : AgentRegistry.Agent) :
  AgentRegistry.getAgent agentId s = Some agent ->
  exists s' agent',
    AgentRegistry.updateAgentStatus now agentId status currentTask s
    = (Return tt, s')
    /\ AgentRegistry.getAgent agentId s' = Some agent'
    /\ AgentRegistry.status agent' = status
    /\ AgentRegistry.currentTask agent'
       = match currentTask with
         | Some c => Some c
         | None => AgentRegistry.currentTask agent
         end.
Proof.
  unfold AgentRegistry.getAgent. intros Hget.
  unfold AgentRegistry.updateAgentStatus, bind, gets, modify, ret.
  rewrite Hget.
  unfold when_truthy, modify, ret.
  destruct (AgentRegistry.Status_eqb status AgentRegistry.offline);
    [destruct (AgentRegistry.socketId _) as [socket |];
     [destruct (truthy_string socket) |] |];
    simpl; eexists; eexists; (split; [reflexivity |]);
    (split; [apply JSMap_get_set_same |]); split; reflexivity.
Qed.

(** With no current task supplied, as on completion and failure of a task,
    [updateAgentStatus] leaves the agent's current task as it was. *)
Lemma updateAgentStatus_keeps_currentTask (now : Z) (agentId : string)
  (status : AgentRegistry.Status) (s : AgentRegistry.State)
  (agent : AgentRegistry.Agent) :
  AgentRegistry.getAgent agentId s = Some agent ->
  option_map AgentRegistry.currentTask
    (AgentRegistry.getAgent agentId
       (exec (AgentRegistry.updateAgentStatus now agentId status None) s))
  = Some (AgentRegistry.currentTask agent).
Proof.
  intros Hget.
  destruct (updateAgentStatus_known now agentId status None s agent Hget)
    as (s' & agent' & Hrun & Hstored & _ & Hct).
  unfold exec. rewrite Hrun. simpl. rewrite Hstored. simpl. now rewrite Hct.
Qed.

Lemma updateAgentPerformance_known (agentId : string) (taskDuration : Z)
  (success : bool) (s : AgentRegistry.State) (agent : AgentRegistry.Agent) :
  AgentRegistry.getAgent agentId s = Some agent ->
  exists s' agent',
    AgentRegistry.updateAgentPerformance agentId taskDuration success s
    = (Return tt, s')
    /\ AgentRegistry.getAgent agentId s' = Some agent'
    /\ AgentRegistry.status agent' = AgentRegistry.status agent
    /\ AgentRegistry.currentTask agent' = AgentRegistry.currentTask agent.
Proof.
  unfold AgentRegistry.getAgent. intros Hget.
  unfold AgentRegistry.updateAgentPerformance, bind, gets, modify.
  rewrite Hget. simpl. eexists. eexists.
  split; [reflexivity |]. split; [apply JSMap_get_set_same |].
  destruct success; split; reflexivity.
Qed.

(** ** Registration *)

Lemma registerAgent_registers (now : Z) (agentId : string)
  (agentData : AgentRegistry.PartialAgent) (s : AgentRegistry.State) :
  exists agent s',
    AgentRegistry.registerAgent now agentId agentData s = (Return agent, s')
    /\ AgentRegistry.getAgent agentId s' = Some agent
    /\ agent
       = AgentRegistry.spread
           (AgentRegistry.mkAgent agentId
              (or_string (AgentRegistry.opt_name agentData) agentId)
              (or_else (AgentRegistry.opt_capabilities agentData) [])
              AgentRegistry.online
              (AgentRegistry.opt_socketId agentData)
              None now
              (or_Q (option_map AgentRegistry.performanceScore
                       (AgentRegistry.getAgent agentId s)) 1)
              (or_Z (option_map AgentRegistry.tasksCompleted
                       (AgentRegistry.getAgent agentId s)) 0)
              (or_Q (option_map AgentRegistry.averageTaskTime
                       (AgentRegistry.getAgent agentId s)) 0))
           agentData.
Proof.
  unfold AgentRegistry.registerAgent, AgentRegistry.getAgent, bind, gets,
    modify, ret.
  unfold when_truthy, AgentRegistry.spread. simpl.
  destruct (AgentRegistry.opt_socketId agentData) as [socket |];
    [destruct (truthy_string socket) |];
    simpl; eexists; eexists; (split; [reflexivity |]);
    (split; [apply JSMap_get_set_same | reflexivity]).
Qed.







(** ** Scored selection *)

Section SortHead.

Context {A : Type}.
Variable score : A -> Q.

Let by_score (a b : A) : Q := (score b - score a)%Q.

Lemma first_maximum_cons_keep (x best : A) (l : list A) :
  first_maximum score best l -> (score x < score best)%Q ->
  first_maximum score best (x :: l).
Proof.
  intros (before & after & -> & Hb & Ha) Hlt.
  exists (x :: before), after. repeat split; auto.
  intros b [<- | Hin]; auto.
Qed.

Lemma first_maximum_cons_new (x best : A) (l : list A) :
  first_maximum score best l -> (score best <= score x)%Q ->
  first_maximum score x (x :: l).
Proof.
  intros (before & after & -> & Hb & Ha) Hle.
  exists [], (before ++ best :: after)%list. repeat split.
  - intros b [].
  - intros b Hin. apply in_app_or in Hin as [Hin | [<- | Hin]].
    + apply Hb in Hin. lra.
    + assumption.
    + apply Ha in Hin. lra.
Qed.

Lemma sort_head (l : list A) :
  match sort by_score l with
  | [] => l = []
  | best :: _ => first_maximum score best l
  end.
Proof.
  induction l as [| x l IH]; simpl; [reflexivity |].
  destruct (sort by_score l) as [| y rest]; simpl.
  - subst l. exists [], []. repeat split; intros b [].
  - unfold by_score at 1.
    destruct (Qle_bool (score y - score x) 0) eqn:E.
    + apply Qle_bool_iff in E.
      apply first_maximum_cons_new with (best := y); auto. lra.
    + apply first_maximum_cons_keep; auto.
      destruct (Qlt_le_dec (score x) (score y)) as [Hlt | Hle]; auto.
      assert (Qle_bool (score y - score x) 0 = true) as E'
          by (apply Qle_bool_iff; lra).
      congruence.
Qed.

End SortHead.

Lemma getOptimalAgent_none (requiredCapabilities : list string)
  (s : AgentRegistry.State) :
  AgentRegistry.getOptimalAgent requiredCapabilities s = None
  <-> AgentRegistry.getAvailableAgents s = [].
Proof.
  unfold AgentRegistry.getOptimalAgent.
  destruct (AgentRegistry.getAvailableAgents s) as [| a l] eqn:E; simpl.
  - tauto.
  - split; [| discriminate].
    pose proof (sort_head snd
      (map (fun agent =>
              (agent, AgentRegistry.totalScore requiredCapabilities agent))
         (a :: l))) as H.
    simpl in H |- *.
    destruct (sort_insert _ _ _); [discriminate H | discriminate].
Qed.









(** ** Task creation *)

Lemma createTask_creates (now : Z) (uuid : string)
  (taskData : TaskCoordinator.PartialTask) (s : TaskCoordinator.State) :
  exists task s',
    TaskCoordinator.createTask now uuid taskData s = (Return task, s')
    /\ TaskCoordinator.getTask (TaskCoordinator.id task) s' = Some task
    /\ task
       = TaskCoordinator.spread
           (TaskCoordinator.mkTask uuid
              (or_string (TaskCoordinator.opt_description taskData)
                 "Untitled task")
              (or_else (TaskCoordinator.opt_requiredCapabilities taskData) [])
              (or_else (TaskCoordinator.opt_priority taskData)
                 TaskCoordinator.medium)
              TaskCoordinator.pending None
              (or_else (TaskCoordinator.opt_dependencies taskData) [])
              0
              (TaskCoordinator.opt_estimatedDuration taskData)
              now None None)
           taskData.
Proof.
  unfold TaskCoordinator.createTask, TaskCoordinator.getTask, bind, modify,
    ret.
  simpl. eexists. eexists. split; [reflexivity |].
  split; [apply JSMap_get_set_same | reflexivity].
Qed.




(** Fields that carry a status and a progress of their own keep them: the
    spread at the end of [createTask] overrides [pending] and 0. *)
Lemma create_task_fields_override_defaults :
  let taskData :=
    TaskCoordinator.mkPartialTask None (Some "done already") None None
      (Some TaskCoordinator.completed) None None (Some 500) None None None
      None in
  exists task s',
    TaskCoordinator.createTask 10 "T1" taskData TaskCoordinator.init
    = (Return task, s')
    /\ TaskCoordinator.status task = TaskCoordinator.completed
    /\ TaskCoordinator.progress task = 500.
Proof.
  vm_compute. eexists. eexists. repeat split.
Qed.

(** ** Assignment *)

Lemma checkDependencies_nil_iff (task : TaskCoordinator.Task)
  (s : TaskCoordinator.State) :
  TaskCoordinator.checkDependencies task s = []
  <-> dependencies_completed s task.
Proof.
  unfold TaskCoordinator.checkDependencies, dependencies_completed,
    TaskCoordinator.getTask.
  induction (TaskCoordinator.dependencies task) as [| d ds IH]; simpl.
  - split; [intros _ depId [] | reflexivity].
  - destruct (JSMap.get d (TaskCoordinator.tasks s)) as [dep |] eqn:Eget.
    + destruct (TaskCoordinator.status dep) eqn:Est; simpl;
        try (split; [discriminate |];
             intros H; destruct (H d (or_introl eq_refl)) as (dep' & Hd & Hc);
             congruence).
      rewrite IH. split.
      * intros H depId [<- | Hin]; [exists dep; auto | now apply H].
      * intros H depId Hin. apply H. now right.
    + split; [discriminate |].
      intros H. destruct (H d (or_introl eq_refl)) as (dep' & Hd & _).
      congruence.
Qed.

Lemma assignOptimalAgent_blocked (now : Z) (taskId : string)
  (s : TaskCoordinator.State) (task : TaskCoordinator.Task) :
  TaskCoordinator.getTask taskId s = Some task ->
  TaskCoordinator.status task = TaskCoordinator.pending ->
  TaskCoordinator.checkDependencies task s <> [] ->
  TaskCoordinator.assignOptimalAgent now taskId s = (Return None, s).
Proof.
  unfold TaskCoordinator.getTask. intros Hget Hpending Hdeps.
  unfold TaskCoordinator.assignOptimalAgent, bind, gets, ret.
  rewrite Hget, Hpending. simpl.
  destruct (TaskCoordinator.checkDependencies task s); [congruence |].
  reflexivity.
Qed.

(** C4, as amended. Through [assignOptimalAgent] a pending task leaves
    [pending] only when every id of its dependency list is a known task in
    state completed; when some dependency is unmet the call returns none
    without throwing and the whole coordinator state, the task's pending
    status included, is untouched. ([updateTaskProgress] is not gated by
    dependencies.) *)
Theorem assign_optimal_waits_for_dependencies :
  forall (now : Z) (taskId : string) (s : TaskCoordinator.State)
    (task : TaskCoordinator.Task),
    TaskCoordinator.getTask taskId s = Some task ->
    TaskCoordinator.status task = TaskCoordinator.pending ->
    (~ dependencies_completed s task ->
     TaskCoordinator.assignOptimalAgent now taskId s = (Return None, s))
    /\ (forall task',
          TaskCoordinator.getTask taskId
            (exec (TaskCoordinator.assignOptimalAgent now taskId) s)
          = Some task' ->
          TaskCoordinator.status task' <> TaskCoordinator.pending ->
          dependencies_completed s task).
Proof.
  intros now taskId s task Hget Hpending. split.
  - intros Hunmet. apply assignOptimalAgent_blocked with (task := task); auto.
    intros Hnil. apply Hunmet. now apply checkDependencies_nil_iff.
  - intros task' Hafter Hleft.
    destruct (TaskCoordinator.checkDependencies task s) eqn:Edeps.
    + now apply checkDependencies_nil_iff.
    + unfold exec in Hafter.
      rewrite (assignOptimalAgent_blocked now taskId s task) in Hafter; auto.
      * simpl in Hafter. congruence.
      * congruence.
Qed.

Lemma assign_optimal_waits_for_dependencies_witness :
  TaskCoordinator.assignOptimalAgent 3500 "T2"
    (Fixture.coordinator_after Fixture.T1_assigned_T2_waiting)
  = (Return None, Fixture.coordinator_after Fixture.T1_assigned_T2_waiting).
Proof.
  assert (TaskCoordinator.getTask "T2"
            (Fixture.coordinator_after Fixture.T1_assigned_T2_waiting)
          = Some Fixture.T2_waiting) as Hget by (vm_compute; reflexivity).
  destruct (assign_optimal_waits_for_dependencies 3500 "T2" _ _ Hget eq_refl)
    as [Hblocked _].
  apply Hblocked. intros Hall.
  destruct (Hall "T1" (or_introl eq_refl)) as (dep & Hdep & Hcompleted).
  vm_compute in Hdep. injection Hdep as <-. discriminate Hcompleted.
Defined.

(** C4, the claim as stated fails: T2 depends on T1, T1 is assigned and
    not completed, a progress update carrying [in_progress] arrives for T2,
    and T2 has left [pending]. *)
Lemma pending_task_starts_despite_unmet_dependency :
  let before := Fixture.coordinator_after Fixture.T1_assigned_T2_waiting in
  let after :=
    Fixture.coordinator_after
      (Fixture.T1_assigned_T2_waiting
       ++ [ Fixture.reports 4000 "T2"
              (Fixture.only_status TaskCoordinator.in_progress) ])%list in
  option_map TaskCoordinator.status (TaskCoordinator.getTask "T2" before)
  = Some TaskCoordinator.pending
  /\ option_map TaskCoordinator.dependencies
       (TaskCoordinator.getTask "T2" before)
     = Some ["T1"]
  /\ option_map TaskCoordinator.status (TaskCoordinator.getTask "T1" after)
     = Some TaskCoordinator.assigned
  /\ option_map TaskCoordinator.status (TaskCoordinator.getTask "T2" after)
     = Some TaskCoordinator.in_progress.
Proof.
  vm_compute. repeat split.
Qed.

(** C2, as amended. When [assignOptimalAgent] returns an assignment, the
    registry holds the assigned agent as busy with the task as its current
    task, and the task is in state assigned and names that agent. (Nothing
    keeps the three conditions equivalent afterwards: an agent_status
    message stores the status and current task it is sent, and a
    registration resets the agent to online and idle.) *)
Theorem assignment_makes_agent_busy :
  forall (now : Z) (taskId : string) (s s' : TaskCoordinator.State)
    (assignment : TaskCoordinator.TaskAssignment),
    TaskCoordinator.assignOptimalAgent now taskId s
    = (Return (Some assignment), s') ->
    exists agent task,
      AgentRegistry.getAgent (TaskCoordinator.agentId assignment)
        (TaskCoordinator.agentRegistry s')
      = Some agent
      /\ AgentRegistry.status agent = AgentRegistry.busy
      /\ AgentRegistry.currentTask agent
         = Some (TaskCoordinator.taskId assignment)
      /\ TaskCoordinator.getTask taskId s' = Some task
      /\ TaskCoordinator.id task = TaskCoordinator.taskId assignment
      /\ TaskCoordinator.status task = TaskCoordinator.assigned
      /\ TaskCoordinator.assignedAgent task
         = Some (TaskCoordinator.agentId assignment).
Proof.
  intros now taskId s s' assignment.
  unfold TaskCoordinator.assignOptimalAgent, bind, gets, modify, ret, throw.
  destruct (JSMap.get taskId (TaskCoordinator.tasks s)) as [task |];
    [| discriminate].
  destruct (negb _); [discriminate |].
  destruct (Nat.ltb _ _); [discriminate |].
  destruct (AgentRegistry.getOptimalAgent _ _) as [optimalAgent |];
    [| discriminate].
  unfold TaskCoordinator.registry. simpl.
  destruct (AgentRegistry.getAgent (AgentRegistry.id optimalAgent)
              (TaskCoordinator.agentRegistry s)) as [agent |] eqn:Eagent.
  - destruct (updateAgentStatus_known now (AgentRegistry.id optimalAgent)
                AgentRegistry.busy (Some (TaskCoordinator.id task))
                (TaskCoordinator.agentRegistry s) agent Eagent)
      as (reg & agent' & Hrun & Hstored & Hst & Hct).
    rewrite Hrun. simpl. intros [= <- <-]. simpl.
    exists agent'. eexists.
    split; [exact Hstored |]. split; [exact Hst |]. split; [exact Hct |].
    unfold TaskCoordinator.getTask. simpl.
    split; [apply JSMap_get_set_same |]. repeat split.
  - rewrite (updateAgentStatus_unknown _ _ Eagent). discriminate.
Qed.

Lemma assignment_makes_agent_busy_witness :
  exists agent task,
    AgentRegistry.getAgent "A1"
      (TaskCoordinator.agentRegistry
         (exec (TaskCoordinator.assignOptimalAgent 2500 "T9")
            Fixture.T9_created))
    = Some agent
    /\ AgentRegistry.status agent = AgentRegistry.busy
    /\ AgentRegistry.currentTask agent = Some "T9"
    /\ TaskCoordinator.getTask "T9"
         (exec (TaskCoordinator.assignOptimalAgent 2500 "T9")
            Fixture.T9_created)
       = Some task
    /\ TaskCoordinator.status task = TaskCoordinator.assigned
    /\ TaskCoordinator.assignedAgent task = Some "A1".
Proof.
  assert (TaskCoordinator.assignOptimalAgent 2500 "T9" Fixture.T9_created
          = (Return (Some Fixture.T9_to_A1),
             exec (TaskCoordinator.assignOptimalAgent 2500 "T9")
               Fixture.T9_created)) as Hrun by (vm_compute; reflexivity).
  destruct (assignment_makes_agent_busy 2500 "T9" _ _ _ Hrun)
    as (agent & task & Hagent & Hbusy & Hct & Htask & _ & Hst & Hnames).
  exists agent, task. repeat split; assumption.
Defined.

(** C2, the claim as stated fails: A1 registers and then sends an
    agent_status message saying busy; the registry now holds A1 as busy
    with no current task, and there is no task at all. *)
Lemma busy_without_a_task :
  ~ status_consistent
      (Fixture.coordinator_after
         [ Fixture.A1_registers 1000;
           Server.mkInbound 2000 "-" "s1"
             (Server.agent_status "A1" AgentRegistry.busy None) ]).
Proof.
  intros Hinv.
  destruct (Hinv "A1"
              (AgentRegistry.mkAgent "A1" "A1" ["python"] AgentRegistry.busy
                 (Some "s1") None 2000 1 0 0))
    as [[Hbusy _] _].
  - vm_compute. reflexivity.
  - apply Hbusy; [reflexivity |]. left. reflexivity.
Qed.

(** [assignOptimalAgent] writes to one task only, and only if it is
    pending: a task that is not pending stays as it is. *)
Lemma assignOptimalAgent_keeps_settled (now : Z) (taskId key : string)
  (task : TaskCoordinator.Task) :
  TaskCoordinator.status task <> TaskCoordinator.pending ->
  preserves
    (fun s => JSMap.get key (TaskCoordinator.tasks s) = Some task)
    (TaskCoordinator.assignOptimalAgent now taskId).
Proof.
  intros Hsettled s Hkey.
  unfold exec, TaskCoordinator.assignOptimalAgent, bind, gets, modify, ret,
    throw.
  destruct (JSMap.get taskId (TaskCoordinator.tasks s)) as [found |] eqn:Eget;
    [| exact Hkey].
  destruct (negb _) eqn:Epending; [exact Hkey |].
  destruct (Nat.ltb _ _); [exact Hkey |].
  destruct (AgentRegistry.getOptimalAgent _ _) as [optimalAgent |];
    [| exact Hkey].
  assert (taskId <> key) as Hne.
  { intros <-. rewrite Eget in Hkey. injection Hkey as ->.
    apply negb_false_iff in Epending.
    destruct (TaskCoordinator.status task); try discriminate Epending.
    now apply Hsettled. }
  unfold TaskCoordinator.registry. simpl.
  destruct (AgentRegistry.updateAgentStatus _ _ _ _ _) as [[[] | e] reg];
    simpl; rewrite JSMap_get_set_other; auto.
Qed.

Lemma processPendingTasks_keeps_settled (now : Z) (key : string)
  (task : TaskCoordinator.Task) :
  TaskCoordinator.status task <> TaskCoordinator.pending ->
  preserves
    (fun s => JSMap.get key (TaskCoordinator.tasks s) = Some task)
    (TaskCoordinator.processPendingTasks now).
Proof.
  intros Hsettled. unfold TaskCoordinator.processPendingTasks.
  apply preserves_bind; [apply preserves_gets |].
  intros pendingTasks. apply preserves_for_of. intros t _.
  apply preserves_try_catch. now apply assignOptimalAgent_keeps_settled.
Qed.

(** ** Progress updates *)

(** What [updateTaskProgress] leaves under the id of a known task, whether
    it returns or throws half way. *)
Lemma updateTaskProgress_task (now : Z) (taskId : string)
  (update : TaskCoordinator.Update) (s : TaskCoordinator.State)
  (task : TaskCoordinator.Task) :
  TaskCoordinator.getTask taskId s = Some task ->
  TaskCoordinator.getTask taskId
    (exec (TaskCoordinator.updateTaskProgress now taskId update) s)
  = Some (TaskCoordinator.apply_update now update task).
Proof.
  unfold TaskCoordinator.getTask. intros Hget.
  set (task' := TaskCoordinator.apply_update now update task).
  set (P := fun s0 : TaskCoordinator.State =>
              JSMap.get taskId (TaskCoordinator.tasks s0) = Some task').
  unfold exec, TaskCoordinator.updateTaskProgress.
  unfold bind at 1. unfold gets at 1. rewrite Hget.
  unfold bind at 1. unfold modify at 1. fold task'.
  match goal with
  | |- JSMap.get _ (TaskCoordinator.tasks (snd (?c ?s1))) = _ =>
      change (P (exec c s1)); apply (preserves_bind P)
  end.
  - destruct (TaskCoordinator.upd_status update) as [[] |];
      try apply preserves_ret.
    + apply (handleTaskCompletion_preserves
               (fun m => JSMap.get taskId m = Some task')).
    + apply (handleTaskFailure_preserves
               (fun m => JSMap.get taskId m = Some task')).
  - intros _. apply preserves_bind.
    + apply (emit_preserves (fun m => JSMap.get taskId m = Some task')).
    + intros _.
      destruct (negb _ && TaskCoordinator.Status_eqb _ _) eqn:E;
        [| apply preserves_ret].
      apply processPendingTasks_keeps_settled.
      apply andb_prop in E as [_ E]. intros Hp. rewrite Hp in E.
      discriminate E.
  - unfold P. simpl. apply JSMap_get_set_same.
Qed.

Lemma updateTaskProgress_unknown (now : Z) (taskId : string)
  (update : TaskCoordinator.Update) (s : TaskCoordinator.State) :
  TaskCoordinator.getTask taskId s = None ->
  TaskCoordinator.updateTaskProgress now taskId update s
  = (Throw ("Task " ++ taskId ++ " not found"), s).
Proof.
  unfold TaskCoordinator.getTask, TaskCoordinator.updateTaskProgress, bind,
    gets.
  now intros ->.
Qed.

Lemma apply_update_status (now : Z) (update : TaskCoordinator.Update)
  (task : TaskCoordinator.Task) :
  TaskCoordinator.status (TaskCoordinator.apply_update now update task)
  = or_else (TaskCoordinator.upd_status update) (TaskCoordinator.status task).
Proof.
  unfold TaskCoordinator.apply_update.
  destruct (TaskCoordinator.upd_progress update);
    destruct (TaskCoordinator.upd_status update) as [[] |]; simpl;
    try reflexivity;
    destruct (TaskCoordinator.startedAt task); reflexivity.
Qed.


(** C3, as amended. [updateTaskProgress] on a known task stores whatever
    status the update carries, from any current status (pending, completed
    and failed included), and leaves the status alone when the update
    carries none: there is no transition guard. *)
Theorem update_progress_stores_requested_status :
  forall (now : Z) (taskId : string) (update : TaskCoordinator.Update)
    (s : TaskCoordinator.State) (task : TaskCoordinator.Task),
    TaskCoordinator.getTask taskId s = Some task ->
    exists task',
      TaskCoordinator.getTask taskId
        (exec (TaskCoordinator.updateTaskProgress now taskId update) s)
      = Some task'
      /\ TaskCoordinator.status task'
         = match TaskCoordinator.upd_status update with
           | Some requested => requested
           | None => TaskCoordinator.status task
           end.
Proof.
  intros now taskId update s task Hget.
  exists (TaskCoordinator.apply_update now update task). split.
  - now apply updateTaskProgress_task.
  - apply apply_update_status.
Qed.

Lemma update_progress_stores_requested_status_witness :
  exists task',
    TaskCoordinator.getTask "T1"
      (exec (TaskCoordinator.updateTaskProgress 5000 "T1"
               (Fixture.only_status TaskCoordinator.pending))
         (Fixture.coordinator_after Fixture.dependency_gating))
    = Some task'
    /\ TaskCoordinator.status task' = TaskCoordinator.pending.
Proof.
  assert (TaskCoordinator.getTask "T1"
            (Fixture.coordinator_after Fixture.dependency_gating)
          = Some Fixture.T1_completed) as Hget by (vm_compute; reflexivity).
  exact (update_progress_stores_requested_status 5000 "T1"
           (Fixture.only_status TaskCoordinator.pending) _ _ Hget).
Defined.

(** C3, the claim as stated fails: T1 is completed, an update carrying
    [in_progress] arrives, and T1 is in progress again. *)
Lemma completed_task_is_reopened :
  let s := Fixture.coordinator_after Fixture.dependency_gating in
  let s' :=
    Fixture.coordinator_after
      (Fixture.dependency_gating
       ++ [ Fixture.reports 5000 "T1"
              (Fixture.only_status TaskCoordinator.in_progress) ])%list in
  exists before after,
    TaskCoordinator.getTask "T1" s = Some before
    /\ TaskCoordinator.status before = TaskCoordinator.completed
    /\ TaskCoordinator.getTask "T1" s' = Some after
    /\ TaskCoordinator.status after = TaskCoordinator.in_progress
    /\ ~ permitted_transition (TaskCoordinator.status before)
           (TaskCoordinator.status after).
Proof.
  vm_compute. eexists. eexists.
  split; [reflexivity |]. split; [reflexivity |].
  split; [reflexivity |]. split; [reflexivity |].
  simpl. intros [[H _] | [[H | H] _]]; discriminate H.
Qed.




(** ** Completion and the agent's current task *)

(** Whatever the state: when a task that names a registered agent is
    completed, [handleTaskCompletion] leaves that agent online with the
    current task it had. *)
Lemma handleTaskCompletion_leaves_currentTask (now : Z)
  (task : TaskCoordinator.Task) (agentId : string)
  (s : TaskCoordinator.State) (agent : AgentRegistry.Agent) :
  TaskCoordinator.assignedAgent task = Some agentId ->
  truthy_string agentId = true ->
  AgentRegistry.getAgent agentId (TaskCoordinator.agentRegistry s)
  = Some agent ->
  exists agent',
    AgentRegistry.getAgent agentId
      (TaskCoordinator.agentRegistry
         (exec (TaskCoordinator.handleTaskCompletion now task) s))
    = Some agent'
    /\ AgentRegistry.status agent' = AgentRegistry.online
    /\ AgentRegistry.currentTask agent' = AgentRegistry.currentTask agent.
Proof.
  intros Hnamed Htruthy Hget.
  unfold exec, TaskCoordinator.handleTaskCompletion, when_truthy.
  rewrite Hnamed, Htruthy.
  unfold bind, TaskCoordinator.registry.
  destruct (updateAgentPerformance_known agentId
              match TaskCoordinator.startedAt task,
                    TaskCoordinator.completedAt task with
              | Some started, Some finished => finished - started
              | _, _ => 0
              end true _ agent Hget)
    as (reg1 & agent1 & Hrun1 & Hget1 & _ & Hct1).
  rewrite Hrun1. simpl.
  destruct (updateAgentStatus_known now agentId AgentRegistry.online None
              reg1 agent1 Hget1)
    as (reg2 & agent2 & Hrun2 & Hget2 & Hst2 & Hct2).
  rewrite Hrun2. simpl.
  exists agent2. split; [exact Hget2 |]. split; [exact Hst2 |].
  now rewrite Hct2.
Qed.

(** C1, the code against the claim. Dependency gating: A1 holds T1, T2
    waits for T1, T1 is reported completed. Afterwards the registry holds
    A1 as online but still with current task T1 ([handleTaskCompletion]
    passes no current task to [updateAgentStatus], which then leaves the
    field alone), so A1 is not among the available agents; T2 has all its
    dependencies completed and is still pending and unassigned after the
    [processPendingTasks] pass, and a further [assignOptimalAgent] finds
    no agent for it. *)
Theorem completed_agent_keeps_current_task :
  let before := Fixture.coordinator_after Fixture.T1_assigned_T2_waiting in
  let after := Fixture.coordinator_after Fixture.dependency_gating in
  TaskCoordinator.getTask "T1" before = Some Fixture.T1_assigned
  /\ TaskCoordinator.getTask "T1" after = Some Fixture.T1_completed
  /\ option_map
       (fun agent =>
          (AgentRegistry.status agent, AgentRegistry.currentTask agent))
       (AgentRegistry.getAgent "A1" (TaskCoordinator.agentRegistry after))
     = Some (AgentRegistry.online, Some "T1")
  /\ AgentRegistry.getAvailableAgents (TaskCoordinator.agentRegistry after)
     = []
  /\ TaskCoordinator.getTask "T2" after = Some Fixture.T2_waiting
  /\ TaskCoordinator.checkDependencies Fixture.T2_waiting after = []
  /\ TaskCoordinator.assignOptimalAgent 5000 "T2" after = (Return None, after).
Proof.
  vm_compute. repeat split.
Qed.

(** ** Cycle search: the recursion bound is never reached *)

Lemma set_add_In (x y : string) (xs : list string) :
  In y (TaskCoordinator.set_add x xs) <-> y = x \/ In y xs.
Proof.
  unfold TaskCoordinator.set_add.
  destruct (includes xs x) eqn:E.
  - apply includes_In in E. split; [tauto |]. intros [-> | H]; assumption.
  - rewrite in_app_iff. simpl. intuition congruence.
Qed.

Section CycleSearch.

Variable graph : JSMap.t (list string).

(** The ids of the graph that the search has not visited yet. *)
Let unvisited (seen : list string) : list string :=
  filter (fun x => negb (includes seen x)) (TaskCoordinator.ids graph).

Let step (fuel : nat) (path' : list string) (acc : TaskCoordinator.Search)
  (dep : string) : TaskCoordinator.Search :=
  if negb (includes (TaskCoordinator.visited acc) dep)
  then TaskCoordinator.dfs fuel graph dep path' acc
  else if includes (TaskCoordinator.recursionStack acc) dep
       then TaskCoordinator.mkSearch (TaskCoordinator.visited acc)
              (TaskCoordinator.recursionStack acc)
              (TaskCoordinator.cycles acc
               ++ [TaskCoordinator.slice_from dep path'])%list
       else acc.

Lemma dfs_unfold (fuel : nat) (node : string) (path : list string)
  (st : TaskCoordinator.Search) :
  TaskCoordinator.dfs (S fuel) graph node path st
  = let path' := (path ++ [node])%list in
    let st2 :=
      fold_left (step fuel path') (or_else (JSMap.get node graph) [])
        (TaskCoordinator.mkSearch
           (TaskCoordinator.set_add node (TaskCoordinator.visited st))
           (TaskCoordinator.set_add node (TaskCoordinator.recursionStack st))
           (TaskCoordinator.cycles st)) in
    TaskCoordinator.mkSearch (TaskCoordinator.visited st2)
      (TaskCoordinator.set_delete node (TaskCoordinator.recursionStack st2))
      (TaskCoordinator.cycles st2).
Proof. reflexivity. Qed.

Lemma dfs_visited_grows (fuel : nat) :
  forall node path st x,
    In x (TaskCoordinator.visited st) ->
    In x (TaskCoordinator.visited (TaskCoordinator.dfs fuel graph node path st)).
Proof.
  induction fuel as [| fuel IH]; intros node path st x Hx; [exact Hx |].
  rewrite dfs_unfold. cbv zeta. simpl TaskCoordinator.visited.
  set (path' := (path ++ [node])%list).
  assert (forall deps acc,
             In x (TaskCoordinator.visited acc) ->
             In x (TaskCoordinator.visited (fold_left (step fuel path') deps acc)))
    as Hfold.
  { induction deps as [| dep deps IHd]; intros acc Hacc; simpl; [exact Hacc |].
    apply IHd. unfold step.
    destruct (negb _); [now apply IH |].
    destruct (includes _ dep); exact Hacc. }
  apply Hfold. simpl. apply set_add_In. now right.
Qed.

Lemma unvisited_shrinks (seen seen' : list string) :
  (forall x, In x seen -> In x seen') ->
  (length (unvisited seen') <= length (unvisited seen))%nat.
Proof.
  intros Hsub. apply filter_length_mono. intros x _ Hx.
  destruct (includes seen x) eqn:E; [| reflexivity].
  apply includes_In in E. apply Hsub in E. apply includes_In in E.
  now rewrite E in Hx.
Qed.

Lemma unvisited_shrinks_strictly (seen seen' : list string) (x : string) :
  (forall y, In y seen -> In y seen') ->
  In x (TaskCoordinator.ids graph) -> ~ In x seen -> In x seen' ->
  (length (unvisited seen') < length (unvisited seen))%nat.
Proof.
  intros Hsub Hid Hnew Hseen'.
  apply filter_length_strict with (x := x); auto.
  - intros y _ Hy.
    destruct (includes seen y) eqn:E; [| reflexivity].
    apply includes_In in E. apply Hsub in E. apply includes_In in E.
    now rewrite E in Hy.
  - destruct (includes seen x) eqn:E; [| reflexivity].
    apply includes_In in E. contradiction.
  - apply includes_In in Hseen'. now rewrite Hseen'.
Qed.

Lemma dependencies_are_ids (node dep : string) :
  In dep (or_else (JSMap.get node graph) []) ->
  In dep (TaskCoordinator.ids graph).
Proof.
  destruct (JSMap.get node graph) as [deps |] eqn:Eget; simpl; [| tauto].
  intros Hin. unfold TaskCoordinator.ids. apply in_or_app. right.
  apply in_concat. exists deps. split; [| exact Hin].
  apply JSMap_get_In in Eget. unfold JSMap.values.
  change deps with (snd (node, deps)). now apply in_map.
Qed.

(** With as much fuel as there are unvisited ids, more fuel changes
    nothing: the recursion ends on its own. *)
Lemma dfs_fuel_enough (fuel : nat) :
  forall node path st extra,
    In node (TaskCoordinator.ids graph) ->
    ~ In node (TaskCoordinator.visited st) ->
    (length (unvisited (TaskCoordinator.visited st)) <= fuel)%nat ->
    TaskCoordinator.dfs (fuel + extra) graph node path st
    = TaskCoordinator.dfs fuel graph node path st.
Proof.
  induction fuel as [| fuel IH]; intros node path st extra Hid Hnew Hfuel.
  - exfalso.
    assert (length (unvisited (node :: TaskCoordinator.visited st))
            < length (unvisited (TaskCoordinator.visited st)))%nat.
    { apply unvisited_shrinks_strictly with (x := node); simpl; auto. }
    lia.
  - change (S fuel + extra)%nat with (S (fuel + extra)).
    rewrite !dfs_unfold. cbv zeta.
    set (path' := (path ++ [node])%list).
    set (st1 :=
           TaskCoordinator.mkSearch
             (TaskCoordinator.set_add node (TaskCoordinator.visited st))
             (TaskCoordinator.set_add node (TaskCoordinator.recursionStack st))
             (TaskCoordinator.cycles st)).
    assert (forall deps acc,
               (forall dep, In dep deps -> In dep (TaskCoordinator.ids graph)) ->
               (forall x, In x (TaskCoordinator.visited st1) ->
                          In x (TaskCoordinator.visited acc)) ->
               fold_left (step (fuel + extra) path') deps acc
               = fold_left (step fuel path') deps acc) as Hfold.
    { induction deps as [| dep deps IHd]; intros acc Hdeps Hacc; simpl;
        [reflexivity |].
      assert (step (fuel + extra) path' acc dep = step fuel path' acc dep)
        as ->.
      { unfold step.
        destruct (includes (TaskCoordinator.visited acc) dep) eqn:E; simpl;
          [reflexivity |].
        apply IH.
        - apply Hdeps. now left.
        - intros Hin. apply includes_In in Hin. congruence.
        - assert (length (unvisited (TaskCoordinator.visited acc))
                  < length (unvisited (TaskCoordinator.visited st)))%nat.
          { apply unvisited_shrinks_strictly with (x := node); auto.
            - intros y Hy. apply Hacc. subst st1. simpl.
              apply set_add_In. now right.
            - apply Hacc. subst st1. simpl. apply set_add_In. now left. }
          lia. }
      apply IHd.
      - intros d Hd. apply Hdeps. now right.
      - intros x Hx. unfold step.
        destruct (negb _); [apply dfs_visited_grows; now apply Hacc |].
        destruct (includes _ dep); now apply Hacc. }
    rewrite Hfold; auto.
    intros dep Hdep. now apply dependencies_are_ids with (node := node).
Qed.

End CycleSearch.

(** The bound [detectCycles] gives to the search is enough: with any
    larger one the search ends in the same state. *)
Lemma search_fuel_enough (graph : JSMap.t (list string)) (extra : nat) :
  TaskCoordinator.search (S (length (TaskCoordinator.ids graph)) + extra) graph
  = TaskCoordinator.search (S (length (TaskCoordinator.ids graph))) graph.
Proof.
  unfold TaskCoordinator.search.
  set (fuel := S (length (TaskCoordinator.ids graph))).
  assert (forall keys acc,
             (forall k, In k keys -> In k (TaskCoordinator.ids graph)) ->
             fold_left
               (fun acc node =>
                  if negb (includes (TaskCoordinator.visited acc) node)
                  then TaskCoordinator.dfs (fuel + extra) graph node [] acc
                  else acc) keys acc
             = fold_left
                 (fun acc node =>
                    if negb (includes (TaskCoordinator.visited acc) node)
                    then TaskCoordinator.dfs fuel graph node [] acc
                    else acc) keys acc) as Hfold.
  { induction keys as [| k keys IH]; intros acc Hkeys; cbn [fold_left];
      [reflexivity |].
    destruct (includes (TaskCoordinator.visited acc) k) eqn:E; cbn [negb].
    - apply IH. intros k' Hk'. apply Hkeys. now right.
    - rewrite dfs_fuel_enough.
      + apply IH. intros k' Hk'. apply Hkeys. now right.
      + apply Hkeys. now left.
      + intros Hin. apply includes_In in Hin. congruence.
      + unfold fuel. etransitivity; [apply filter_length_le |]. lia. }
  apply Hfold. intros k Hk. unfold TaskCoordinator.ids.
  apply in_or_app. now left.
Qed.

(** ** Resource contention *)

(** What [detectConflicts] puts under resource contention: one report per
    busy agent that more than one task names, whatever the status of
    those tasks. *)
Lemma resourceContention_reports (s : TaskCoordinator.State)
  (conflict : TaskCoordinator.ConflictDetection) :
  In conflict (TaskCoordinator.resourceContention s)
  <-> exists agent,
        In agent
          (AgentRegistry.getAllAgents (TaskCoordinator.agentRegistry s))
        /\ AgentRegistry.status agent = AgentRegistry.busy
        /\ (1 < length
                  (TaskCoordinator.getTasksByAgent (AgentRegistry.id agent) s))%nat
        /\ conflict
           = TaskCoordinator.mkConflictDetection
               TaskCoordinator.resource_contention
               (map TaskCoordinator.id
                  (TaskCoordinator.getTasksByAgent (AgentRegistry.id agent) s))
               [AgentRegistry.id agent]
               TaskCoordinator.severity_medium
               ("Redistribute tasks from agent " ++ AgentRegistry.id agent).
Proof.
  unfold TaskCoordinator.resourceContention, TaskCoordinator.getTasksByAgent,
    TaskCoordinator.getAllTasks.
  rewrite in_flat_map. split.
  - intros (agent & Hin & Hc). apply filter_In in Hin as [Hin Hbusy].
    exists agent. split; [exact Hin |]. split.
    { destruct (AgentRegistry.status agent); try discriminate Hbusy.
      reflexivity. }
    destruct (Nat.ltb 1 _) eqn:E; [| destruct Hc].
    apply Nat.ltb_lt in E. split; [exact E |].
    destruct Hc as [<- | []]. reflexivity.
  - intros (agent & Hin & Hbusy & Hmany & ->).
    exists agent. split.
    + apply filter_In. split; [exact Hin |]. now rewrite Hbusy.
    + apply Nat.ltb_lt in Hmany. rewrite Hmany. now left.
Qed.

(** The resource contention reports of [detectConflicts] are those of its
    first loop: the other two loops report other types. *)
Lemma detectConflicts_resource_contention (s : TaskCoordinator.State)
  (conflict : TaskCoordinator.ConflictDetection) :
  exists conflicts,
    result TaskCoordinator.detectConflicts s = Return conflicts
    /\ (In conflict conflicts
        /\ TaskCoordinator.type conflict = TaskCoordinator.resource_contention
        <-> In conflict (TaskCoordinator.resourceContention s)).
Proof.
  unfold result, TaskCoordinator.detectConflicts, bind, gets, modify, ret.
  destruct (Nat.ltb 0 _); simpl; eexists; (split; [reflexivity |]);
    rewrite !in_app_iff;
    (split;
     [ intros [[H | [H | H]] Htype]; auto; exfalso
     | intros H; split; [now left |];
       apply resourceContention_reports in H as (agent & _ & _ & _ & ->);
       reflexivity ]).
  all: try (unfold TaskCoordinator.dependencyDeadlock in H;
            apply in_map_iff in H as (cycle & <- & _); discriminate Htype).
  all: unfold TaskCoordinator.capabilityMismatch in H;
    apply in_flat_map in H as (task & _ & H);
    destruct (match TaskCoordinator.assignedAgent task with
              | Some a => _
              | None => _
              end) as [agent |]; [| destruct H];
    destruct (Nat.ltb 0 _); [| destruct H];
    destruct H as [<- | []]; discriminate Htype.
Qed.

(** C7, the code against the claim. A1 completes T1, registers again and
    is given T2: A1 is busy, and of the two tasks naming it only T2 is not
    terminal. [detectConflicts] still reports a resource contention on A1
    listing T1 and T2, because the first loop counts every task whose
    [assignedAgent] is the agent, whatever its status. *)
Theorem finished_task_counts_as_contention :
  let s :=
    Fixture.coordinator_after Fixture.second_task_after_reregistration in
  map
    (fun task =>
       (TaskCoordinator.id task, TaskCoordinator.status task,
        TaskCoordinator.assignedAgent task))
    (TaskCoordinator.getAllTasks s)
  = [ ("T1", TaskCoordinator.completed, Some "A1");
      ("T2", TaskCoordinator.assigned, Some "A1") ]
  /\ map
       (fun agent =>
          (AgentRegistry.id agent, AgentRegistry.status agent,
           AgentRegistry.currentTask agent))
       (AgentRegistry.getAllAgents (TaskCoordinator.agentRegistry s))
     = [ ("A1", AgentRegistry.busy, Some "T2") ]
  /\ result TaskCoordinator.detectConflicts s
     = Return
         [ {| TaskCoordinator.type := TaskCoordinator.resource_contention;
              TaskCoordinator.involvedTasks := ["T1"; "T2"];
              TaskCoordinator.involvedAgents := ["A1"];
              TaskCoordinator.severity := TaskCoordinator.severity_medium;
              TaskCoordinator.suggestedResolution :=
                "Redistribute tasks from agent A1" |} ].
Proof.
  vm_compute. repeat split.
Qed.

(* ================================================================= *)
(** * Further properties *)

(** ** Performance bookkeeping *)

Lemma efficiency_in_range (taskDuration : Z) :
  score_in_range (AgentRegistry.efficiency taskDuration).
Proof.
  unfold score_in_range, AgentRegistry.efficiency.
  destruct (Z.eqb taskDuration 0); [split; lra |].
  set (x := (60000 / inject_Z taskDuration)%Q).
  split.
  - apply Q.le_max_l.
  - apply Q.max_lub; [lra | apply Q.le_min_l].
Qed.

Lemma record_success_in_range (taskDuration : Z) (agent : AgentRegistry.Agent) :
  score_in_range (AgentRegistry.performanceScore agent) ->
  score_in_range
    (AgentRegistry.performanceScore
       (AgentRegistry.record_success taskDuration agent)).
Proof.
  intros [Hlo Hhi].
  destruct (efficiency_in_range taskDuration) as [Elo Ehi].
  unfold score_in_range. simpl.
  split.
  - apply Q.min_glb; lra.
  - apply Q.le_min_l.
Qed.

Lemma record_failure_in_range (agent : AgentRegistry.Agent) :
  score_in_range (AgentRegistry.performanceScore agent) ->
  score_in_range
    (AgentRegistry.performanceScore (AgentRegistry.record_failure agent)).
Proof.
  intros [Hlo Hhi]. unfold score_in_range. simpl. split.
  - apply Q.le_max_l.
  - apply Q.max_lub; lra.
Qed.

(** X1. Recording a success or a failure for a known agent whose score is
    within [0.1, 2.0] leaves the score within [0.1, 2.0]; a success adds
    one to [tasksCompleted]; a failure leaves [tasksCompleted] alone and
    never raises the score. *)
Theorem performance_score_stays_in_range :
  forall (agentId : string) (taskDuration : Z) (success : bool)
    (s : AgentRegistry.State) (agent : AgentRegistry.Agent),
    AgentRegistry.getAgent agentId s = Some agent ->
    score_in_range (AgentRegistry.performanceScore agent) ->
    exists agent',
      AgentRegistry.getAgent agentId
        (exec (AgentRegistry.updateAgentPerformance agentId taskDuration
                 success) s)
      = Some agent'
      /\ score_in_range (AgentRegistry.performanceScore agent')
      /\ AgentRegistry.tasksCompleted agent'
         = AgentRegistry.tasksCompleted agent + (if success then 1 else 0)
      /\ (success = false ->
          (AgentRegistry.performanceScore agent'
           <= AgentRegistry.performanceScore agent)%Q).
Proof.
  intros agentId taskDuration success s agent Hget Hrange.
  unfold AgentRegistry.getAgent in *.
  unfold exec, AgentRegistry.updateAgentPerformance, bind, gets, modify.
  rewrite Hget. simpl. rewrite JSMap_get_set_same. eexists.
  split; [reflexivity |].
  destruct success; simpl.
  - split; [now apply record_success_in_range |].
    split; [reflexivity | discriminate].
  - split; [now apply record_failure_in_range |].
    split; [lia |]. intros _. destruct Hrange. apply Q.max_lub; lra.
Qed.

Lemma performance_score_stays_in_range_witness :
  exists agent',
    AgentRegistry.getAgent "A2"
      (exec (AgentRegistry.updateAgentPerformance "A2" 1 true)
         Fixture.two_react_agents)
    = Some agent'
    /\ score_in_range (AgentRegistry.performanceScore agent')
    /\ AgentRegistry.tasksCompleted agent' = 1.
Proof.
  assert (AgentRegistry.getAgent "A2" Fixture.two_react_agents
          = Some Fixture.agent_A2) as Hget by (vm_compute; reflexivity).
  assert (score_in_range (AgentRegistry.performanceScore Fixture.agent_A2))
    as Hrange by (unfold score_in_range; simpl; split; lra).
  destruct (performance_score_stays_in_range "A2" 1 true _ _ Hget Hrange)
    as (agent' & Hstored & Hscore & Hcount & _).
  exists agent'. split; [exact Hstored |]. split; [exact Hscore | exact Hcount].
Defined.

(** ** The agent map and the socket index *)

Lemma JSMap_keys_set {V : Type} (k : string) (v : V) (m : JSMap.t V) :
  JSMap.keys (JSMap.set k v m)
  = match JSMap.get k m with
    | Some _ => JSMap.keys m
    | None => (JSMap.keys m ++ [k])%list
    end.
Proof.
  induction m as [| [k' v'] m IH]; simpl; [reflexivity |].
  destruct (String.eqb k k') eqn:E; simpl.
  - apply String.eqb_eq in E. now subst.
  - rewrite IH. now destruct (JSMap.get k m).
Qed.

Lemma JSMap_get_none {V : Type} (k : string) (m : JSMap.t V) :
  JSMap.get k m = None <-> ~ In k (JSMap.keys m).
Proof.
  induction m as [| [k' v'] m IH]; simpl; [tauto |].
  destruct (String.eqb k k') eqn:E.
  - apply String.eqb_eq in E. subst. split; [discriminate | tauto].
  - apply String.eqb_neq in E. rewrite IH. intuition congruence.
Qed.

Lemma JSMap_get_delete_same {V : Type} (k : string) (m : JSMap.t V) :
  unique_keys m -> JSMap.get k (JSMap.delete k m) = None.
Proof.
  unfold unique_keys.
  induction m as [| [k' v'] m IH]; simpl; intros Hnd; [reflexivity |].
  inversion Hnd as [| ? ? Hnotin Hnd']; subst.
  destruct (String.eqb k k') eqn:E; simpl.
  - apply String.eqb_eq in E. subst. now apply JSMap_get_none.
  - rewrite E. now apply IH.
Qed.

Lemma JSMap_get_delete_other {V : Type} (k k' : string) (m : JSMap.t V) :
  k <> k' -> JSMap.get k' (JSMap.delete k m) = JSMap.get k' m.
Proof.
  intros Hne. induction m as [| [k0 v0] m IH]; simpl; [reflexivity |].
  destruct (String.eqb k k0) eqn:E; simpl.
  - apply String.eqb_eq in E. subst k0.
    destruct (String.eqb k' k) eqn:E'; [| reflexivity].
    apply String.eqb_eq in E'. congruence.
  - now rewrite IH.
Qed.

(** X2. A registration puts a new id at the end of the agent map and
    leaves a known id at its place; either way every other agent is
    found as before. *)
Theorem registration_keeps_insertion_order :
  forall (now : Z) (agentId : string)
    (agentData : AgentRegistry.PartialAgent) (s : AgentRegistry.State),
    let s' := exec (AgentRegistry.registerAgent now agentId agentData) s in
    JSMap.keys (AgentRegistry.agents s')
    = match AgentRegistry.getAgent agentId s with
      | Some _ => JSMap.keys (AgentRegistry.agents s)
      | None => (JSMap.keys (AgentRegistry.agents s) ++ [agentId])%list
      end
    /\ AgentRegistry.getAgentCount s'
       = match AgentRegistry.getAgent agentId s with
         | Some _ => AgentRegistry.getAgentCount s
         | None => S (AgentRegistry.getAgentCount s)
         end
    /\ forall other,
         other <> agentId ->
         AgentRegistry.getAgent other s' = AgentRegistry.getAgent other s.
Proof.
  intros now agentId agentData s s'.
  assert (AgentRegistry.agents s'
          = JSMap.set agentId
              (AgentRegistry.spread
                 (AgentRegistry.mkAgent agentId
                    (or_string (AgentRegistry.opt_name agentData) agentId)
                    (or_else (AgentRegistry.opt_capabilities agentData) [])
                    AgentRegistry.online
                    (AgentRegistry.opt_socketId agentData)
                    None now
                    (or_Q (option_map AgentRegistry.performanceScore
                             (AgentRegistry.getAgent agentId s)) 1)
                    (or_Z (option_map AgentRegistry.tasksCompleted
                             (AgentRegistry.getAgent agentId s)) 0)
                    (or_Q (option_map AgentRegistry.averageTaskTime
                             (AgentRegistry.getAgent agentId s)) 0))
                 agentData)
              (AgentRegistry.agents s)) as Hagents.
  { subst s'.
    unfold exec, AgentRegistry.registerAgent, AgentRegistry.getAgent, bind,
      gets, modify, ret, when_truthy, AgentRegistry.spread. simpl.
    destruct (AgentRegistry.opt_socketId agentData) as [socket |];
      [destruct (truthy_string socket) |]; reflexivity. }
  unfold AgentRegistry.getAgent, AgentRegistry.getAgentCount, JSMap.size.
  rewrite Hagents. split; [apply JSMap_keys_set |]. split.
  - rewrite <- !(length_map fst). change (map fst) with (@JSMap.keys AgentRegistry.Agent).
    rewrite JSMap_keys_set.
    destruct (JSMap.get agentId (AgentRegistry.agents s)); [reflexivity |].
    rewrite length_app. simpl. lia.
  - intros other Hne. apply JSMap_get_set_other. congruence.
Qed.

Lemma registration_keeps_insertion_order_witness :
  JSMap.keys
    (AgentRegistry.agents
       (exec (AgentRegistry.registerAgent 9 "A1" (Fixture.agent_fields ["go"]))
          Fixture.two_react_agents))
  = ["A1"; "A2"]
  /\ AgentRegistry.getAgent "A2"
       (exec (AgentRegistry.registerAgent 9 "A1" (Fixture.agent_fields ["go"]))
          Fixture.two_react_agents)
     = AgentRegistry.getAgent "A2" Fixture.two_react_agents.
Proof.
  destruct (registration_keeps_insertion_order 9 "A1"
              (Fixture.agent_fields ["go"]) Fixture.two_react_agents)
    as (Hkeys & _ & Hothers).
  split.
  - exact Hkeys.
  - apply Hothers. discriminate.
Defined.

Lemma updateAgentStatus_agents (now : Z) (agentId : string)
  (status : AgentRegistry.Status) (currentTask : option string)
  (s : AgentRegistry.State) :
  AgentRegistry.agents
    (exec (AgentRegistry.updateAgentStatus now agentId status currentTask) s)
  = match AgentRegistry.getAgent agentId s with
    | Some agent =>
        JSMap.set agentId
          (if AgentRegistry.Status_eqb status AgentRegistry.offline
           then AgentRegistry.clear_socketId
                  (AgentRegistry.assign_status now status currentTask agent)
           else AgentRegistry.assign_status now status currentTask agent)
          (AgentRegistry.agents s)
    | None => AgentRegistry.agents s
    end.
Proof.
  unfold exec, AgentRegistry.updateAgentStatus, AgentRegistry.getAgent, bind,
    gets, modify, ret, throw, when_truthy.
  destruct (JSMap.get agentId (AgentRegistry.agents s)) as [agent |];
    [| reflexivity].
  destruct (AgentRegistry.Status_eqb status AgentRegistry.offline);
    [| reflexivity].
  destruct (AgentRegistry.socketId _) as [socket |];
    [destruct (truthy_string socket) |]; reflexivity.
Qed.

Lemma updateAgentPerformance_agents (agentId : string) (taskDuration : Z)
  (success : bool) (s : AgentRegistry.State) :
  AgentRegistry.agents
    (exec (AgentRegistry.updateAgentPerformance agentId taskDuration success)
       s)
  = match AgentRegistry.getAgent agentId s with
    | Some agent =>
        JSMap.set agentId
          (if success then AgentRegistry.record_success taskDuration agent
           else AgentRegistry.record_failure agent)
          (AgentRegistry.agents s)
    | None => AgentRegistry.agents s
    end.
Proof.
  unfold exec, AgentRegistry.updateAgentPerformance, AgentRegistry.getAgent,
    bind, gets, modify, ret.
  now destruct (JSMap.get agentId (AgentRegistry.agents s)).
Qed.

Lemma JSMap_set_known_keeps {V : Type} (k : string) (v v0 : V)
  (m : JSMap.t V) :
  JSMap.get k m = Some v0 ->
  JSMap.keys (JSMap.set k v m) = JSMap.keys m.
Proof. intros H. now rewrite JSMap_keys_set, H. Qed.

(** X3. A status update and a performance update never add, remove or
    reorder agents, and leave every agent but the one named untouched,
    whether the agent named is known or not. *)
Theorem updates_keep_the_agent_map_in_order :
  forall (s : AgentRegistry.State) (agentId : string),
    (forall now status currentTask,
        let s' :=
          exec (AgentRegistry.updateAgentStatus now agentId status
                  currentTask) s in
        JSMap.keys (AgentRegistry.agents s')
        = JSMap.keys (AgentRegistry.agents s)
        /\ forall other,
             other <> agentId ->
             AgentRegistry.getAgent other s' = AgentRegistry.getAgent other s)
    /\ (forall taskDuration success,
          let s' :=
            exec (AgentRegistry.updateAgentPerformance agentId taskDuration
                    success) s in
          JSMap.keys (AgentRegistry.agents s')
          = JSMap.keys (AgentRegistry.agents s)
          /\ forall other,
               other <> agentId ->
               AgentRegistry.getAgent other s'
               = AgentRegistry.getAgent other s).
Proof.
  intros s agentId. split.
  - intros now status currentTask s'. subst s'.
    unfold AgentRegistry.getAgent at 1.
    rewrite updateAgentStatus_agents.
    destruct (AgentRegistry.getAgent agentId s) as [agent |] eqn:Eget;
      (split; [| intros other Hne]); try reflexivity.
    + now apply JSMap_set_known_keeps with (v0 := agent).
    + apply JSMap_get_set_other. congruence.
  - intros taskDuration success s'. subst s'.
    unfold AgentRegistry.getAgent at 1.
    rewrite updateAgentPerformance_agents.
    destruct (AgentRegistry.getAgent agentId s) as [agent |] eqn:Eget;
      (split; [| intros other Hne]); try reflexivity.
    + now apply JSMap_set_known_keeps with (v0 := agent).
    + apply JSMap_get_set_other. congruence.
Qed.

Lemma updates_keep_the_agent_map_in_order_witness :
  JSMap.keys
    (AgentRegistry.agents
       (exec (AgentRegistry.updateAgentStatus 5 "A1" AgentRegistry.offline None)
          Fixture.two_react_agents))
  = ["A1"; "A2"]
  /\ AgentRegistry.getAgent "A2"
       (exec (AgentRegistry.updateAgentPerformance "A1" 10 true)
          Fixture.two_react_agents)
     = AgentRegistry.getAgent "A2" Fixture.two_react_agents.
Proof.
  destruct (updates_keep_the_agent_map_in_order Fixture.two_react_agents "A1")
    as [Hstatus Hperformance].
  split.
  - apply (Hstatus 5 AgentRegistry.offline None).
  - apply (Hperformance 10 true). discriminate.
Defined.

(** X4. An agent registered with a socket is found again through that
    socket, provided neither the socket id nor the agent id is the empty
    string. *)
Theorem registered_agent_is_found_by_socket :
  forall (now : Z) (agentId socket : string)
    (agentData : AgentRegistry.PartialAgent) (s : AgentRegistry.State),
    AgentRegistry.opt_socketId agentData = Some socket ->
    socket <> EmptyString ->
    agentId <> EmptyString ->
    exists agent s',
      AgentRegistry.registerAgent now agentId agentData s = (Return agent, s')
      /\ AgentRegistry.socketId agent = Some socket
      /\ AgentRegistry.getAgentBySocketId socket s' = Some agent.
Proof.
  intros now agentId socket agentData s Hsocket Hs Ha.
  assert (truthy_string socket = true) as Hts
      by (unfold truthy_string; apply negb_true_iff; now apply String.eqb_neq).
  assert (truthy_string agentId = true) as Hta
      by (unfold truthy_string; apply negb_true_iff; now apply String.eqb_neq).
  unfold AgentRegistry.registerAgent, AgentRegistry.getAgentBySocketId, bind,
    gets, modify, ret, when_truthy, AgentRegistry.spread. simpl.
  rewrite Hsocket, Hts. simpl. eexists. eexists.
  split; [reflexivity |]. split; [reflexivity |].
  unfold AgentRegistry.emit, AgentRegistry.set_socketToAgent,
    AgentRegistry.set_agents. simpl.
  rewrite JSMap_get_set_same, Hta. apply JSMap_get_set_same.
Qed.

Lemma registered_agent_is_found_by_socket_witness :
  exists agent s',
    AgentRegistry.registerAgent 1 "A1"
      (AgentRegistry.mkPartialAgent None None None None (Some "s1") None None
         None None None)
      AgentRegistry.init
    = (Return agent, s')
    /\ AgentRegistry.socketId agent = Some "s1"
    /\ AgentRegistry.getAgentBySocketId "s1" s' = Some agent.
Proof.
  apply registered_agent_is_found_by_socket; [reflexivity | |]; discriminate.
Defined.

(** X5. An empty agent id is stored but cannot be reached through its
    socket: [getAgentBySocketId] treats the empty id as no id. *)
Theorem empty_id_is_not_found_by_socket :
  forall (now : Z) (socket : string)
    (agentData : AgentRegistry.PartialAgent) (s : AgentRegistry.State),
    AgentRegistry.opt_socketId agentData = Some socket ->
    socket <> EmptyString ->
    let s' :=
      exec (AgentRegistry.registerAgent now EmptyString agentData) s in
    AgentRegistry.getAgent EmptyString s' <> None
    /\ AgentRegistry.getAgentBySocketId socket s' = None.
Proof.
  intros now socket agentData s Hsocket Hs.
  assert (truthy_string socket = true) as Hts
      by (unfold truthy_string; apply negb_true_iff; now apply String.eqb_neq).
  unfold exec, AgentRegistry.registerAgent, AgentRegistry.getAgentBySocketId,
    AgentRegistry.getAgent, bind, gets, modify, ret, when_truthy,
    AgentRegistry.spread. simpl.
  rewrite Hsocket, Hts. simpl.
  unfold AgentRegistry.emit, AgentRegistry.set_socketToAgent,
    AgentRegistry.set_agents. simpl.
  rewrite !JSMap_get_set_same. simpl.
  split; [discriminate | reflexivity].
Qed.

Lemma empty_id_is_not_found_by_socket_witness :
  AgentRegistry.getAgentBySocketId "s1"
    (exec (AgentRegistry.registerAgent 1 EmptyString
             (AgentRegistry.mkPartialAgent None None None None (Some "s1")
                None None None None None))
       AgentRegistry.init)
  = None.
Proof.
  apply (empty_id_is_not_found_by_socket 1 "s1"
           (AgentRegistry.mkPartialAgent None None None None (Some "s1") None
              None None None None) AgentRegistry.init);
    [reflexivity | discriminate].
Defined.

(** X6. Marking a known agent offline forgets its socket: the agent is
    stored offline with no socket id, and, the socket index holding each
    socket once, its former socket no longer leads to any agent. Every
    other socket leads where it led. *)
Theorem offline_agent_drops_its_socket :
  forall (now : Z) (agentId socket : string) (currentTask : option string)
    (s : AgentRegistry.State) (agent : AgentRegistry.Agent),
    AgentRegistry.getAgent agentId s = Some agent ->
    AgentRegistry.socketId agent = Some socket ->
    socket <> EmptyString ->
    unique_keys (AgentRegistry.socketToAgent s) ->
    let s' :=
      exec (AgentRegistry.updateAgentStatus now agentId AgentRegistry.offline
              currentTask) s in
    (exists agent',
        AgentRegistry.getAgent agentId s' = Some agent'
        /\ AgentRegistry.status agent' = AgentRegistry.offline
        /\ AgentRegistry.socketId agent' = None)
    /\ AgentRegistry.getAgentBySocketId socket s' = None
    /\ forall other,
         other <> socket ->
         JSMap.get other (AgentRegistry.socketToAgent s')
         = JSMap.get other (AgentRegistry.socketToAgent s).
Proof.
  intros now agentId socket currentTask s agent Hget Hsock Hs Huniq.
  assert (truthy_string socket = true) as Hts
      by (unfold truthy_string; apply negb_true_iff; now apply String.eqb_neq).
  unfold AgentRegistry.getAgent in Hget.
  unfold exec, AgentRegistry.updateAgentStatus,
    AgentRegistry.getAgentBySocketId, AgentRegistry.getAgent, bind, gets,
    modify, ret, when_truthy.
  rewrite Hget. simpl. rewrite Hsock, Hts. simpl.
  rewrite JSMap_get_set_same, JSMap_get_delete_same by exact Huniq.
  split; [eexists; repeat split |]. split; [reflexivity |].
  intros other Hne. apply JSMap_get_delete_other. congruence.
Qed.

Lemma offline_agent_drops_its_socket_witness :
  AgentRegistry.getAgentBySocketId "s1"
    (Fixture.registry_after [ Fixture.A1_registers 1000 ])
  <> None
  /\ AgentRegistry.getAgentBySocketId "s1"
       (exec (AgentRegistry.updateAgentStatus 2000 "A1" AgentRegistry.offline
                None)
          (Fixture.registry_after [ Fixture.A1_registers 1000 ]))
     = None.
Proof.
  split; [vm_compute; discriminate |].
  assert (AgentRegistry.getAgent "A1"
            (Fixture.registry_after [ Fixture.A1_registers 1000 ])
          = Some (AgentRegistry.mkAgent "A1" "A1" ["python"]
                    AgentRegistry.online (Some "s1") None 1000 1 0 0)) as Hget
      by (vm_compute; reflexivity).
  assert (unique_keys
            (AgentRegistry.socketToAgent
               (Fixture.registry_after [ Fixture.A1_registers 1000 ])))
    as Huniq.
  { vm_compute. repeat constructor. intros []. }
  apply (offline_agent_drops_its_socket 2000 "A1" "s1" None _ _ Hget eq_refl);
    [discriminate | exact Huniq].
Defined.

(** X7. A registration never removes an entry of the socket index: an
    agent that registers again from another socket is still reached
    through the old one, which now leads to the new record. *)
Theorem old_socket_survives_reregistration :
  forall (now : Z) (agentId old_socket new_socket : string)
    (agentData : AgentRegistry.PartialAgent) (s : AgentRegistry.State),
    JSMap.get old_socket (AgentRegistry.socketToAgent s) = Some agentId ->
    agentId <> EmptyString ->
    AgentRegistry.opt_socketId agentData = Some new_socket ->
    new_socket <> old_socket ->
    exists agent s',
      AgentRegistry.registerAgent now agentId agentData s = (Return agent, s')
      /\ AgentRegistry.socketId agent = Some new_socket
      /\ AgentRegistry.getAgentBySocketId old_socket s' = Some agent.
Proof.
  intros now agentId old_socket new_socket agentData s Hold Ha Hnew Hne.
  assert (truthy_string agentId = true) as Hta
      by (unfold truthy_string; apply negb_true_iff; now apply String.eqb_neq).
  unfold AgentRegistry.registerAgent, AgentRegistry.getAgentBySocketId, bind,
    gets, modify, ret, when_truthy, AgentRegistry.spread. simpl.
  rewrite Hnew.
  destruct (truthy_string new_socket); simpl; eexists; eexists;
    (split; [reflexivity |]); (split; [reflexivity |]);
    unfold AgentRegistry.emit, AgentRegistry.set_socketToAgent,
      AgentRegistry.set_agents; simpl;
    try rewrite JSMap_get_set_other by exact Hne;
    rewrite Hold, Hta; apply JSMap_get_set_same.
Qed.

Lemma old_socket_survives_reregistration_witness :
  exists agent s',
    AgentRegistry.registerAgent 2000 "A1"
      (AgentRegistry.mkPartialAgent None None None None (Some "s9") None None
         None None None)
      (Fixture.registry_after [ Fixture.A1_registers 1000 ])
    = (Return agent, s')
    /\ AgentRegistry.socketId agent = Some "s9"
    /\ AgentRegistry.getAgentBySocketId "s1" s' = Some agent.
Proof.
  apply old_socket_survives_reregistration;
    [vm_compute; reflexivity | discriminate | reflexivity | discriminate].
Defined.

(** A check that decides [agents_keyed_by_id] on a given registry. *)
Lemma agents_keyed_by_id_check (s : AgentRegistry.State) :
  forallb (fun entry => String.eqb (AgentRegistry.id (snd entry)) (fst entry))
    (AgentRegistry.agents s) = true ->
  agents_keyed_by_id s.
Proof.
  intros Hall key agent Hget. unfold AgentRegistry.getAgent in Hget.
  apply JSMap_get_In in Hget.
  rewrite forallb_forall in Hall. specialize (Hall _ Hget).
  now apply String.eqb_eq in Hall.
Qed.

(** ** The liveness sweep *)

Section Sweep.

Variable now : Z.

Let swept (agent : AgentRegistry.Agent) : AgentRegistry.Agent :=
  AgentRegistry.clear_socketId
    (AgentRegistry.assign_status now AgentRegistry.offline None agent).

Let body (key : string) : M AgentRegistry.State unit :=
  bind (gets (fun s => JSMap.get key (AgentRegistry.agents s)))
    (fun found =>
       match found with
       | Some agent =>
           if negb (AgentRegistry.Status_eqb (AgentRegistry.status agent)
                      AgentRegistry.offline)
              && Z.ltb (5 * 60 * 1000) (now - AgentRegistry.lastSeen agent)
           then AgentRegistry.updateAgentStatus now (AgentRegistry.id agent)
                  AgentRegistry.offline None
           else ret tt
       | None => ret tt
       end).

Lemma sweep_step (key : string) (s : AgentRegistry.State) :
  agents_keyed_by_id s ->
  exists s',
    body key s = (Return tt, s')
    /\ agents_keyed_by_id s'
    /\ forall k agent,
         AgentRegistry.getAgent k s = Some agent ->
         AgentRegistry.getAgent k s'
         = Some (if String.eqb k key && stale now agent then swept agent
                 else agent).
Proof.
  intros Hkeyed. unfold body, bind, gets.
  destruct (JSMap.get key (AgentRegistry.agents s)) as [agent |] eqn:Eget.
  - change (negb (AgentRegistry.Status_eqb (AgentRegistry.status agent)
                    AgentRegistry.offline)
            && Z.ltb (5 * 60 * 1000) (now - AgentRegistry.lastSeen agent))
      with (stale now agent).
    destruct (stale now agent) eqn:Estale.
    + assert (AgentRegistry.id agent = key) as Hid by now apply Hkeyed.
      rewrite Hid.
      destruct (updateAgentStatus_known now key AgentRegistry.offline None s
                  agent Eget) as (s' & agent' & Hrun & _).
      pose proof (updateAgentStatus_agents now key AgentRegistry.offline None
                    s) as Hagents.
      unfold exec in Hagents. rewrite Hrun in Hagents. simpl in Hagents.
      unfold AgentRegistry.getAgent in Hagents at 1. rewrite Eget in Hagents.
      simpl in Hagents. fold (swept agent) in Hagents.
      exists s'. split; [exact Hrun |]. split.
      * intros k a. unfold AgentRegistry.getAgent. rewrite Hagents.
        destruct (String.eqb key k) eqn:E.
        -- apply String.eqb_eq in E. subst k.
           rewrite JSMap_get_set_same. intros [= <-]. exact Hid.
        -- apply String.eqb_neq in E. rewrite JSMap_get_set_other by exact E.
           apply Hkeyed.
      * intros k a Hk. unfold AgentRegistry.getAgent in *. rewrite Hagents.
        destruct (String.eqb k key) eqn:E; simpl.
        -- apply String.eqb_eq in E. subst k. rewrite Eget in Hk.
           injection Hk as <-. rewrite Estale. apply JSMap_get_set_same.
        -- apply String.eqb_neq in E.
           rewrite JSMap_get_set_other by congruence. exact Hk.
    + exists s. split; [reflexivity |]. split; [exact Hkeyed |].
      intros k a Hk. destruct (String.eqb k key) eqn:E; simpl; [| exact Hk].
      apply String.eqb_eq in E. subst k.
      unfold AgentRegistry.getAgent in Hk. rewrite Eget in Hk.
      injection Hk as <-. now rewrite Estale.
  - exists s. split; [reflexivity |]. split; [exact Hkeyed |].
    intros k a Hk. destruct (String.eqb k key) eqn:E; simpl; [| exact Hk].
    apply String.eqb_eq in E. subst k.
    unfold AgentRegistry.getAgent in Hk. congruence.
Qed.

Lemma sweep_loop (keys : list string) :
  NoDup keys ->
  forall s,
    agents_keyed_by_id s ->
    exists s',
      for_of keys body s = (Return tt, s')
      /\ forall k agent,
           AgentRegistry.getAgent k s = Some agent ->
           AgentRegistry.getAgent k s'
           = Some (if includes keys k && stale now agent then swept agent
                   else agent).
Proof.
  induction 1 as [| key keys Hnotin Hnd IH]; intros s Hkeyed.
  - exists s. split; [reflexivity |]. intros k agent Hk. exact Hk.
  - destruct (sweep_step key s Hkeyed) as (s1 & Hrun1 & Hkeyed1 & Hstep).
    destruct (IH s1 Hkeyed1) as (s' & Hrun & Hrest).
    exists s'. split.
    + simpl. unfold bind. rewrite Hrun1. exact Hrun.
    + intros k agent Hk. specialize (Hstep k agent Hk).
      rewrite (Hrest k _ Hstep). unfold includes. simpl.
      fold (includes keys k).
      destruct (String.eqb k key) eqn:E; simpl.
      * apply String.eqb_eq in E. subst k.
        assert (includes keys key = false) as ->.
        { destruct (includes keys key) eqn:Ein; [| reflexivity].
          apply includes_In in Ein. contradiction. }
        simpl. now destruct (stale now agent).
      * reflexivity.
Qed.

End Sweep.

(** X8. The liveness sweep, on a registry that holds each agent once and
    under its own id: it returns normally, every agent that is not offline
    and was last seen more than five minutes ago is stored offline, with
    no socket id and its current task kept, and every other agent is left
    exactly as it was (five minutes to the millisecond is not stale). *)
Theorem health_check_marks_stale_agents_offline :
  forall (now : Z) (s : AgentRegistry.State),
    unique_keys (AgentRegistry.agents s) ->
    agents_keyed_by_id s ->
    exists s',
      AgentRegistry.performHealthCheck now s = (Return tt, s')
      /\ forall key agent,
           AgentRegistry.getAgent key s = Some agent ->
           exists agent',
             AgentRegistry.getAgent key s' = Some agent'
             /\ (stale now agent = true ->
                 AgentRegistry.status agent' = AgentRegistry.offline
                 /\ AgentRegistry.socketId agent' = None
                 /\ AgentRegistry.currentTask agent'
                    = AgentRegistry.currentTask agent)
             /\ (stale now agent = false -> agent' = agent)
             /\ (now - AgentRegistry.lastSeen agent <= 300000 ->
                 agent' = agent).
Proof.
  intros now s Huniq Hkeyed.
  destruct (sweep_loop now (JSMap.keys (AgentRegistry.agents s)) Huniq s
              Hkeyed) as (s' & Hrun & Hall).
  exists s'. split.
  - unfold AgentRegistry.performHealthCheck, bind, gets. exact Hrun.
  - intros key agent Hget. rewrite (Hall key agent Hget).
    assert (includes (JSMap.keys (AgentRegistry.agents s)) key = true) as ->.
    { apply includes_In.
      destruct (in_dec string_dec key (JSMap.keys (AgentRegistry.agents s)))
        as [Hin | Hout]; [exact Hin |].
      apply JSMap_get_none in Hout. unfold AgentRegistry.getAgent in Hget.
      congruence. }
    simpl. eexists. split; [reflexivity |].
    destruct (stale now agent) eqn:Estale.
    + split; [intros _; repeat split |]. split; [discriminate |].
      intros Hfresh. unfold stale in Estale.
      apply andb_prop in Estale as [_ Hlt]. apply Z.ltb_lt in Hlt. lia.
    + split; [discriminate |]. split; reflexivity.
Qed.

Lemma health_check_marks_stale_agents_offline_witness :
  exists s',
    AgentRegistry.performHealthCheck 400000 Fixture.two_react_agents
    = (Return tt, s')
    /\ option_map AgentRegistry.status (AgentRegistry.getAgent "A2" s')
       = Some AgentRegistry.offline.
Proof.
  assert (unique_keys (AgentRegistry.agents Fixture.two_react_agents))
    as Huniq.
  { vm_compute. repeat constructor; simpl; intuition discriminate. }
  assert (agents_keyed_by_id Fixture.two_react_agents) as Hkeyed
      by (apply agents_keyed_by_id_check; vm_compute; reflexivity).
  destruct (health_check_marks_stale_agents_offline 400000 _ Huniq Hkeyed)
    as (s' & Hrun & Hall).
  exists s'. split; [exact Hrun |].
  destruct (Hall "A2" Fixture.agent_A2) as (agent' & Hget & Hstale & _).
  - vm_compute. reflexivity.
  - rewrite Hget. simpl. f_equal. apply Hstale. vm_compute. reflexivity.
Defined.

(** ** Capability coverage *)

Lemma filter_length_all {A : Type} (p : A -> bool) (l : list A) :
  length (filter p l) = length l <-> forall x, In x l -> p x = true.
Proof.
  induction l as [| y ys IH]; simpl; [tauto |].
  pose proof (filter_length_le p ys) as Hle.
  destruct (p y) eqn:E; simpl.
  - split.
    + intros H x [<- | Hin]; [exact E |]. apply IH; [lia | exact Hin].
    + intros H. f_equal. apply IH. intros x Hx. apply H. now right.
  - split; [lia |]. intros H. specialize (H y (or_introl eq_refl)). congruence.
Qed.

Lemma filter_length_none {A : Type} (p : A -> bool) (l : list A) :
  length (filter p l) = 0%nat <-> forall x, In x l -> p x = false.
Proof.
  induction l as [| y ys IH]; simpl; [tauto |].
  destruct (p y) eqn:E; simpl.
  - split; [discriminate |]. intros H.
    specialize (H y (or_introl eq_refl)). congruence.
  - rewrite IH. split.
    + intros H x [<- | Hin]; auto.
    + intros H x Hx. apply H. now right.
Qed.

Lemma ratio_of_counts (m n : nat) :
  (0 < n)%nat -> (m <= n)%nat ->
  let q := (inject_Z (Z.of_nat m) / inject_Z (Z.of_nat n))%Q in
  (0 <= q /\ q <= 1)%Q /\ (q == 1 <-> m = n)%Q /\ (q == 0 <-> m = 0%nat)%Q.
Proof.
  intros Hn Hmn q.
  assert (0 < inject_Z (Z.of_nat n))%Q as Hpos.
  { change 0%Q with (inject_Z 0). rewrite <- Zlt_Qlt. lia. }
  assert (~ inject_Z (Z.of_nat n) == 0)%Q as Hnz.
  { intros H. rewrite H in Hpos. now apply Qlt_irrefl in Hpos. }
  assert (q * inject_Z (Z.of_nat n) == inject_Z (Z.of_nat m))%Q as Hq.
  { unfold q. now field. }
  assert (inject_Z (Z.of_nat m) <= inject_Z (Z.of_nat n))%Q as Hle
      by (rewrite <- Zle_Qle; lia).
  assert (0 <= inject_Z (Z.of_nat m))%Q as Hm0.
  { change 0%Q with (inject_Z 0). rewrite <- Zle_Qle. lia. }
  assert (0 <= q /\ q <= 1)%Q as Hrange.
  { unfold q. split.
    - apply Qle_shift_div_l; [exact Hpos | lra].
    - apply Qle_shift_div_r; [exact Hpos | lra]. }
  assert (m = n -> q == 1)%Q as Hone by (intros ->; unfold q; now field).
  assert (m = 0%nat -> q == 0)%Q as Hzero
      by (intros ->; unfold q; simpl; now field).
  clearbody q.
  split; [exact Hrange |]. split; split; auto.
  - intros H1. rewrite H1, Qmult_1_l in Hq.
    unfold Qeq in Hq. simpl in Hq. lia.
  - intros H0. rewrite H0, Qmult_0_l in Hq.
    unfold Qeq in Hq. simpl in Hq. lia.
Qed.

(** X9. The capability score lies within [0, 1]; with something required
    it is 1 exactly when the agent offers every required tag and 0 exactly
    when it offers none of them; with nothing required it is 1. *)
Theorem capability_match_is_a_coverage :
  forall (agent : AgentRegistry.Agent) (required : list string),
    let score := AgentRegistry.calculateCapabilityMatch agent required in
    (0 <= score /\ score <= 1)%Q
    /\ (required = [] -> score = 1%Q)
    /\ ((score == 1)%Q
        <-> forall tag,
              In tag required -> In tag (AgentRegistry.capabilities agent))
    /\ (required <> [] ->
        ((score == 0)%Q
         <-> forall tag,
               In tag required ->
               ~ In tag (AgentRegistry.capabilities agent))).
Proof.
  intros agent required score. subst score.
  unfold AgentRegistry.calculateCapabilityMatch.
  destruct required as [| r rs].
  - simpl. split; [split; lra |]. split; [reflexivity |].
    split; [split; [intros _ tag [] | reflexivity] |]. congruence.
  - set (required := r :: rs).
    change (Nat.eqb (length required) 0) with false. cbv iota.
    destruct (ratio_of_counts
                (length (filter (includes (AgentRegistry.capabilities agent))
                           required))
                (length required))
      as (Hrange & Hone & Hzero);
      [simpl; lia | apply filter_length_le |].
    split; [exact Hrange |]. split; [discriminate |]. split.
    + rewrite Hone, filter_length_all. split.
      * intros H tag Hin. apply includes_In. now apply H.
      * intros H tag Hin. apply includes_In. now apply H.
    + intros _. rewrite Hzero, filter_length_none. split.
      * intros H tag Hin Hhas. apply includes_In in Hhas.
        rewrite (H tag Hin) in Hhas. discriminate.
      * intros H tag Hin.
        destruct (includes (AgentRegistry.capabilities agent) tag) eqn:E;
          [| reflexivity].
        apply includes_In in E. destruct (H tag Hin E).
Qed.

Lemma capability_match_is_a_coverage_witness :
  (AgentRegistry.calculateCapabilityMatch Fixture.agent_A2
     ["react"; "typescript"] == 1)%Q
  /\ AgentRegistry.calculateCapabilityMatch Fixture.agent_A2 [] = 1%Q.
Proof.
  destruct (capability_match_is_a_coverage Fixture.agent_A2
              ["react"; "typescript"]) as (_ & _ & Hone & _).
  destruct (capability_match_is_a_coverage Fixture.agent_A2 [])
    as (_ & Hempty & _).
  split.
  - apply Hone. simpl. intuition.
  - apply Hempty. reflexivity.
Defined.

(** ** Assignment: refusals, successes and the half-done case *)

(** X10. [assignOptimalAgent] refuses an unknown task and a task that is
    not pending by throwing, and changes nothing when it does. *)
Theorem assign_optimal_refuses_without_effect :
  forall (now : Z) (taskId : string) (s : TaskCoordinator.State),
    (TaskCoordinator.getTask taskId s = None ->
     TaskCoordinator.assignOptimalAgent now taskId s
     = (Throw ("Task " ++ taskId ++ " not found"), s))
    /\ (forall task,
          TaskCoordinator.getTask taskId s = Some task ->
          TaskCoordinator.status task <> TaskCoordinator.pending ->
          exists message,
            TaskCoordinator.assignOptimalAgent now taskId s
            = (Throw message, s)).
Proof.
  intros now taskId s.
  unfold TaskCoordinator.getTask, TaskCoordinator.assignOptimalAgent, bind,
    gets, throw.
  split.
  - intros ->. reflexivity.
  - intros task -> Hsettled.
    destruct (TaskCoordinator.status task); try (eexists; reflexivity).
    now destruct Hsettled.
Qed.

Lemma assign_optimal_refuses_without_effect_witness :
  TaskCoordinator.assignOptimalAgent 9 "T7" TaskCoordinator.init
  = (Throw "Task T7 not found", TaskCoordinator.init)
  /\ exists message,
       TaskCoordinator.assignOptimalAgent 9 "T1"
         (Fixture.coordinator_after Fixture.T1_assigned_T2_waiting)
       = (Throw message,
          Fixture.coordinator_after Fixture.T1_assigned_T2_waiting).
Proof.
  split.
  - apply (assign_optimal_refuses_without_effect 9 "T7" TaskCoordinator.init).
    reflexivity.
  - apply (proj2 (assign_optimal_refuses_without_effect 9 "T1" _))
      with (task := Fixture.T1_assigned);
      [vm_compute; reflexivity | discriminate].
Defined.

(** X11. With no agent online and idle, [assignOptimalAgent] on a pending
    task returns none without throwing and changes nothing: the task
    stays pending, no assignment is recorded, no event is emitted. *)
Theorem assign_optimal_without_agents_is_a_noop :
  forall (now : Z) (taskId : string) (s : TaskCoordinator.State)
    (task : TaskCoordinator.Task),
    TaskCoordinator.getTask taskId s = Some task ->
    TaskCoordinator.status task = TaskCoordinator.pending ->
    AgentRegistry.getAvailableAgents (TaskCoordinator.agentRegistry s) = [] ->
    TaskCoordinator.assignOptimalAgent now taskId s = (Return None, s).
Proof.
  intros now taskId s task Hget Hpending Hnone.
  unfold TaskCoordinator.getTask in Hget.
  unfold TaskCoordinator.assignOptimalAgent, bind, gets, ret.
  rewrite Hget, Hpending. simpl.
  destruct (Nat.ltb 0 _); [reflexivity |].
  assert (AgentRegistry.getOptimalAgent
            (TaskCoordinator.requiredCapabilities task)
            (TaskCoordinator.agentRegistry s) = None) as ->
      by now apply getOptimalAgent_none.
  reflexivity.
Qed.

Lemma assign_optimal_without_agents_is_a_noop_witness :
  let s :=
    exec (TaskCoordinator.createTask 5 "T1" Fixture.no_fields)
      TaskCoordinator.init in
  TaskCoordinator.assignOptimalAgent 6 "T1" s = (Return None, s).
Proof.
  apply assign_optimal_without_agents_is_a_noop
    with (task :=
            TaskCoordinator.mkTask "T1" "Untitled task" []
              TaskCoordinator.medium TaskCoordinator.pending None [] 0 None 5
              None None);
    reflexivity.
Defined.

(** What [assignOptimalAgent] does once an agent is selected, in terms of
    what the registry answers to the status update. *)
Lemma assignOptimalAgent_selected (now : Z) (taskId : string)
  (s : TaskCoordinator.State) (task : TaskCoordinator.Task)
  (best : AgentRegistry.Agent) :
  TaskCoordinator.getTask taskId s = Some task ->
  TaskCoordinator.status task = TaskCoordinator.pending ->
  dependencies_completed s task ->
  AgentRegistry.getOptimalAgent (TaskCoordinator.requiredCapabilities task)
    (TaskCoordinator.agentRegistry s) = Some best ->
  let task' :=
    TaskCoordinator.with_assignedAgent (Some (AgentRegistry.id best))
      (TaskCoordinator.with_status TaskCoordinator.assigned task) in
  let assignment :=
    TaskCoordinator.mkTaskAssignment (TaskCoordinator.id task)
      (AgentRegistry.id best) now
      ("Optimal match for capabilities: "
       ++ String.concat ", " (TaskCoordinator.requiredCapabilities task)) in
  TaskCoordinator.assignOptimalAgent now taskId s
  = match AgentRegistry.updateAgentStatus now (AgentRegistry.id best)
            AgentRegistry.busy (Some (TaskCoordinator.id task))
            (TaskCoordinator.agentRegistry s) with
    | (Return _, registry') =>
        (Return (Some assignment),
         TaskCoordinator.mkState
           (JSMap.set taskId task' (TaskCoordinator.tasks s))
           (JSMap.set (TaskCoordinator.id task) assignment
              (TaskCoordinator.assignments s))
           registry'
           (TaskCoordinator.emitted s
            ++ [TaskCoordinator.task_assigned task' assignment]))
    | (Throw message, registry') =>
        (Throw message,
         TaskCoordinator.mkState
           (JSMap.set taskId task' (TaskCoordinator.tasks s))
           (TaskCoordinator.assignments s)
           registry'
           (TaskCoordinator.emitted s))
    end.
Proof.
  intros Hget Hpending Hdeps Hbest task' assignment.
  unfold TaskCoordinator.getTask in Hget.
  unfold TaskCoordinator.assignOptimalAgent, bind, gets, modify, ret.
  rewrite Hget, Hpending. simpl.
  apply checkDependencies_nil_iff in Hdeps. rewrite Hdeps. simpl.
  rewrite Hbest. unfold TaskCoordinator.registry. simpl.
  destruct (AgentRegistry.updateAgentStatus _ _ _ _ _) as [[[] | e] reg];
    reflexivity.
Qed.

(** X12. A pending task whose dependencies are all completed is assigned
    as soon as the registry selects an agent that it holds under the
    agent's own id: the call returns the assignment (task id, agent id,
    time), the task is stored as assigned to that agent, the agent is
    stored busy with the task as current task, the assignment is recorded
    under the task id and one [task_assigned] event is emitted. *)
Theorem assign_optimal_assigns_the_selected_agent :
  forall (now : Z) (taskId : string) (s : TaskCoordinator.State)
    (task : TaskCoordinator.Task) (best : AgentRegistry.Agent),
    TaskCoordinator.getTask taskId s = Some task ->
    TaskCoordinator.status task = TaskCoordinator.pending ->
    dependencies_completed s task ->
    AgentRegistry.getOptimalAgent (TaskCoordinator.requiredCapabilities task)
      (TaskCoordinator.agentRegistry s) = Some best ->
    AgentRegistry.getAgent (AgentRegistry.id best)
      (TaskCoordinator.agentRegistry s) = Some best ->
    exists assignment s' task' agent',
      TaskCoordinator.assignOptimalAgent now taskId s
      = (Return (Some assignment), s')
      /\ TaskCoordinator.taskId assignment = TaskCoordinator.id task
      /\ TaskCoordinator.agentId assignment = AgentRegistry.id best
      /\ TaskCoordinator.assignedAt assignment = now
      /\ TaskCoordinator.getTask taskId s' = Some task'
      /\ TaskCoordinator.status task' = TaskCoordinator.assigned
      /\ TaskCoordinator.assignedAgent task' = Some (AgentRegistry.id best)
      /\ AgentRegistry.getAgent (AgentRegistry.id best)
           (TaskCoordinator.agentRegistry s') = Some agent'
      /\ AgentRegistry.status agent' = AgentRegistry.busy
      /\ AgentRegistry.currentTask agent' = Some (TaskCoordinator.id task)
      /\ JSMap.get (TaskCoordinator.id task) (TaskCoordinator.assignments s')
         = Some assignment
      /\ TaskCoordinator.emitted s'
         = (TaskCoordinator.emitted s
            ++ [TaskCoordinator.task_assigned task' assignment])%list.
Proof.
  intros now taskId s task best Hget Hpending Hdeps Hbest Hstored.
  rewrite (assignOptimalAgent_selected now taskId s task best Hget Hpending
             Hdeps Hbest).
  destruct (updateAgentStatus_known now (AgentRegistry.id best)
              AgentRegistry.busy (Some (TaskCoordinator.id task)) _ best
              Hstored) as (reg & agent' & Hrun & Hagent & Hbusy & Hcurrent).
  rewrite Hrun. eexists. eexists. eexists. exists agent'.
  split; [reflexivity |]. simpl.
  unfold TaskCoordinator.getTask. simpl. rewrite !JSMap_get_set_same.
  repeat split; assumption.
Qed.

Lemma assign_optimal_assigns_the_selected_agent_witness :
  exists assignment s',
    TaskCoordinator.assignOptimalAgent 2600 "T9" Fixture.T9_created
    = (Return (Some assignment), s')
    /\ TaskCoordinator.agentId assignment = "A1"
    /\ JSMap.get "T9" (TaskCoordinator.assignments s') = Some assignment.
Proof.
  destruct (assign_optimal_assigns_the_selected_agent 2600 "T9"
              Fixture.T9_created
              (TaskCoordinator.mkTask "T9" "T9" ["python"]
                 TaskCoordinator.medium TaskCoordinator.pending None [] 0
                 None 2500 None None)
              (AgentRegistry.mkAgent "A1" "A1" ["python"] AgentRegistry.online
                 (Some "s1") None 1000 1 0 0))
    as (assignment & s' & task' & agent' & Hrun & _ & Hagent & _ & _ & _ & _
        & _ & _ & _ & Hrecorded & _).
  - vm_compute. reflexivity.
  - reflexivity.
  - intros depId [].
  - vm_compute. reflexivity.
  - vm_compute. reflexivity.
  - exists assignment, s'. repeat split; assumption.
Defined.

(** X13. When the selected agent is not stored under its own id (a
    registration whose record carries another id), [assignOptimalAgent]
    throws "Agent ... not found" half way: the task is already stored as
    assigned to that id, while the registry, the assignment records and
    the emitted events are as before. *)
Theorem assign_optimal_throws_half_way :
  forall (now : Z) (taskId : string) (s : TaskCoordinator.State)
    (task : TaskCoordinator.Task) (best : AgentRegistry.Agent),
    TaskCoordinator.getTask taskId s = Some task ->
    TaskCoordinator.status task = TaskCoordinator.pending ->
    dependencies_completed s task ->
    AgentRegistry.getOptimalAgent (TaskCoordinator.requiredCapabilities task)
      (TaskCoordinator.agentRegistry s) = Some best ->
    AgentRegistry.getAgent (AgentRegistry.id best)
      (TaskCoordinator.agentRegistry s) = None ->
    exists s' task',
      TaskCoordinator.assignOptimalAgent now taskId s
      = (Throw ("Agent " ++ AgentRegistry.id best ++ " not found"), s')
      /\ TaskCoordinator.getTask taskId s' = Some task'
      /\ TaskCoordinator.status task' = TaskCoordinator.assigned
      /\ TaskCoordinator.assignedAgent task' = Some (AgentRegistry.id best)
      /\ TaskCoordinator.agentRegistry s' = TaskCoordinator.agentRegistry s
      /\ TaskCoordinator.assignments s' = TaskCoordinator.assignments s
      /\ TaskCoordinator.emitted s' = TaskCoordinator.emitted s.
Proof.
  intros now taskId s task best Hget Hpending Hdeps Hbest Hmissing.
  rewrite (assignOptimalAgent_selected now taskId s task best Hget Hpending
             Hdeps Hbest).
  rewrite (updateAgentStatus_unknown _ _ Hmissing).
  eexists. eexists. split; [reflexivity |].
  unfold TaskCoordinator.getTask. simpl. rewrite JSMap_get_set_same.
  repeat split.
Qed.

Lemma assign_optimal_throws_half_way_witness :
  exists s' task',
    TaskCoordinator.assignOptimalAgent 30 "T1" Fixture.misfiled_agent_and_T1
    = (Throw "Agent ghost not found", s')
    /\ TaskCoordinator.getTask "T1" s' = Some task'
    /\ TaskCoordinator.status task' = TaskCoordinator.assigned
    /\ TaskCoordinator.assignedAgent task' = Some "ghost".
Proof.
  destruct (assign_optimal_throws_half_way 30 "T1"
              Fixture.misfiled_agent_and_T1
              (TaskCoordinator.mkTask "T1" "Untitled task" []
                 TaskCoordinator.medium TaskCoordinator.pending None [] 0
                 None 20 None None)
              (AgentRegistry.mkAgent "ghost" "k1" [] AgentRegistry.online None
                 None 10 1 0 0))
    as (s' & task' & Hrun & Htask & Hst & Hnames & _).
  - vm_compute. reflexivity.
  - reflexivity.
  - intros depId [].
  - vm_compute. reflexivity.
  - vm_compute. reflexivity.
  - exists s', task'. repeat split; assumption.
Defined.

(** ** Progress updates and the registry *)

(** Reduce the state updates and the field accesses, nothing else. *)
Ltac project :=
  cbn [fst snd
       AgentRegistry.agents AgentRegistry.socketToAgent AgentRegistry.emitted
       AgentRegistry.emit AgentRegistry.set_agents
       AgentRegistry.set_socketToAgent
       TaskCoordinator.tasks TaskCoordinator.assignments
       TaskCoordinator.agentRegistry TaskCoordinator.emitted
       TaskCoordinator.emit TaskCoordinator.set_tasks
       TaskCoordinator.set_assignments].

Lemma apply_update_assignedAgent (now : Z) (update : TaskCoordinator.Update)
  (task : TaskCoordinator.Task) :
  TaskCoordinator.assignedAgent (TaskCoordinator.apply_update now update task)
  = TaskCoordinator.assignedAgent task
  /\ TaskCoordinator.id (TaskCoordinator.apply_update now update task)
     = TaskCoordinator.id task
  /\ TaskCoordinator.dependencies
       (TaskCoordinator.apply_update now update task)
     = TaskCoordinator.dependencies task.
Proof.
  unfold TaskCoordinator.apply_update.
  destruct (TaskCoordinator.upd_progress update);
    destruct (TaskCoordinator.upd_status update) as [[] |]; simpl;
    try (repeat split; reflexivity);
    destruct (TaskCoordinator.startedAt task); repeat split; reflexivity.
Qed.

(** X14. Reporting a task failed, when the task names a registered agent:
    the call returns, the task is stored failed with [completedAt] set to
    the time of the call, and the agent is stored online with its score
    scaled by 0.8 (not below 0.1), its completed count and its current
    task as they were; no pending task is looked at and no assignment
    record changes. *)
Theorem failed_task_lowers_the_agent_score :
  forall (now : Z) (taskId agentId : string)
    (update : TaskCoordinator.Update) (s : TaskCoordinator.State)
    (task : TaskCoordinator.Task) (agent : AgentRegistry.Agent),
    TaskCoordinator.getTask taskId s = Some task ->
    TaskCoordinator.upd_status update = Some TaskCoordinator.failed ->
    TaskCoordinator.assignedAgent task = Some agentId ->
    agentId <> EmptyString ->
    AgentRegistry.getAgent agentId (TaskCoordinator.agentRegistry s)
    = Some agent ->
    exists s' task' agent',
      TaskCoordinator.updateTaskProgress now taskId update s = (Return tt, s')
      /\ TaskCoordinator.getTask taskId s' = Some task'
      /\ TaskCoordinator.status task' = TaskCoordinator.failed
      /\ TaskCoordinator.completedAt task' = Some now
      /\ AgentRegistry.getAgent agentId (TaskCoordinator.agentRegistry s')
         = Some agent'
      /\ AgentRegistry.status agent' = AgentRegistry.online
      /\ AgentRegistry.performanceScore agent'
         = Qmax (1 # 10) (AgentRegistry.performanceScore agent * (8 # 10))
      /\ AgentRegistry.tasksCompleted agent'
         = AgentRegistry.tasksCompleted agent
      /\ AgentRegistry.currentTask agent' = AgentRegistry.currentTask agent
      /\ TaskCoordinator.assignments s' = TaskCoordinator.assignments s
      /\ forall other,
           other <> taskId ->
           TaskCoordinator.getTask other s'
           = TaskCoordinator.getTask other s.
Proof.
  intros now taskId agentId update s task agent Hget Hfailed Hnamed Ha Hagent.
  assert (truthy_string agentId = true) as Hta
      by (unfold truthy_string; apply negb_true_iff; now apply String.eqb_neq).
  unfold TaskCoordinator.getTask, AgentRegistry.getAgent in *.
  pose proof (apply_update_status now update task) as Hstatus.
  rewrite Hfailed in Hstatus. simpl in Hstatus.
  destruct (apply_update_assignedAgent now update task) as (Hsame & _ & _).
  assert (TaskCoordinator.completedAt
            (TaskCoordinator.apply_update now update task) = Some now)
    as Hdone.
  { unfold TaskCoordinator.apply_update. rewrite Hfailed.
    now destruct (TaskCoordinator.upd_progress update). }
  unfold TaskCoordinator.updateTaskProgress, bind, gets, modify, ret.
  rewrite Hget, Hfailed. project.
  unfold TaskCoordinator.handleTaskFailure, when_truthy.
  rewrite Hsame, Hnamed, Hta.
  unfold bind, TaskCoordinator.registry,
    AgentRegistry.updateAgentPerformance, AgentRegistry.updateAgentStatus,
    bind, gets, modify, ret. project.
  rewrite Hagent. project. rewrite JSMap_get_set_same.
  cbn [AgentRegistry.Status_eqb]. project.
  rewrite Hstatus.
  replace (negb (TaskCoordinator.Status_eqb (TaskCoordinator.status task)
                   TaskCoordinator.completed)
           && TaskCoordinator.Status_eqb TaskCoordinator.failed
                TaskCoordinator.completed) with false
    by (now rewrite andb_false_r).
  eexists. eexists. eexists. split; [reflexivity |]. project.
  rewrite !JSMap_get_set_same.
  split; [reflexivity |]. split; [exact Hstatus |]. split; [exact Hdone |].
  split; [reflexivity |]. simpl. repeat split.
  intros other Hne. apply JSMap_get_set_other. congruence.
Qed.

Lemma failed_task_lowers_the_agent_score_witness :
  exists s' agent',
    TaskCoordinator.updateTaskProgress 4000 "T1"
      (Fixture.only_status TaskCoordinator.failed)
      (Fixture.coordinator_after Fixture.T1_assigned_T2_waiting)
    = (Return tt, s')
    /\ AgentRegistry.getAgent "A1" (TaskCoordinator.agentRegistry s')
       = Some agent'
    /\ (AgentRegistry.performanceScore agent' == 8 # 10)%Q.
Proof.
  destruct (failed_task_lowers_the_agent_score 4000 "T1" "A1"
              (Fixture.only_status TaskCoordinator.failed)
              (Fixture.coordinator_after Fixture.T1_assigned_T2_waiting)
              Fixture.T1_assigned
              (AgentRegistry.mkAgent "A1" "A1" ["python"] AgentRegistry.busy
                 (Some "s1") (Some "T1") 2000 1 0 0))
    as (s' & task' & agent' & Hrun & _ & _ & _ & Hagent & _ & Hscore & _).
  - vm_compute. reflexivity.
  - reflexivity.
  - reflexivity.
  - discriminate.
  - vm_compute. reflexivity.
  - exists s', agent'. split; [exact Hrun |]. split; [exact Hagent |].
    rewrite Hscore. vm_compute. reflexivity.
Defined.

(** X15. A progress update that carries no status, or a status other than
    completed and failed, only rewrites the task: it returns, leaves the
    registry, the assignment records and every other task as they are and
    emits one [task_progress_updated] event. [startedAt] is set by the
    first update to in_progress and kept by every later one. *)
Theorem plain_update_touches_only_the_task :
  forall (now : Z) (taskId : string) (update : TaskCoordinator.Update)
    (s : TaskCoordinator.State) (task : TaskCoordinator.Task),
    TaskCoordinator.getTask taskId s = Some task ->
    TaskCoordinator.upd_status update <> Some TaskCoordinator.completed ->
    TaskCoordinator.upd_status update <> Some TaskCoordinator.failed ->
    exists s' task',
      TaskCoordinator.updateTaskProgress now taskId update s = (Return tt, s')
      /\ TaskCoordinator.getTask taskId s' = Some task'
      /\ TaskCoordinator.startedAt task'
         = match TaskCoordinator.startedAt task,
                 TaskCoordinator.upd_status update with
           | Some started, _ => Some started
           | None, Some TaskCoordinator.in_progress => Some now
           | None, _ => None
           end
      /\ TaskCoordinator.agentRegistry s' = TaskCoordinator.agentRegistry s
      /\ TaskCoordinator.assignments s' = TaskCoordinator.assignments s
      /\ TaskCoordinator.emitted s'
         = (TaskCoordinator.emitted s
            ++ [TaskCoordinator.task_progress_updated task' update])%list
      /\ forall other,
           other <> taskId ->
           TaskCoordinator.getTask other s'
           = TaskCoordinator.getTask other s.
Proof.
  intros now taskId update s task Hget Hnc Hnf.
  unfold TaskCoordinator.getTask in *.
  pose proof (apply_update_status now update task) as Hstatus.
  assert (TaskCoordinator.startedAt
            (TaskCoordinator.apply_update now update task)
          = match TaskCoordinator.startedAt task,
                  TaskCoordinator.upd_status update with
            | Some started, _ => Some started
            | None, Some TaskCoordinator.in_progress => Some now
            | None, _ => None
            end) as Hstarted.
  { unfold TaskCoordinator.apply_update.
    destruct (TaskCoordinator.upd_progress update);
      destruct (TaskCoordinator.upd_status update) as [[] |]; simpl;
      destruct (TaskCoordinator.startedAt task) eqn:E; simpl;
      try rewrite E; reflexivity. }
  unfold TaskCoordinator.updateTaskProgress, bind, gets, modify, ret.
  rewrite Hget. project.
  assert (negb (TaskCoordinator.Status_eqb (TaskCoordinator.status task)
                  TaskCoordinator.completed)
          && TaskCoordinator.Status_eqb
               (TaskCoordinator.status
                  (TaskCoordinator.apply_update now update task))
               TaskCoordinator.completed = false) as Hquiet.
  { rewrite Hstatus.
    destruct (TaskCoordinator.upd_status update) as [[] |]; simpl;
      try apply andb_false_r; try congruence.
    now destruct (TaskCoordinator.status task). }
  destruct (TaskCoordinator.upd_status update) as [[] |] eqn:Este;
    try congruence; project; rewrite Hquiet;
    eexists; eexists; (split; [reflexivity |]); project;
    rewrite JSMap_get_set_same;
    (split; [reflexivity |]); (split; [exact Hstarted |]);
    repeat split; intros other Hne; apply JSMap_get_set_other; congruence.
Qed.

Lemma plain_update_touches_only_the_task_witness :
  exists s' task',
    TaskCoordinator.updateTaskProgress 4000 "T1"
      (Fixture.only_status TaskCoordinator.in_progress)
      (Fixture.coordinator_after Fixture.T1_assigned_T2_waiting)
    = (Return tt, s')
    /\ TaskCoordinator.getTask "T1" s' = Some task'
    /\ TaskCoordinator.startedAt task' = Some 4000
    /\ TaskCoordinator.agentRegistry s'
       = TaskCoordinator.agentRegistry
           (Fixture.coordinator_after Fixture.T1_assigned_T2_waiting).
Proof.
  destruct (plain_update_touches_only_the_task 4000 "T1"
              (Fixture.only_status TaskCoordinator.in_progress)
              (Fixture.coordinator_after Fixture.T1_assigned_T2_waiting)
              Fixture.T1_assigned)
    as (s' & task' & Hrun & Htask & Hstarted & Hregistry & _).
  - vm_compute. reflexivity.
  - discriminate.
  - discriminate.
  - exists s', task'. repeat split; assumption.
Defined.

(** ** The pass over the pending tasks *)

Lemma for_of_try_catch_returns {S A B : Type} (xs : list A)
  (body : A -> M S B) (s : S) :
  result (for_of xs (fun x => try_catch (body x))) s = Return tt.
Proof.
  revert s. induction xs as [| x xs IH]; intros s; [reflexivity |].
  unfold result in *. simpl. unfold bind, try_catch at 1. apply IH.
Qed.

(** X16. [processPendingTasks] always returns, whatever the individual
    assignments do, and every task that is not pending when the pass
    starts is the same afterwards. *)
Theorem pending_pass_always_returns :
  forall (now : Z) (s : TaskCoordinator.State),
    result (TaskCoordinator.processPendingTasks now) s = Return tt
    /\ forall key task,
         TaskCoordinator.getTask key s = Some task ->
         TaskCoordinator.status task <> TaskCoordinator.pending ->
         TaskCoordinator.getTask key
           (exec (TaskCoordinator.processPendingTasks now) s)
         = Some task.
Proof.
  intros now s. split.
  - unfold result, TaskCoordinator.processPendingTasks, bind, gets.
    apply (for_of_try_catch_returns _
             (fun task =>
                TaskCoordinator.assignOptimalAgent now
                  (TaskCoordinator.id task))).
  - intros key task Hget Hsettled.
    now apply (processPendingTasks_keeps_settled now key task Hsettled).
Qed.

Lemma pending_pass_always_returns_witness :
  result (TaskCoordinator.processPendingTasks 50)
    Fixture.misfiled_agent_and_T1 = Return tt
  /\ TaskCoordinator.getTask "T1"
       (exec (TaskCoordinator.processPendingTasks 5000)
          (Fixture.coordinator_after Fixture.T1_assigned_T2_waiting))
     = Some Fixture.T1_assigned.
Proof.
  split.
  - apply (pending_pass_always_returns 50 Fixture.misfiled_agent_and_T1).
  - apply (pending_pass_always_returns 5000
             (Fixture.coordinator_after Fixture.T1_assigned_T2_waiting));
      [vm_compute; reflexivity | discriminate].
Defined.

(** ** Every record under its own id *)

Lemma JSMap_set_unique {V : Type} (k : string) (v : V) (m : JSMap.t V) :
  unique_keys m -> unique_keys (JSMap.set k v m).
Proof.
  unfold unique_keys. intros Hnd. rewrite JSMap_keys_set.
  destruct (JSMap.get k m) eqn:Eget; [exact Hnd |].
  apply JSMap_get_none in Eget.
  apply NoDup_app; [exact Hnd | repeat constructor; intros [] |].
  intros x Hx [<- | []]. contradiction.
Qed.

Lemma JSMap_In_get {V : Type} (k : string) (v : V) (m : JSMap.t V) :
  unique_keys m -> In (k, v) m -> JSMap.get k m = Some v.
Proof.
  unfold unique_keys.
  induction m as [| [k' v'] m IH]; simpl; intros Hnd Hin; [destruct Hin |].
  inversion Hnd as [| ? ? Hnotin Hnd']; subst.
  destruct Hin as [[= -> ->] | Hin].
  - now rewrite String.eqb_refl.
  - destruct (String.eqb k k') eqn:E; [| now apply IH].
    apply String.eqb_eq in E. subst k'. exfalso. apply Hnotin.
    change k with (fst (k, v)). now apply in_map.
Qed.

Lemma set_agent_well_keyed (key : string) (agent : AgentRegistry.Agent)
  (reg : AgentRegistry.State) (m : JSMap.t AgentRegistry.Agent) :
  registry_well_keyed reg ->
  AgentRegistry.id agent = key ->
  m = JSMap.set key agent (AgentRegistry.agents reg) ->
  unique_keys m /\ (forall k a, JSMap.get k m = Some a -> AgentRegistry.id a = k).
Proof.
  intros [Huniq Hkeyed] Hid ->. split; [now apply JSMap_set_unique |].
  intros k a. destruct (String.eqb key k) eqn:E.
  - apply String.eqb_eq in E. subst k. rewrite JSMap_get_set_same.
    now intros [= <-].
  - apply String.eqb_neq in E. rewrite JSMap_get_set_other by exact E.
    apply Hkeyed.
Qed.

Lemma updateAgentStatus_well_keyed (now : Z) (agentId : string)
  (status : AgentRegistry.Status) (currentTask : option string) :
  preserves registry_well_keyed
    (AgentRegistry.updateAgentStatus now agentId status currentTask).
Proof.
  intros reg Hwk. unfold registry_well_keyed, agents_keyed_by_id,
    AgentRegistry.getAgent.
  rewrite updateAgentStatus_agents.
  destruct (AgentRegistry.getAgent agentId reg) as [agent |] eqn:Eget;
    [| exact Hwk].
  eapply set_agent_well_keyed; [exact Hwk | | reflexivity].
  destruct Hwk as [_ Hkeyed]. specialize (Hkeyed _ _ Eget).
  now destruct (AgentRegistry.Status_eqb status AgentRegistry.offline).
Qed.

Lemma updateAgentPerformance_well_keyed (agentId : string) (taskDuration : Z)
  (success : bool) :
  preserves registry_well_keyed
    (AgentRegistry.updateAgentPerformance agentId taskDuration success).
Proof.
  intros reg Hwk. unfold registry_well_keyed, agents_keyed_by_id,
    AgentRegistry.getAgent.
  rewrite updateAgentPerformance_agents.
  destruct (AgentRegistry.getAgent agentId reg) as [agent |] eqn:Eget;
    [| exact Hwk].
  eapply set_agent_well_keyed; [exact Hwk | | reflexivity].
  destruct Hwk as [_ Hkeyed]. specialize (Hkeyed _ _ Eget).
  now destruct success.
Qed.

Lemma registerAgent_well_keyed (now : Z) (agentId : string)
  (agentData : AgentRegistry.PartialAgent) :
  AgentRegistry.opt_id agentData = None ->
  preserves registry_well_keyed
    (AgentRegistry.registerAgent now agentId agentData).
Proof.
  intros Hnoid reg Hwk.
  destruct (registerAgent_registers now agentId agentData reg)
    as (agent & reg' & Hrun & _ & Hagent).
  assert (AgentRegistry.agents (exec (AgentRegistry.registerAgent now agentId
                                        agentData) reg)
          = JSMap.set agentId agent (AgentRegistry.agents reg)) as Hagents.
  { rewrite Hagent.
    unfold exec, AgentRegistry.registerAgent, AgentRegistry.getAgent, bind,
      gets, modify, ret, when_truthy, AgentRegistry.spread. simpl.
    destruct (AgentRegistry.opt_socketId agentData) as [socket |];
      [destruct (truthy_string socket) |]; reflexivity. }
  unfold registry_well_keyed, agents_keyed_by_id, AgentRegistry.getAgent.
  eapply set_agent_well_keyed; [exact Hwk | | exact Hagents].
  rewrite Hagent. unfold AgentRegistry.spread. simpl. now rewrite Hnoid.
Qed.

(** A property of the registry alone survives whatever the coordinator
    does to its own maps. *)
Section RegistryProperty.

Variable R : AgentRegistry.State -> Prop.

Let P (s : TaskCoordinator.State) : Prop := R (TaskCoordinator.agentRegistry s).

Lemma registry_call_preserves {A : Type} (c : M AgentRegistry.State A) :
  preserves R c -> preserves P (TaskCoordinator.registry c).
Proof.
  intros Hc s H. unfold exec, TaskCoordinator.registry, P.
  specialize (Hc _ H). unfold exec in Hc.
  now destruct (c (TaskCoordinator.agentRegistry s)).
Qed.

Hypothesis status_update :
  forall now agentId status currentTask,
    preserves R (AgentRegistry.updateAgentStatus now agentId status currentTask).

Hypothesis performance_update :
  forall agentId taskDuration success,
    preserves R
      (AgentRegistry.updateAgentPerformance agentId taskDuration success).

Lemma createTask_keeps_registry (now : Z) (uuid : string)
  (taskData : TaskCoordinator.PartialTask) :
  preserves P (TaskCoordinator.createTask now uuid taskData).
Proof. intros s H. exact H. Qed.

Lemma assignOptimalAgent_keeps_registry (now : Z) (taskId : string) :
  preserves P (TaskCoordinator.assignOptimalAgent now taskId).
Proof.
  unfold TaskCoordinator.assignOptimalAgent.
  apply preserves_bind; [apply preserves_gets |]. intros [task |];
    [| apply preserves_throw].
  destruct (negb _); [apply preserves_throw |].
  apply preserves_bind; [apply preserves_gets |]. intros deps.
  destruct (Nat.ltb _ _); [apply preserves_ret |].
  apply preserves_bind; [apply preserves_gets |]. intros [best |];
    [| apply preserves_ret].
  apply preserves_bind; [apply preserves_modify; intros s H; exact H |].
  intros _. apply preserves_bind;
    [apply registry_call_preserves, status_update |].
  intros _. apply preserves_bind;
    [apply preserves_modify; intros s H; exact H |].
  intros _. apply preserves_bind;
    [apply preserves_modify; intros s H; exact H |].
  intros _. apply preserves_ret.
Qed.

Lemma processPendingTasks_keeps_registry (now : Z) :
  preserves P (TaskCoordinator.processPendingTasks now).
Proof.
  unfold TaskCoordinator.processPendingTasks.
  apply preserves_bind; [apply preserves_gets |]. intros pendingTasks.
  apply preserves_for_of. intros task _. apply preserves_try_catch.
  apply assignOptimalAgent_keeps_registry.
Qed.

Lemma updateTaskProgress_keeps_registry (now : Z) (taskId : string)
  (update : TaskCoordinator.Update) :
  preserves P (TaskCoordinator.updateTaskProgress now taskId update).
Proof.
  unfold TaskCoordinator.updateTaskProgress.
  apply preserves_bind; [apply preserves_gets |]. intros [task |];
    [| apply preserves_throw].
  apply preserves_bind; [apply preserves_modify; intros s H; exact H |].
  intros _. apply preserves_bind.
  - destruct (TaskCoordinator.upd_status update) as [[] |];
      try apply preserves_ret;
      [unfold TaskCoordinator.handleTaskCompletion
      | unfold TaskCoordinator.handleTaskFailure];
      unfold when_truthy;
      (destruct (TaskCoordinator.assignedAgent _) as [agent |];
       [destruct (truthy_string agent) |]; try apply preserves_ret);
      (apply preserves_bind;
       [apply registry_call_preserves, performance_update |]);
      intros _; apply registry_call_preserves, status_update.
  - intros _. apply preserves_bind;
      [apply preserves_modify; intros s H; exact H |].
    intros _. destruct (negb _ && _); [| apply preserves_ret].
    apply processPendingTasks_keeps_registry.
Qed.

End RegistryProperty.

Lemma set_task_well_keyed (key : string) (task : TaskCoordinator.Task)
  (m : JSMap.t TaskCoordinator.Task) :
  task_map_well_keyed m ->
  TaskCoordinator.id task = key ->
  task_map_well_keyed (JSMap.set key task m).
Proof.
  intros [Huniq Hkeyed] Hid. split; [now apply JSMap_set_unique |].
  intros k t. destruct (String.eqb key k) eqn:E.
  - apply String.eqb_eq in E. subst k. rewrite JSMap_get_set_same.
    now intros [= <-].
  - apply String.eqb_neq in E. rewrite JSMap_get_set_other by exact E.
    apply Hkeyed.
Qed.

Section TaskKeys.

Let P (s : TaskCoordinator.State) : Prop :=
  task_map_well_keyed (TaskCoordinator.tasks s).

Lemma createTask_keeps_task_keys (now : Z) (uuid : string)
  (taskData : TaskCoordinator.PartialTask) :
  preserves P (TaskCoordinator.createTask now uuid taskData).
Proof.
  intros s H. unfold exec, TaskCoordinator.createTask, bind, modify, ret, P.
  project. now apply set_task_well_keyed.
Qed.

Lemma assignOptimalAgent_keeps_task_keys (now : Z) (taskId : string) :
  preserves P (TaskCoordinator.assignOptimalAgent now taskId).
Proof.
  intros s H.
  unfold exec, TaskCoordinator.assignOptimalAgent, bind, gets, modify, ret,
    throw.
  destruct (JSMap.get taskId (TaskCoordinator.tasks s)) as [task |] eqn:Eget;
    [| exact H].
  destruct (negb _); [exact H |].
  destruct (Nat.ltb _ _); [exact H |].
  destruct (AgentRegistry.getOptimalAgent _ _) as [best |]; [| exact H].
  unfold TaskCoordinator.registry. project.
  destruct (AgentRegistry.updateAgentStatus _ _ _ _ _) as [[[] | e] reg];
    unfold P; project; apply set_task_well_keyed; try exact H;
    exact (proj2 H _ _ Eget).
Qed.

Lemma processPendingTasks_keeps_task_keys (now : Z) :
  preserves P (TaskCoordinator.processPendingTasks now).
Proof.
  unfold TaskCoordinator.processPendingTasks.
  apply preserves_bind; [apply preserves_gets |]. intros pendingTasks.
  apply preserves_for_of. intros task _. apply preserves_try_catch.
  apply assignOptimalAgent_keeps_task_keys.
Qed.

Lemma updateTaskProgress_keeps_task_keys (now : Z) (taskId : string)
  (update : TaskCoordinator.Update) :
  preserves P (TaskCoordinator.updateTaskProgress now taskId update).
Proof.
  intros s H. unfold exec, TaskCoordinator.updateTaskProgress.
  unfold bind at 1. unfold gets at 1.
  destruct (JSMap.get taskId (TaskCoordinator.tasks s)) as [task |] eqn:Eget;
    [| exact H].
  unfold bind at 1. unfold modify at 1.
  match goal with
  | |- P (snd (?c ?s1)) => change (P (exec c s1)); apply (preserves_bind P)
  end.
  - destruct (TaskCoordinator.upd_status update) as [[] |];
      try apply preserves_ret.
    + apply (handleTaskCompletion_preserves task_map_well_keyed).
    + apply (handleTaskFailure_preserves task_map_well_keyed).
  - intros _. apply preserves_bind.
    + apply (emit_preserves task_map_well_keyed).
    + intros _. destruct (negb _ && _); [| apply preserves_ret].
      apply processPendingTasks_keeps_task_keys.
  - unfold P. project. apply set_task_well_keyed; [exact H |].
    destruct (apply_update_assignedAgent now update task) as (_ & -> & _).
    apply (proj2 H), Eget.
Qed.

End TaskKeys.

Lemma coordinator_well_keyed_split (s : TaskCoordinator.State) :
  coordinator_well_keyed s
  <-> task_map_well_keyed (TaskCoordinator.tasks s)
      /\ registry_well_keyed (TaskCoordinator.agentRegistry s).
Proof.
  unfold coordinator_well_keyed, task_map_well_keyed, tasks_keyed_by_id,
    TaskCoordinator.getTask. tauto.
Qed.

Lemma coordinator_call_well_keyed {A : Type} (c : M TaskCoordinator.State A) :
  preserves (fun s => task_map_well_keyed (TaskCoordinator.tasks s)) c ->
  preserves
    (fun s => registry_well_keyed (TaskCoordinator.agentRegistry s)) c ->
  preserves (fun s => coordinator_well_keyed (Server.taskCoordinator s))
    (Server.coordinator c).
Proof.
  intros Ht Hr s H. apply coordinator_well_keyed_split in H as [H1 H2].
  unfold exec, Server.coordinator.
  specialize (Ht _ H1). specialize (Hr _ H2). unfold exec in Ht, Hr.
  destruct (c (Server.taskCoordinator s)) as [r tc]. simpl in *.
  apply coordinator_well_keyed_split. now split.
Qed.

Lemma guarded_preserves (P : Server.State -> Prop)
  (body handler : M Server.State unit) :
  preserves P body -> preserves P handler ->
  forall s, P s -> P (Server.guarded body handler s).
Proof.
  intros Hbody Hhandler s H. unfold Server.guarded.
  specialize (Hbody s H). unfold exec in Hbody.
  destruct (body s) as [[[] | e] s']; simpl in *; [exact Hbody |].
  now apply Hhandler.
Qed.

Lemma send_preserves (o : Server.Outbound) :
  preserves (fun s => coordinator_well_keyed (Server.taskCoordinator s))
    (modify (Server.send o)).
Proof. intros s H. exact H. Qed.

Lemma handle_well_keyed (i : Server.Inbound) (s : Server.State) :
  coordinator_well_keyed (Server.taskCoordinator s) ->
  coordinator_well_keyed (Server.taskCoordinator (Server.handle i s)).
Proof.
  set (P := fun s => coordinator_well_keyed (Server.taskCoordinator s)).
  set (T := fun s => task_map_well_keyed (TaskCoordinator.tasks s)).
  set (R := fun s => registry_well_keyed (TaskCoordinator.agentRegistry s)).
  unfold Server.handle.
  destruct (Server.message i) as
    [agentId capabilities name | data | taskId update | taskId update
     | agentId status currentTask].
  - apply (guarded_preserves P); [| apply send_preserves].
    apply preserves_bind; [| intros _; apply preserves_bind;
                              [apply send_preserves
                              | intros _; apply send_preserves]].
    unfold Server.agentRegistry. apply coordinator_call_well_keyed.
    + apply (registry_preserves task_map_well_keyed).
    + apply (registry_call_preserves registry_well_keyed).
      now apply registerAgent_well_keyed.
  - apply (guarded_preserves P); [| apply send_preserves].
    apply preserves_bind.
    { apply coordinator_call_well_keyed;
        [apply createTask_keeps_task_keys
        | apply (createTask_keeps_registry registry_well_keyed)]. }
    intros task. apply preserves_bind.
    { apply coordinator_call_well_keyed;
        [apply assignOptimalAgent_keeps_task_keys
        | apply (assignOptimalAgent_keeps_registry registry_well_keyed);
          apply updateAgentStatus_well_keyed]. }
    intros [assignment |]; (apply preserves_bind;
      [apply send_preserves | intros _; apply send_preserves]).
  - apply (guarded_preserves P); [| apply preserves_ret].
    apply preserves_bind; [| intros _; apply send_preserves].
    apply coordinator_call_well_keyed;
      [apply updateTaskProgress_keeps_task_keys
      | apply (updateTaskProgress_keeps_registry registry_well_keyed);
        [apply updateAgentStatus_well_keyed
        | apply updateAgentPerformance_well_keyed]].
  - apply (guarded_preserves P); [| apply preserves_ret].
    apply preserves_bind; [| intros _; apply send_preserves].
    apply coordinator_call_well_keyed;
      [apply updateTaskProgress_keeps_task_keys
      | apply (updateTaskProgress_keeps_registry registry_well_keyed);
        [apply updateAgentStatus_well_keyed
        | apply updateAgentPerformance_well_keyed]].
  - apply (guarded_preserves P); [| apply preserves_ret].
    apply preserves_bind; [| intros _; apply send_preserves].
    unfold Server.agentRegistry. apply coordinator_call_well_keyed.
    + apply (registry_preserves task_map_well_keyed).
    + apply (registry_call_preserves registry_well_keyed).
      apply updateAgentStatus_well_keyed.
Qed.

(** X17. Whatever messages the server has handled since it started, the
    coordinator holds every task once and under the task's own id, and
    the registry holds every agent once and under the agent's own id. *)
Theorem reachable_states_are_well_keyed :
  forall inbox : list Server.Inbound,
    coordinator_well_keyed
      (Server.taskCoordinator (Server.run inbox Server.init)).
Proof.
  intros inbox. unfold Server.run.
  assert (coordinator_well_keyed (Server.taskCoordinator Server.init)) as H.
  { repeat split; try constructor; intros key x; discriminate. }
  revert H. generalize Server.init.
  induction inbox as [| i inbox IH]; intros s H; simpl; [exact H |].
  apply IH. now apply handle_well_keyed.
Qed.

(** ** What the handlers answer *)





(** X19. The handler of create_task answers a message whose data carries
    a status other than pending with [task_error] and broadcasts neither
    [task_assigned] nor [task_pending]; but the task has been stored all
    the same, with that status, and the coordinator has emitted its
    [task_created] event. *)
Theorem create_task_with_foreign_status_is_stored_and_refused :
  forall (now : Z) (uuid socket : string)
    (data : TaskCoordinator.PartialTask) (status : TaskCoordinator.Status)
    (s : Server.State),
    TaskCoordinator.opt_status data = Some status ->
    status <> TaskCoordinator.pending ->
    let s' := Server.on_create_task now uuid socket data s in
    Server.outbox s'
    = (Server.outbox s ++ [Server.reply socket "task_error"])%list
    /\ exists task,
         TaskCoordinator.getTask (or_else (TaskCoordinator.opt_id data) uuid)
           (Server.taskCoordinator s')
         = Some task
         /\ TaskCoordinator.status task = status
         /\ TaskCoordinator.emitted (Server.taskCoordinator s')
            = (TaskCoordinator.emitted (Server.taskCoordinator s)
               ++ [TaskCoordinator.task_created task])%list.
Proof.
  intros now uuid socket data status s Hstatus Hforeign s'. subst s'.
  destruct (createTask_creates now uuid data (Server.taskCoordinator s))
    as (task & s1 & Hcreate & Hstored & Htask).
  assert (TaskCoordinator.id task
          = or_else (TaskCoordinator.opt_id data) uuid) as Hid
      by (rewrite Htask; reflexivity).
  assert (TaskCoordinator.status task = status) as Hst
      by (rewrite Htask; simpl; now rewrite Hstatus).
  unfold Server.on_create_task, Server.guarded, bind, Server.coordinator,
    modify, Server.send, exec.
  rewrite Hcreate. cbn [fst snd Server.taskCoordinator Server.outbox].
  assert (TaskCoordinator.assignOptimalAgent now (TaskCoordinator.id task) s1
          = (Throw ("Task " ++ TaskCoordinator.id task ++ " is not pending"),
             s1)) as ->.
  { unfold TaskCoordinator.getTask in Hstored.
    unfold TaskCoordinator.assignOptimalAgent, bind, gets, throw.
    rewrite Hstored, Hst.
    destruct status; try reflexivity. now destruct Hforeign. }
  cbn [fst snd Server.taskCoordinator Server.outbox].
  split; [reflexivity |]. exists task. rewrite <- Hid.
  split; [exact Hstored |]. split; [exact Hst |].
  unfold TaskCoordinator.createTask, bind, modify, ret in Hcreate.
  injection Hcreate as <- <-. reflexivity.
Qed.

Lemma create_task_with_foreign_status_is_stored_and_refused_witness :
  Server.outbox
    (Server.on_create_task 10 "T1" "s2"
       (TaskCoordinator.mkPartialTask None None None None
          (Some TaskCoordinator.completed) None None None None None None None)
       Server.init)
  = [Server.reply "s2" "task_error"].
Proof.
  apply (create_task_with_foreign_status_is_stored_and_refused 10 "T1" "s2"
           (TaskCoordinator.mkPartialTask None None None None
              (Some TaskCoordinator.completed) None None None None None None
              None)
           TaskCoordinator.completed Server.init);
    [reflexivity | discriminate].
Defined.


(** X21. A message about something the hub does not know is dropped
    without a trace: an agent_status for an unknown agent and a progress
    update for an unknown task leave the whole server state, outbox
    included, exactly as it was. *)
Theorem unknown_targets_are_dropped_silently :
  forall (now : Z) (s : Server.State),
    (forall agentId status currentTask,
        AgentRegistry.getAgent agentId
          (TaskCoordinator.agentRegistry (Server.taskCoordinator s)) = None ->
        Server.on_agent_status now agentId status currentTask s = s)
    /\ (forall taskId update,
          TaskCoordinator.getTask taskId (Server.taskCoordinator s) = None ->
          Server.on_task_progress now taskId update s = s).
Proof.
  intros now s. destruct s as [tc out]. split.
  - intros agentId status currentTask Hunknown.
    unfold Server.on_agent_status, Server.guarded, bind, Server.agentRegistry,
      Server.coordinator, TaskCoordinator.registry.
    cbn [Server.taskCoordinator Server.outbox] in *.
    rewrite (updateAgentStatus_unknown _ _ Hunknown).
    destruct tc. reflexivity.
  - intros taskId update Hunknown.
    unfold Server.on_task_progress, Server.guarded, bind, Server.coordinator.
    cbn [Server.taskCoordinator Server.outbox] in *.
    rewrite (updateTaskProgress_unknown _ _ _ _ Hunknown). reflexivity.
Qed.

Lemma unknown_targets_are_dropped_silently_witness :
  Server.on_agent_status 5 "A7" AgentRegistry.busy None Server.init
  = Server.init
  /\ Server.on_task_progress 5 "T7" (Fixture.only_progress 40) Server.init
     = Server.init.
Proof.
  destruct (unknown_targets_are_dropped_silently 5 Server.init)
    as [Hagent Htask].
  split.
  - apply Hagent. reflexivity.
  - apply Htask. reflexivity.
Defined.

(** ** Nothing is ever deleted *)

Lemma JSMap_set_keeps_keys {V : Type} (k key : string) (v : V)
  (m : JSMap.t V) :
  In key (JSMap.keys m) -> In key (JSMap.keys (JSMap.set k v m)).
Proof.
  intros Hin. rewrite JSMap_keys_set.
  destruct (JSMap.get k m); [exact Hin |]. apply in_or_app. now left.
Qed.

Section KnownTask.

Variable key : string.

Let P (s : TaskCoordinator.State) : Prop :=
  In key (JSMap.keys (TaskCoordinator.tasks s)).

Lemma set_tasks_keeps_known (k : string) (task : TaskCoordinator.Task) :
  preserves P (modify (TaskCoordinator.set_tasks (JSMap.set k task))).
Proof.
  intros s H. unfold exec, modify, P. project.
  now apply JSMap_set_keeps_keys.
Qed.

Lemma createTask_keeps_known (now : Z) (uuid : string)
  (taskData : TaskCoordinator.PartialTask) :
  preserves P (TaskCoordinator.createTask now uuid taskData).
Proof.
  unfold TaskCoordinator.createTask.
  apply preserves_bind; [apply set_tasks_keeps_known |]. intros _.
  apply preserves_bind;
    [apply (emit_preserves (fun m => In key (JSMap.keys m))) |].
  intros _. apply preserves_ret.
Qed.

Lemma assignOptimalAgent_keeps_known (now : Z) (taskId : string) :
  preserves P (TaskCoordinator.assignOptimalAgent now taskId).
Proof.
  unfold TaskCoordinator.assignOptimalAgent.
  apply preserves_bind; [apply preserves_gets |]. intros [task |];
    [| apply preserves_throw].
  destruct (negb _); [apply preserves_throw |].
  apply preserves_bind; [apply preserves_gets |]. intros deps.
  destruct (Nat.ltb _ _); [apply preserves_ret |].
  apply preserves_bind; [apply preserves_gets |]. intros [best |];
    [| apply preserves_ret].
  apply preserves_bind; [apply set_tasks_keeps_known |].
  intros _. apply preserves_bind;
    [apply (registry_preserves (fun m => In key (JSMap.keys m))) |].
  intros _. apply preserves_bind;
    [apply (set_assignments_preserves (fun m => In key (JSMap.keys m))) |].
  intros _. apply preserves_bind;
    [apply (emit_preserves (fun m => In key (JSMap.keys m))) |].
  intros _. apply preserves_ret.
Qed.

Lemma updateTaskProgress_keeps_known (now : Z) (taskId : string)
  (update : TaskCoordinator.Update) :
  preserves P (TaskCoordinator.updateTaskProgress now taskId update).
Proof.
  unfold TaskCoordinator.updateTaskProgress.
  apply preserves_bind; [apply preserves_gets |]. intros [task |];
    [| apply preserves_throw].
  apply preserves_bind; [apply set_tasks_keeps_known |].
  intros _. apply preserves_bind.
  - destruct (TaskCoordinator.upd_status update) as [[] |];
      try apply preserves_ret.
    + apply (handleTaskCompletion_preserves (fun m => In key (JSMap.keys m))).
    + apply (handleTaskFailure_preserves (fun m => In key (JSMap.keys m))).
  - intros _. apply preserves_bind;
      [apply (emit_preserves (fun m => In key (JSMap.keys m))) |].
    intros _. destruct (negb _ && _); [| apply preserves_ret].
    unfold TaskCoordinator.processPendingTasks.
    apply preserves_bind; [apply preserves_gets |]. intros pendingTasks.
    apply preserves_for_of. intros t _. apply preserves_try_catch.
    apply assignOptimalAgent_keeps_known.
Qed.

End KnownTask.

Section KnownAgent.

Variable key : string.

Let R (reg : AgentRegistry.State) : Prop :=
  In key (JSMap.keys (AgentRegistry.agents reg)).

Lemma updateAgentStatus_keeps_known (now : Z) (agentId : string)
  (status : AgentRegistry.Status) (currentTask : option string) :
  preserves R (AgentRegistry.updateAgentStatus now agentId status currentTask).
Proof.
  intros reg H. unfold R. rewrite updateAgentStatus_agents.
  destruct (AgentRegistry.getAgent agentId reg); [| exact H].
  now apply JSMap_set_keeps_keys.
Qed.

Lemma updateAgentPerformance_keeps_known (agentId : string) (taskDuration : Z)
  (success : bool) :
  preserves R
    (AgentRegistry.updateAgentPerformance agentId taskDuration success).
Proof.
  intros reg H. unfold R. rewrite updateAgentPerformance_agents.
  destruct (AgentRegistry.getAgent agentId reg); [| exact H].
  now apply JSMap_set_keeps_keys.
Qed.

Lemma registerAgent_keeps_known (now : Z) (agentId : string)
  (agentData : AgentRegistry.PartialAgent) :
  preserves R (AgentRegistry.registerAgent now agentId agentData).
Proof.
  intros reg H. unfold R, exec, AgentRegistry.registerAgent, bind, gets,
    modify, ret, when_truthy.
  destruct (AgentRegistry.socketId _) as [socket |];
    [destruct (truthy_string socket) |]; project;
    now apply JSMap_set_keeps_keys.
Qed.

End KnownAgent.

Lemma coordinator_call_preserves {A : Type}
  (P : TaskCoordinator.State -> Prop) (c : M TaskCoordinator.State A) :
  preserves P c ->
  preserves (fun s => P (Server.taskCoordinator s)) (Server.coordinator c).
Proof.
  intros Hc s H. unfold exec, Server.coordinator.
  specialize (Hc _ H). unfold exec in Hc.
  now destruct (c (Server.taskCoordinator s)).
Qed.

Lemma handle_preserves (P : TaskCoordinator.State -> Prop) :
  (forall now agentId agentData,
      AgentRegistry.opt_id agentData = None ->
      preserves P
        (TaskCoordinator.registry
           (AgentRegistry.registerAgent now agentId agentData))) ->
  (forall now agentId status currentTask,
      preserves P
        (TaskCoordinator.registry
           (AgentRegistry.updateAgentStatus now agentId status currentTask))) ->
  (forall now uuid taskData,
      preserves P (TaskCoordinator.createTask now uuid taskData)) ->
  (forall now taskId,
      preserves P (TaskCoordinator.assignOptimalAgent now taskId)) ->
  (forall now taskId update,
      preserves P (TaskCoordinator.updateTaskProgress now taskId update)) ->
  forall i s,
    P (Server.taskCoordinator s) ->
    P (Server.taskCoordinator (Server.handle i s)).
Proof.
  intros Hregister Hstatus Hcreate Hassign Hupdate i.
  set (Q := fun s => P (Server.taskCoordinator s)).
  assert (forall o, preserves Q (modify (Server.send o))) as Hsend
      by (intros o s H; exact H).
  unfold Server.handle.
  destruct (Server.message i) as
    [agentId capabilities name | data | taskId update | taskId update
     | agentId status currentTask].
  - apply (guarded_preserves Q); [| apply Hsend].
    apply preserves_bind;
      [| intros _; apply preserves_bind; [apply Hsend | intros _; apply Hsend]].
    unfold Server.agentRegistry. apply coordinator_call_preserves.
    now apply Hregister.
  - apply (guarded_preserves Q); [| apply Hsend].
    apply preserves_bind; [apply coordinator_call_preserves, Hcreate |].
    intros task.
    apply preserves_bind; [apply coordinator_call_preserves, Hassign |].
    intros [assignment |];
      (apply preserves_bind; [apply Hsend | intros _; apply Hsend]).
  - apply (guarded_preserves Q); [| apply preserves_ret].
    apply preserves_bind; [| intros _; apply Hsend].
    apply coordinator_call_preserves, Hupdate.
  - apply (guarded_preserves Q); [| apply preserves_ret].
    apply preserves_bind; [| intros _; apply Hsend].
    apply coordinator_call_preserves, Hupdate.
  - apply (guarded_preserves Q); [| apply preserves_ret].
    apply preserves_bind; [| intros _; apply Hsend].
    unfold Server.agentRegistry. apply coordinator_call_preserves, Hstatus.
Qed.

(** X22. No message deletes anything: a task id and an agent id that the
    hub knows are still known after any further sequence of messages. *)
Theorem known_ids_stay_known :
  forall (inbox : list Server.Inbound) (s : Server.State) (key : string),
    (In key (JSMap.keys (TaskCoordinator.tasks (Server.taskCoordinator s))) ->
     In key
       (JSMap.keys
          (TaskCoordinator.tasks
             (Server.taskCoordinator (Server.run inbox s)))))
    /\ (In key
          (JSMap.keys
             (AgentRegistry.agents
                (TaskCoordinator.agentRegistry (Server.taskCoordinator s)))) ->
        In key
          (JSMap.keys
             (AgentRegistry.agents
                (TaskCoordinator.agentRegistry
                   (Server.taskCoordinator (Server.run inbox s)))))).
Proof.
  intros inbox s key. unfold Server.run. revert s.
  induction inbox as [| i inbox IH]; intros s; cbn [fold_left]; [tauto |].
  destruct (IH (Server.handle i s)) as [IHt IHa]. split; intros H.
  - apply IHt.
    apply (handle_preserves
             (fun tc => In key (JSMap.keys (TaskCoordinator.tasks tc))));
      [intros | intros | intros | intros | intros | exact H].
    + apply (registry_preserves (fun m => In key (JSMap.keys m))).
    + apply (registry_preserves (fun m => In key (JSMap.keys m))).
    + apply createTask_keeps_known.
    + apply assignOptimalAgent_keeps_known.
    + apply updateTaskProgress_keeps_known.
  - apply IHa.
    set (R := fun reg => In key (JSMap.keys (AgentRegistry.agents reg))).
    apply (handle_preserves
             (fun tc => R (TaskCoordinator.agentRegistry tc)));
      [intros | intros | intros | intros | intros | exact H].
    + apply (registry_call_preserves R), registerAgent_keeps_known.
    + apply (registry_call_preserves R), updateAgentStatus_keeps_known.
    + apply (createTask_keeps_registry R).
    + apply (assignOptimalAgent_keeps_registry R).
      apply updateAgentStatus_keeps_known.
    + apply (updateTaskProgress_keeps_registry R);
        [apply updateAgentStatus_keeps_known
        | apply updateAgentPerformance_keeps_known].
Qed.

Lemma known_ids_stay_known_witness :
  In "T1"
    (JSMap.keys
       (TaskCoordinator.tasks
          (Server.taskCoordinator
             (Server.run
                [ Fixture.reports 4000 "T1"
                    (Fixture.only_status TaskCoordinator.completed) ]
                (Server.run Fixture.T1_assigned_T2_waiting Server.init))))).
Proof.
  destruct (known_ids_stay_known
              [ Fixture.reports 4000 "T1"
                  (Fixture.only_status TaskCoordinator.completed) ]
              (Server.run Fixture.T1_assigned_T2_waiting Server.init) "T1")
    as [Htasks _].
  apply Htasks. vm_compute. now left.
Defined.

(** ** Conflict detection *)

(** X23. [detectConflicts] only looks: it always returns, leaves tasks,
    assignment records and registry as they are, and emits one
    [conflicts_detected] event carrying the list it returns when that
    list is not empty, and nothing otherwise. *)
Theorem detect_conflicts_only_reports :
  forall s : TaskCoordinator.State,
    exists conflicts s',
      TaskCoordinator.detectConflicts s = (Return conflicts, s')
      /\ TaskCoordinator.tasks s' = TaskCoordinator.tasks s
      /\ TaskCoordinator.assignments s' = TaskCoordinator.assignments s
      /\ TaskCoordinator.agentRegistry s' = TaskCoordinator.agentRegistry s
      /\ TaskCoordinator.emitted s'
         = match conflicts with
           | [] => TaskCoordinator.emitted s
           | _ =>
               (TaskCoordinator.emitted s
                ++ [TaskCoordinator.conflicts_detected conflicts])%list
           end.
Proof.
  intros s.
  unfold TaskCoordinator.detectConflicts, bind, gets, modify, ret.
  destruct (TaskCoordinator.resourceContention s
            ++ TaskCoordinator.dependencyDeadlock s
            ++ TaskCoordinator.capabilityMismatch s)%list as [| c cs];
    simpl; eexists; eexists; (split; [reflexivity |]);
    simpl; repeat split; reflexivity.
Qed.

(** What the third loop of [detectConflicts] reports. *)
Lemma capabilityMismatch_reports (s : TaskCoordinator.State)
  (conflict : TaskCoordinator.ConflictDetection) :
  In conflict (TaskCoordinator.capabilityMismatch s)
  <-> exists task agentId agent,
        In task (TaskCoordinator.getAllTasks s)
        /\ (TaskCoordinator.status task = TaskCoordinator.assigned
            \/ TaskCoordinator.status task = TaskCoordinator.in_progress)
        /\ TaskCoordinator.assignedAgent task = Some agentId
        /\ agentId <> EmptyString
        /\ AgentRegistry.getAgent agentId (TaskCoordinator.agentRegistry s)
           = Some agent
        /\ missing_capabilities task agent <> []
        /\ conflict
           = TaskCoordinator.mkConflictDetection
               TaskCoordinator.capability_mismatch
               [TaskCoordinator.id task] [AgentRegistry.id agent]
               TaskCoordinator.severity_low
               ("Agent " ++ AgentRegistry.id agent
                ++ " missing capabilities: "
                ++ String.concat ", " (missing_capabilities task agent)).
Proof.
  unfold TaskCoordinator.capabilityMismatch, TaskCoordinator.getAllTasks,
    missing_capabilities.
  rewrite in_flat_map. split.
  - intros (task & Hin & Hc). apply filter_In in Hin as [Hin Hactive].
    destruct (TaskCoordinator.assignedAgent task) as [agentId |] eqn:Enamed;
      [| destruct Hc].
    destruct (truthy_string agentId) eqn:Etruthy; [| destruct Hc].
    destruct (AgentRegistry.getAgent agentId _) as [agent |] eqn:Eagent;
      [| destruct Hc].
    destruct (filter _ (TaskCoordinator.requiredCapabilities task))
      as [| m ms] eqn:Emissing; [destruct Hc |].
    destruct Hc as [<- | []].
    exists task, agentId, agent. split; [exact Hin |]. split.
    { apply orb_prop in Hactive.
      destruct (TaskCoordinator.status task); simpl in Hactive; intuition
        discriminate. }
    split; [exact Enamed |]. split.
    { intros ->. discriminate Etruthy. }
    split; [exact Eagent |]. rewrite Emissing. split; [discriminate |].
    reflexivity.
  - intros (task & agentId & agent & Hin & Hactive & Hnamed & Hne & Hagent
            & Hmissing & ->).
    exists task. split.
    + apply filter_In. split; [exact Hin |].
      destruct Hactive as [-> | ->]; reflexivity.
    + rewrite Hnamed.
      assert (truthy_string agentId = true) as ->
          by (unfold truthy_string; apply negb_true_iff;
              now apply String.eqb_neq).
      rewrite Hagent.
      destruct (filter _ (TaskCoordinator.requiredCapabilities task));
        [congruence |].
      now left.
Qed.

(** X24. [detectConflicts] reports a capability mismatch exactly for the
    tasks in state assigned or in_progress whose assigned agent is
    registered and lacks at least one required capability; the report
    names the task, the agent, severity low, and lists the missing
    capabilities in the order they are required. *)
Theorem capability_mismatch_is_reported_iff :
  forall (s : TaskCoordinator.State)
    (conflict : TaskCoordinator.ConflictDetection),
    exists conflicts,
      result TaskCoordinator.detectConflicts s = Return conflicts
      /\ (In conflict conflicts
          /\ TaskCoordinator.type conflict
             = TaskCoordinator.capability_mismatch
          <-> exists task agentId agent,
                In task (TaskCoordinator.getAllTasks s)
                /\ (TaskCoordinator.status task = TaskCoordinator.assigned
                    \/ TaskCoordinator.status task
                       = TaskCoordinator.in_progress)
                /\ TaskCoordinator.assignedAgent task = Some agentId
                /\ agentId <> EmptyString
                /\ AgentRegistry.getAgent agentId
                     (TaskCoordinator.agentRegistry s) = Some agent
                /\ missing_capabilities task agent <> []
                /\ conflict
                   = TaskCoordinator.mkConflictDetection
                       TaskCoordinator.capability_mismatch
                       [TaskCoordinator.id task] [AgentRegistry.id agent]
                       TaskCoordinator.severity_low
                       ("Agent " ++ AgentRegistry.id agent
                        ++ " missing capabilities: "
                        ++ String.concat ", "
                             (missing_capabilities task agent))).
Proof.
  intros s conflict.
  exists (TaskCoordinator.resourceContention s
          ++ TaskCoordinator.dependencyDeadlock s
          ++ TaskCoordinator.capabilityMismatch s)%list.
  split.
  - unfold result, TaskCoordinator.detectConflicts, bind, gets, modify, ret.
    now destruct (Nat.ltb 0 _).
  - rewrite <- capabilityMismatch_reports, !in_app_iff. split.
    + intros [[H | [H | H]] Htype]; [exfalso | exfalso | exact H].
      * apply resourceContention_reports in H as (agent & _ & _ & _ & ->).
        discriminate Htype.
      * unfold TaskCoordinator.dependencyDeadlock in H.
        apply in_map_iff in H as (cycle & <- & _). discriminate Htype.
    + intros H. split; [now right; right |].
      apply capabilityMismatch_reports in H
        as (task & agentId & agent & _ & _ & _ & _ & _ & _ & ->).
      reflexivity.
Qed.

(** X25. Capabilities do not restrict the choice of an agent, they only
    weigh in its score: when [assignOptimalAgent] selects an agent that
    lacks some required capability the assignment still succeeds, and a
    [detectConflicts] run right after it reports the capability mismatch
    of that task and that agent. *)
Theorem assignment_to_a_lacking_agent_is_reported :
  forall (now : Z) (taskId : string) (s : TaskCoordinator.State)
    (task : TaskCoordinator.Task) (best : AgentRegistry.Agent),
    TaskCoordinator.getTask taskId s = Some task ->
    TaskCoordinator.status task = TaskCoordinator.pending ->
    dependencies_completed s task ->
    AgentRegistry.getOptimalAgent (TaskCoordinator.requiredCapabilities task)
      (TaskCoordinator.agentRegistry s) = Some best ->
    AgentRegistry.getAgent (AgentRegistry.id best)
      (TaskCoordinator.agentRegistry s) = Some best ->
    AgentRegistry.id best <> EmptyString ->
    missing_capabilities task best <> [] ->
    exists assignment s' conflicts,
      TaskCoordinator.assignOptimalAgent now taskId s
      = (Return (Some assignment), s')
      /\ TaskCoordinator.agentId assignment = AgentRegistry.id best
      /\ result TaskCoordinator.detectConflicts s' = Return conflicts
      /\ In (TaskCoordinator.mkConflictDetection
               TaskCoordinator.capability_mismatch
               [TaskCoordinator.id task] [AgentRegistry.id best]
               TaskCoordinator.severity_low
               ("Agent " ++ AgentRegistry.id best
                ++ " missing capabilities: "
                ++ String.concat ", " (missing_capabilities task best)))
            conflicts.
Proof.
  intros now taskId s task best Hget Hpending Hdeps Hbest Hstored Hid
    Hmissing.
  rewrite (assignOptimalAgent_selected now taskId s task best Hget Hpending
             Hdeps Hbest).
  pose proof (updateAgentStatus_agents now (AgentRegistry.id best)
                AgentRegistry.busy (Some (TaskCoordinator.id task))
                (TaskCoordinator.agentRegistry s)) as Hagents.
  rewrite Hstored in Hagents. simpl in Hagents.
  destruct (updateAgentStatus_known now (AgentRegistry.id best)
              AgentRegistry.busy (Some (TaskCoordinator.id task)) _ best
              Hstored) as (reg & agent' & Hrun & _).
  unfold exec in Hagents. rewrite Hrun in *. simpl in Hagents.
  eexists. eexists. eexists.
  split; [reflexivity |]. split; [reflexivity |]. split.
  { unfold result, TaskCoordinator.detectConflicts, bind, gets, modify, ret.
    now destruct (Nat.ltb 0 _). }
  rewrite !in_app_iff. right. right.
  apply capabilityMismatch_reports.
  exists (TaskCoordinator.with_assignedAgent (Some (AgentRegistry.id best))
            (TaskCoordinator.with_status TaskCoordinator.assigned task)),
    (AgentRegistry.id best),
    (AgentRegistry.assign_status now AgentRegistry.busy
       (Some (TaskCoordinator.id task)) best).
  split.
  { unfold TaskCoordinator.getAllTasks, JSMap.values. simpl.
    apply in_map_iff. eexists (taskId, _). split; [reflexivity |].
    apply JSMap_get_In. apply JSMap_get_set_same. }
  split; [now left |]. split; [reflexivity |]. split; [exact Hid |].
  split.
  { unfold AgentRegistry.getAgent. simpl. rewrite Hagents.
    apply JSMap_get_set_same. }
  split; [exact Hmissing |]. reflexivity.
Qed.

Lemma assignment_to_a_lacking_agent_is_reported_witness :
  exists assignment s' conflicts,
    TaskCoordinator.assignOptimalAgent 2600 "T9" Fixture.T9_needs_rust
    = (Return (Some assignment), s')
    /\ TaskCoordinator.agentId assignment = "A1"
    /\ result TaskCoordinator.detectConflicts s' = Return conflicts
    /\ In (TaskCoordinator.mkConflictDetection
             TaskCoordinator.capability_mismatch ["T9"] ["A1"]
             TaskCoordinator.severity_low
             "Agent A1 missing capabilities: rust")
          conflicts.
Proof.
  apply (assignment_to_a_lacking_agent_is_reported 2600 "T9"
           Fixture.T9_needs_rust
           (TaskCoordinator.mkTask "T9" "T9" ["python"; "rust"]
              TaskCoordinator.medium TaskCoordinator.pending None [] 0
              None 2500 None None)
           (AgentRegistry.mkAgent "A1" "A1" ["python"] AgentRegistry.online
              (Some "s1") None 1000 1 0 0)).
  - vm_compute. reflexivity.
  - reflexivity.
  - intros depId [].
  - vm_compute. reflexivity.
  - vm_compute. reflexivity.
  - discriminate.
  - vm_compute. discriminate.
Defined.

(** ** Dependency deadlocks *)

Lemma chain_snoc {A : Type} (R : A -> A -> Prop) (p : list A) (x y : A) :
  chain R (p ++ [x]) -> R x y -> chain R ((p ++ [x]) ++ [y]).
Proof.
  intros Hchain Hxy. induction p as [| a p IH]; simpl in *.
  - tauto.
  - destruct p as [| b p]; simpl in *.
    + tauto.
    + destruct Hchain as [Hab Hrest]. split; [exact Hab |]. now apply IH.
Qed.

Lemma chain_suffix {A : Type} (R : A -> A -> Prop) (pre l : list A) :
  chain R (pre ++ l) -> chain R l.
Proof.
  induction pre as [| a pre IH]; simpl; [tauto |].
  destruct (pre ++ l)%list as [| b rest] eqn:E.
  - destruct pre; [simpl in E; subst; simpl; tauto | discriminate E].
  - intros [_ Hrest]. now apply IH.
Qed.

Lemma last_suffix {A : Type} (pre : list A) (x : A) (rest : list A) (d d' : A) :
  last (pre ++ x :: rest) d = last (x :: rest) d'.
Proof.
  induction pre as [| a pre IH].
  - cbn [app]. revert x. induction rest as [| y rest IHr]; intros x;
      [reflexivity |].
    change (last (y :: rest) d = last (y :: rest) d'). apply IHr.
  - cbn [app]. destruct (pre ++ x :: rest)%list as [| b l] eqn:E.
    + destruct pre; discriminate E.
    + change (last (b :: l) d = last (x :: rest) d'). exact IH.
Qed.

(** [path.slice(path.indexOf(dep))] starts at the first occurrence. *)
Lemma slice_from_In (dep : string) (path : list string) :
  In dep path ->
  exists pre rest,
    path = (pre ++ dep :: rest)%list
    /\ TaskCoordinator.slice_from dep path = dep :: rest.
Proof.
  induction path as [| x path IH]; intros Hin; [destruct Hin |].
  simpl. destruct (String.eqb dep x) eqn:E.
  - apply String.eqb_eq in E. subst x. exists [], path. split; reflexivity.
  - destruct Hin as [-> | Hin]; [rewrite String.eqb_refl in E; discriminate |].
    destruct (IH Hin) as (pre & rest & -> & Hslice).
    exists (x :: pre), rest. split; [reflexivity | exact Hslice].
Qed.

Lemma set_delete_In (x y : string) (xs : list string) :
  In y (TaskCoordinator.set_delete x xs) <-> In y xs /\ y <> x.
Proof.
  unfold TaskCoordinator.set_delete. rewrite filter_In, negb_true_iff.
  split; intros [Hin Hne]; (split; [exact Hin |]).
  - intros ->. rewrite String.eqb_refl in Hne. discriminate.
  - apply String.eqb_neq. congruence.
Qed.

Section CycleReports.

Variable graph : JSMap.t (list string).

(** What the search holds is sound: the recursion stack is part of the
    path, and every list recorded so far is a cycle of the graph. *)
Let sound (path : list string) (st : TaskCoordinator.Search) : Prop :=
  (forall x, In x (TaskCoordinator.recursionStack st) -> In x path)
  /\ (forall c, In c (TaskCoordinator.cycles st) ->
                cycle_of (depends_on graph) c).

Lemma dfs_sound (fuel : nat) :
  forall node path st,
    chain (depends_on graph) (path ++ [node]) ->
    sound path st ->
    sound path (TaskCoordinator.dfs fuel graph node path st).
Proof.
  induction fuel as [| fuel IH]; intros node path st Hchain Hsound;
    [exact Hsound |].
  rewrite dfs_unfold. cbv zeta.
  set (path' := (path ++ [node])%list) in *.
  match goal with
  | |- context [fold_left ?f ?deps ?st1] =>
      assert (forall ds acc,
                 (forall dep, In dep ds -> depends_on graph node dep) ->
                 sound path' acc -> sound path' (fold_left f ds acc))
        as Hfold
  end.
  { induction ds as [| dep ds IHd]; intros acc Hdeps Hacc; [exact Hacc |].
    cbn [fold_left]. apply IHd; [intros d Hd; apply Hdeps; now right |].
    assert (depends_on graph node dep) as Hedge by (apply Hdeps; now left).
    destruct (negb (includes (TaskCoordinator.visited acc) dep)).
    - destruct (IH dep path' acc) as [Hstack Hcycles].
      + now apply chain_snoc.
      + exact Hacc.
      + split; assumption.
    - destruct (includes (TaskCoordinator.recursionStack acc) dep) eqn:Eon;
        [| exact Hacc].
      destruct Hacc as [Hstack Hcycles]. split; [exact Hstack |].
      cbn [TaskCoordinator.cycles]. intros c Hc.
      apply in_app_or in Hc as [Hc | [<- | []]]; [now apply Hcycles |].
      apply includes_In in Eon. apply Hstack in Eon.
      destruct (slice_from_In dep path' Eon) as (pre & rest & Hpath & ->).
      unfold cycle_of. split.
      + apply chain_suffix with (pre := pre). now rewrite <- Hpath.
      + rewrite <- (last_suffix pre dep rest dep dep), <- Hpath.
        unfold path'. rewrite last_last. exact Hedge. }
  destruct (Hfold (or_else (JSMap.get node graph) [])
              (TaskCoordinator.mkSearch
                 (TaskCoordinator.set_add node (TaskCoordinator.visited st))
                 (TaskCoordinator.set_add node
                    (TaskCoordinator.recursionStack st))
                 (TaskCoordinator.cycles st)))
    as [Hstack Hcycles].
  - intros dep Hdep. exact Hdep.
  - destruct Hsound as [Hstack Hcycles]. split; [| exact Hcycles].
    cbn [TaskCoordinator.recursionStack]. intros x Hx.
    apply set_add_In in Hx as [-> | Hx]; unfold path'; apply in_or_app;
      [right; now left | left; now apply Hstack].
  - split; [| exact Hcycles].
    cbn [TaskCoordinator.recursionStack]. intros x Hx.
    apply set_delete_In in Hx as [Hx Hne]. apply Hstack in Hx.
    unfold path' in Hx. apply in_app_or in Hx as [Hx | [<- | []]];
      [exact Hx | congruence].
Qed.

Lemma search_sound (fuel : nat) :
  forall c,
    In c (TaskCoordinator.cycles (TaskCoordinator.search fuel graph)) ->
    cycle_of (depends_on graph) c.
Proof.
  unfold TaskCoordinator.search.
  assert (forall keys acc,
             sound [] acc ->
             sound []
               (fold_left
                  (fun acc node =>
                     if negb (includes (TaskCoordinator.visited acc) node)
                     then TaskCoordinator.dfs fuel graph node [] acc
                     else acc) keys acc)) as Hfold.
  { induction keys as [| node keys IHk]; intros acc Hacc; [exact Hacc |].
    cbn [fold_left]. apply IHk.
    destruct (negb _); [| exact Hacc].
    apply dfs_sound; [exact I | exact Hacc]. }
  apply Hfold. split; intros x [].
Qed.

End CycleReports.

(** The graph holds, for an id, the dependencies of a stored task with
    that id. *)
Lemma buildDependencyGraph_edge (s : TaskCoordinator.State) (x y : string) :
  depends_on (TaskCoordinator.buildDependencyGraph s) x y ->
  task_depends_on s x y.
Proof.
  unfold depends_on, task_depends_on, TaskCoordinator.buildDependencyGraph,
    TaskCoordinator.getAllTasks.
  assert (forall tasks graph deps,
             JSMap.get x
               (fold_left
                  (fun graph task =>
                     JSMap.set (TaskCoordinator.id task)
                       (TaskCoordinator.dependencies task) graph)
                  tasks graph) = Some deps ->
             (exists task,
                 In task tasks /\ TaskCoordinator.id task = x
                 /\ TaskCoordinator.dependencies task = deps)
             \/ JSMap.get x graph = Some deps) as Hfold.
  { induction tasks as [| task tasks IH]; intros graph deps Hget;
      [now right |].
    cbn [fold_left] in Hget. apply IH in Hget as [(t & Hin & Hid & Hd) | Hget].
    - left. exists t. split; [now right | split; assumption].
    - destruct (String.eqb x (TaskCoordinator.id task)) eqn:E.
      + apply String.eqb_eq in E. subst x.
        rewrite JSMap_get_set_same in Hget. injection Hget as <-.
        left. exists task. split; [now left | split; reflexivity].
      + apply String.eqb_neq in E.
        rewrite JSMap_get_set_other in Hget by congruence. now right. }
  destruct (JSMap.get x _) as [deps |] eqn:Eget; simpl; [| tauto].
  intros Hin. apply Hfold in Eget as [(task & Htask & Hid & <-) | Hempty];
    [| discriminate Hempty].
  exists task. split; [exact Htask | split; assumption].
Qed.

Lemma chain_weaken {A : Type} (R R' : A -> A -> Prop) (xs : list A) :
  (forall x y, R x y -> R' x y) -> chain R xs -> chain R' xs.
Proof.
  intros Hsub. induction xs as [| x xs IH]; simpl; [tauto |].
  destruct xs as [| y xs]; [tauto |].
  intros [Hxy Hrest]. split; [now apply Hsub | now apply IH].
Qed.

(** X26. Every dependency deadlock that [detectConflicts] reports is a
    genuine cycle of declared dependencies: the list of involved tasks is
    not empty, each id in it is the id of a stored task that lists the
    next id among its dependencies, and the last one lists the first. *)
Theorem reported_deadlock_is_a_dependency_cycle :
  forall (s : TaskCoordinator.State),
    exists conflicts,
      result TaskCoordinator.detectConflicts s = Return conflicts
      /\ forall conflict,
           In conflict conflicts ->
           TaskCoordinator.type conflict
           = TaskCoordinator.dependency_deadlock ->
           cycle_of (task_depends_on s)
             (TaskCoordinator.involvedTasks conflict).
Proof.
  intros s.
  exists (TaskCoordinator.resourceContention s
          ++ TaskCoordinator.dependencyDeadlock s
          ++ TaskCoordinator.capabilityMismatch s)%list.
  split.
  { unfold result, TaskCoordinator.detectConflicts, bind, gets, modify, ret.
    now destruct (Nat.ltb 0 _). }
  intros conflict Hin Htype.
  rewrite !in_app_iff in Hin. destruct Hin as [Hin | [Hin | Hin]].
  - apply resourceContention_reports in Hin as (agent & _ & _ & _ & ->).
    discriminate Htype.
  - unfold TaskCoordinator.dependencyDeadlock in Hin.
    apply in_map_iff in Hin as (cycle & <- & Hcycle).
    cbn [TaskCoordinator.involvedTasks].
    apply search_sound in Hcycle.
    destruct cycle as [| first rest]; [exact Hcycle |].
    destruct Hcycle as [Hchain Hclose]. split.
    + revert Hchain. apply chain_weaken. apply buildDependencyGraph_edge.
    + now apply buildDependencyGraph_edge.
  - apply capabilityMismatch_reports in Hin
      as (task & agentId & agent & _ & _ & _ & _ & _ & _ & ->).
    discriminate Htype.
Qed.

Lemma reported_deadlock_is_a_dependency_cycle_witness :
  cycle_of (task_depends_on Fixture.mutual_dependency) ["T1"; "T2"].
Proof.
  destruct (reported_deadlock_is_a_dependency_cycle Fixture.mutual_dependency)
    as (conflicts & Hrun & Hcycles).
  apply (Hcycles
           (TaskCoordinator.mkConflictDetection
              TaskCoordinator.dependency_deadlock ["T1"; "T2"] []
              TaskCoordinator.severity_high
              "Restructure task dependencies to break cycle"));
    [| reflexivity].
  vm_compute in Hrun. injection Hrun as <-. now left.
Defined.

(** A node all of whose dependency chains end cannot lie on a cycle. *)
Lemma chain_next {A : Type} (R : A -> A -> Prop) (l : list A) (x d : A) :
  chain R l -> In x l -> (exists y, R x y /\ In y l) \/ x = last l d.
Proof.
  induction l as [| a l IH]; intros Hchain Hin; [destruct Hin |].
  destruct l as [| b l].
  - destruct Hin as [<- | []]. now right.
  - destruct Hchain as [Hab Hrest]. destruct Hin as [<- | Hin].
    + left. exists b. split; [exact Hab | right; now left].
    + destruct (IH Hrest Hin) as [(y & Hxy & Hy) | Hlast].
      * left. exists y. split; [exact Hxy | now right].
      * right. exact Hlast.
Qed.

Lemma cycle_next {A : Type} (R : A -> A -> Prop) (c : list A) (x : A) :
  cycle_of R c -> In x c -> exists y, R x y /\ In y c.
Proof.
  destruct c as [| first rest]; [intros [] |].
  intros [Hchain Hclose] Hin.
  destruct (chain_next R (first :: rest) x first Hchain Hin)
    as [Hnext | ->]; [exact Hnext |].
  exists first. split; [exact Hclose | now left].
Qed.

Lemma Acc_not_on_cycle {A : Type} (R : A -> A -> Prop) (x : A) :
  Acc (fun y x => R x y) x ->
  forall c, cycle_of R c -> ~ In x c.
Proof.
  induction 1 as [x _ IH]. intros c Hcycle Hin.
  destruct (cycle_next R c x Hcycle Hin) as (y & Hxy & Hy).
  exact (IH y Hxy c Hcycle Hy).
Qed.

Lemma depends_on_key (graph : JSMap.t (list string)) (x y : string) :
  depends_on graph x y -> In x (JSMap.keys graph).
Proof.
  unfold depends_on.
  destruct (JSMap.get x graph) as [deps |] eqn:E; simpl; [| tauto].
  intros _. apply JSMap_get_In in E. unfold JSMap.keys.
  change x with (fst (x, deps)). now apply in_map.
Qed.

Section CycleCompleteness.

Variable graph : JSMap.t (list string).

Let unvisited (seen : list string) : list string :=
  filter (fun x => negb (includes seen x)) (TaskCoordinator.ids graph).

(** Visited and no longer on the recursion stack: the call of [dfs] on
    the node has returned. *)
Let finished (st : TaskCoordinator.Search) (x : string) : Prop :=
  In x (TaskCoordinator.visited st)
  /\ ~ In x (TaskCoordinator.recursionStack st).

(** While no cycle has been recorded, every dependency chain that starts
    at a finished node ends. *)
Let settled (st : TaskCoordinator.Search) : Prop :=
  TaskCoordinator.cycles st = [] ->
  forall x, finished st x -> Acc (fun y x => depends_on graph x y) x.

(** The search only ever marks, pops what it pushed, and records. *)
Let extends (st st' : TaskCoordinator.Search) : Prop :=
  (forall x, In x (TaskCoordinator.visited st) ->
             In x (TaskCoordinator.visited st'))
  /\ (forall x, In x (TaskCoordinator.recursionStack st') ->
                In x (TaskCoordinator.recursionStack st))
  /\ (TaskCoordinator.cycles st' = [] -> TaskCoordinator.cycles st = []).

Let step (fuel : nat) (path' : list string) (acc : TaskCoordinator.Search)
  (dep : string) : TaskCoordinator.Search :=
  if negb (includes (TaskCoordinator.visited acc) dep)
  then TaskCoordinator.dfs fuel graph dep path' acc
  else if includes (TaskCoordinator.recursionStack acc) dep
       then TaskCoordinator.mkSearch (TaskCoordinator.visited acc)
              (TaskCoordinator.recursionStack acc)
              (TaskCoordinator.cycles acc
               ++ [TaskCoordinator.slice_from dep path'])%list
       else acc.

Lemma extends_refl (st : TaskCoordinator.Search) : extends st st.
Proof. repeat split; auto. Qed.

Lemma extends_trans (st1 st2 st3 : TaskCoordinator.Search) :
  extends st1 st2 -> extends st2 st3 -> extends st1 st3.
Proof.
  intros (Hv & Hs & Hc) (Hv' & Hs' & Hc'). repeat split; auto.
Qed.

Lemma finished_extends (st st' : TaskCoordinator.Search) (x : string) :
  extends st st' -> finished st x -> finished st' x.
Proof.
  intros (Hv & Hs & _) [Hx Hoff]. split; [now apply Hv |].
  intros Hon. apply Hoff. now apply Hs.
Qed.

Lemma fold_extends (f : TaskCoordinator.Search -> string -> TaskCoordinator.Search) :
  (forall acc x, extends acc (f acc x)) ->
  forall xs acc, extends acc (fold_left f xs acc).
Proof.
  intros Hf. induction xs as [| x xs IH]; intros acc; [apply extends_refl |].
  cbn [fold_left]. eapply extends_trans; [apply Hf | apply IH].
Qed.

Lemma dfs_extends (fuel : nat) :
  forall node path st,
    extends st (TaskCoordinator.dfs fuel graph node path st).
Proof.
  induction fuel as [| fuel IH]; intros node path st; [apply extends_refl |].
  rewrite dfs_unfold. cbv zeta.
  set (path' := (path ++ [node])%list).
  set (st1 :=
         TaskCoordinator.mkSearch
           (TaskCoordinator.set_add node (TaskCoordinator.visited st))
           (TaskCoordinator.set_add node (TaskCoordinator.recursionStack st))
           (TaskCoordinator.cycles st)).
  change (fold_left _ (or_else (JSMap.get node graph) []) st1)
    with (fold_left (step fuel path') (or_else (JSMap.get node graph) []) st1).
  destruct (fold_extends (step fuel path')) with
    (xs := or_else (JSMap.get node graph) []) (acc := st1)
    as (Hv & Hs & Hc).
  { intros acc dep. unfold step.
    destruct (negb _); [apply IH |].
    destruct (includes _ dep); [| apply extends_refl].
    repeat split; auto. cbn [TaskCoordinator.cycles]. intros Hnil.
    apply app_eq_nil in Hnil as [_ Hnil]. discriminate Hnil. }
  repeat split.
  - intros x Hx. cbn [TaskCoordinator.visited]. apply Hv. subst st1.
    cbn [TaskCoordinator.visited]. apply set_add_In. now right.
  - cbn [TaskCoordinator.recursionStack]. intros x Hx.
    apply set_delete_In in Hx as [Hx Hne]. apply Hs in Hx. subst st1.
    cbn [TaskCoordinator.recursionStack] in Hx.
    apply set_add_In in Hx as [-> | Hx]; [congruence | exact Hx].
  - cbn [TaskCoordinator.cycles]. intros Hnil. apply Hc in Hnil.
    exact Hnil.
Qed.

Lemma step_extends (fuel : nat) (path' : list string)
  (acc : TaskCoordinator.Search) (dep : string) :
  extends acc (step fuel path' acc dep).
Proof.
  unfold step. destruct (negb _); [apply dfs_extends |].
  destruct (includes _ dep); [| apply extends_refl].
  repeat split; auto. cbn [TaskCoordinator.cycles]. intros Hnil.
  apply app_eq_nil in Hnil as [_ Hnil]. discriminate Hnil.
Qed.

(** A call of [dfs] on a node not visited before, with fuel for the ids
    not visited yet: unless a cycle is recorded, the node is finished when
    the call returns, and so is everything it depends on. *)
Lemma dfs_settles (fuel : nat) :
  forall node path st,
    In node (TaskCoordinator.ids graph) ->
    ~ In node (TaskCoordinator.visited st) ->
    (length (unvisited (TaskCoordinator.visited st)) <= fuel)%nat ->
    settled st ->
    settled (TaskCoordinator.dfs fuel graph node path st)
    /\ (TaskCoordinator.cycles (TaskCoordinator.dfs fuel graph node path st)
        = [] ->
        finished (TaskCoordinator.dfs fuel graph node path st) node).
Proof.
  induction fuel as [| fuel IH]; intros node path st Hid Hnew Hfuel Hsettled.
  - exfalso.
    assert (length (unvisited (node :: TaskCoordinator.visited st))
            < length (unvisited (TaskCoordinator.visited st)))%nat.
    { apply unvisited_shrinks_strictly with (x := node); simpl; auto. }
    lia.
  - rewrite dfs_unfold. cbv zeta.
    set (path' := (path ++ [node])%list).
    set (st1 :=
           TaskCoordinator.mkSearch
             (TaskCoordinator.set_add node (TaskCoordinator.visited st))
             (TaskCoordinator.set_add node (TaskCoordinator.recursionStack st))
             (TaskCoordinator.cycles st)).
    change (fold_left _ (or_else (JSMap.get node graph) []) st1)
      with (fold_left (step fuel path') (or_else (JSMap.get node graph) [])
              st1).
    assert (forall acc dep,
               In dep (TaskCoordinator.ids graph) ->
               (forall x, In x (TaskCoordinator.visited st1) ->
                          In x (TaskCoordinator.visited acc)) ->
               settled acc ->
               settled (step fuel path' acc dep)
               /\ (TaskCoordinator.cycles (step fuel path' acc dep) = [] ->
                   finished (step fuel path' acc dep) dep)) as Hstep.
    { intros acc dep Hdep Hacc Hacc_settled. unfold step.
      destruct (includes (TaskCoordinator.visited acc) dep) eqn:Eseen;
        cbn [negb].
      - destruct (includes (TaskCoordinator.recursionStack acc) dep) eqn:Eon.
        + split.
          * intros Hnil. cbn [TaskCoordinator.cycles] in Hnil.
            apply app_eq_nil in Hnil as [_ Hnil]. discriminate Hnil.
          * cbn [TaskCoordinator.cycles]. intros Hnil.
            apply app_eq_nil in Hnil as [_ Hnil]. discriminate Hnil.
        + split; [exact Hacc_settled |]. intros _. split.
          * now apply includes_In.
          * intros Hon. apply includes_In in Hon. congruence.
      - apply IH; [exact Hdep | | | exact Hacc_settled].
        + intros Hin. apply includes_In in Hin. congruence.
        + assert (length (unvisited (TaskCoordinator.visited acc))
                  < length (unvisited (TaskCoordinator.visited st)))%nat.
          { apply unvisited_shrinks_strictly with (x := node); auto.
            - intros y Hy. apply Hacc. subst st1. simpl.
              apply set_add_In. now right.
            - apply Hacc. subst st1. simpl. apply set_add_In. now left. }
          lia. }
    assert (forall deps acc,
               (forall dep, In dep deps -> In dep (TaskCoordinator.ids graph)) ->
               (forall x, In x (TaskCoordinator.visited st1) ->
                          In x (TaskCoordinator.visited acc)) ->
               settled acc ->
               settled (fold_left (step fuel path') deps acc)
               /\ (TaskCoordinator.cycles (fold_left (step fuel path') deps acc)
                   = [] ->
                   forall dep,
                     In dep deps ->
                     finished (fold_left (step fuel path') deps acc) dep))
      as Hfold.
    { induction deps as [| dep deps IHd]; intros acc Hdeps Hacc Hacc_settled.
      - split; [exact Hacc_settled |]. intros _ dep [].
      - cbn [fold_left].
        destruct (Hstep acc dep) as [Hsettled1 Hdep1];
          [apply Hdeps; now left | exact Hacc | exact Hacc_settled |].
        pose proof (step_extends fuel path' acc dep) as Hext1.
        pose proof (fold_extends (step fuel path') (step_extends fuel path')
                      deps (step fuel path' acc dep)) as Hext.
        destruct (IHd (step fuel path' acc dep)) as [Hsettled' Hdeps'].
        + intros d Hd. apply Hdeps. now right.
        + intros x Hx. apply Hext1. now apply Hacc.
        + exact Hsettled1.
        + split; [exact Hsettled' |].
          intros Hnil d [<- | Hd]; [| now apply Hdeps'].
          apply (finished_extends _ _ _ Hext). apply Hdep1.
          now apply Hext. }
    destruct (Hfold (or_else (JSMap.get node graph) []) st1)
      as [Hsettled2 Hdeps2].
    { intros dep Hdep. now apply dependencies_are_ids with (node := node). }
    { auto. }
    { intros Hnil x [Hx Hoff]. apply Hsettled; [exact Hnil |].
      subst st1. cbn [TaskCoordinator.visited TaskCoordinator.recursionStack]
        in Hx, Hoff.
      rewrite set_add_In in Hx, Hoff. split; [| tauto].
      destruct Hx as [-> | Hx]; [tauto | exact Hx]. }
    pose proof (fold_extends (step fuel path') (step_extends fuel path')
                  (or_else (JSMap.get node graph) []) st1) as (Hv & _ & _).
    set (st2 := fold_left (step fuel path')
                  (or_else (JSMap.get node graph) []) st1) in *.
    assert (In node (TaskCoordinator.visited st2)) as Hnode.
    { apply Hv. subst st1. cbn [TaskCoordinator.visited].
      apply set_add_In. now left. }
    split.
    + intros Hnil x [Hx Hoff].
      cbn [TaskCoordinator.cycles TaskCoordinator.visited
           TaskCoordinator.recursionStack] in Hnil, Hx, Hoff.
      rewrite set_delete_In in Hoff.
      destruct (String.eqb x node) eqn:E.
      * apply String.eqb_eq in E. subst x. constructor. intros y Hy.
        apply Hsettled2; [exact Hnil |]. now apply Hdeps2.
      * apply String.eqb_neq in E. apply Hsettled2; [exact Hnil |].
        split; [exact Hx | tauto].
    + intros _. split; [exact Hnode |].
      cbn [TaskCoordinator.recursionStack]. rewrite set_delete_In. tauto.
Qed.

(** The loop over the keys: unless a cycle is recorded, every dependency
    chain that starts at a key of the graph ends. *)
Lemma search_settles :
  TaskCoordinator.detectCycles graph = [] ->
  forall key,
    In key (JSMap.keys graph) ->
    Acc (fun y x => depends_on graph x y) key.
Proof.
  unfold TaskCoordinator.detectCycles, TaskCoordinator.search.
  set (fuel := S (length (TaskCoordinator.ids graph))).
  set (visit := fun acc node =>
                  if negb (includes (TaskCoordinator.visited acc) node)
                  then TaskCoordinator.dfs fuel graph node [] acc
                  else acc).
  assert (forall acc node, extends acc (visit acc node)) as Hvisit.
  { intros acc node. unfold visit.
    destruct (negb _); [apply dfs_extends | apply extends_refl]. }
  assert (forall keys acc,
             (forall k, In k keys -> In k (TaskCoordinator.ids graph)) ->
             settled acc ->
             settled (fold_left visit keys acc)
             /\ (TaskCoordinator.cycles (fold_left visit keys acc) = [] ->
                 forall k,
                   In k keys ->
                   In k (TaskCoordinator.visited (fold_left visit keys acc))))
    as Hfold.
  { induction keys as [| k keys IH]; intros acc Hkeys Hacc.
    - split; [exact Hacc |]. intros _ k [].
    - cbn [fold_left].
      pose proof (fold_extends visit Hvisit keys (visit acc k))
        as (Hv & _ & Hc).
      assert (settled (visit acc k)
              /\ (TaskCoordinator.cycles (visit acc k) = [] ->
                  In k (TaskCoordinator.visited (visit acc k))))
        as [Hsettled1 Hk1].
      { unfold visit.
        destruct (includes (TaskCoordinator.visited acc) k) eqn:E;
          cbn [negb].
        - split; [exact Hacc |]. intros _. now apply includes_In.
        - destruct (dfs_settles fuel k [] acc) as [Hs Hf];
            [apply Hkeys; now left | | | exact Hacc |].
          + intros Hin. apply includes_In in Hin. congruence.
          + unfold fuel. etransitivity; [apply filter_length_le |]. lia.
          + split; [exact Hs |]. intros Hnil. now apply Hf. }
      destruct (IH (visit acc k)) as [Hsettled' Hkeys'];
        [intros k' Hk'; apply Hkeys; now right | exact Hsettled1 |].
      split; [exact Hsettled' |].
      intros Hnil k' [<- | Hk']; [| now apply Hkeys'].
      apply Hv. apply Hk1. now apply Hc. }
  intros Hnil key Hkey.
  destruct (Hfold (JSMap.keys graph)
              (TaskCoordinator.mkSearch [] [] []))
    as [Hsettled Hvisited].
  { intros k Hk. unfold TaskCoordinator.ids. apply in_or_app. now left. }
  { intros _ x [[] _]. }
  apply Hsettled; [exact Hnil |]. split; [now apply Hvisited |].
  pose proof (fold_extends visit Hvisit (JSMap.keys graph)
                (TaskCoordinator.mkSearch [] [] [])) as (_ & Hs & _).
  intros Hon. apply Hs in Hon. destruct Hon.
Qed.

(** The search finds a cycle whenever the graph has one. *)
Lemma detectCycles_complete (c : list string) :
  cycle_of (depends_on graph) c -> TaskCoordinator.detectCycles graph <> [].
Proof.
  intros Hcycle Hnil.
  destruct c as [| first rest] eqn:Ec; [destruct Hcycle |].
  rewrite <- Ec in Hcycle.
  assert (In first c) as Hin by (rewrite Ec; now left).
  destruct (cycle_next _ c first Hcycle Hin) as (y & Hedge & _).
  apply (Acc_not_on_cycle (depends_on graph) first) with (c := c);
    [| exact Hcycle | exact Hin].
  apply search_settles; [exact Hnil |]. now apply depends_on_key with (y := y).
Qed.

End CycleCompleteness.

(** In a task map that holds every task once and under its own id, the
    graph holds the dependencies of every stored task. *)
Lemma buildDependencyGraph_holds (s : TaskCoordinator.State) (x y : string) :
  task_map_well_keyed (TaskCoordinator.tasks s) ->
  task_depends_on s x y ->
  depends_on (TaskCoordinator.buildDependencyGraph s) x y.
Proof.
  intros [Hunique Hkeyed] (task & Hin & <- & Hdep).
  unfold depends_on, TaskCoordinator.buildDependencyGraph.
  unfold TaskCoordinator.getAllTasks in Hin.
  set (f := fun graph task =>
              JSMap.set (TaskCoordinator.id task)
                (TaskCoordinator.dependencies task) graph).
  assert (forall tasks graph key,
             ~ In key (map TaskCoordinator.id tasks) ->
             JSMap.get key (fold_left f tasks graph) = JSMap.get key graph)
    as Hother.
  { induction tasks as [| t tasks IH]; intros graph key Hkey; [reflexivity |].
    cbn [fold_left]. rewrite IH by (intros H; apply Hkey; now right).
    unfold f. apply JSMap_get_set_other. intros E. apply Hkey. left.
    congruence. }
  assert (forall tasks graph,
             NoDup (map TaskCoordinator.id tasks) ->
             In task tasks ->
             JSMap.get (TaskCoordinator.id task) (fold_left f tasks graph)
             = Some (TaskCoordinator.dependencies task)) as Hfold.
  { induction tasks as [| t tasks IH]; intros graph Hnd Htask;
      [destruct Htask |].
    cbn [fold_left]. cbn [map] in Hnd.
    inversion Hnd as [| ? ? Hfresh Hnd']; subst.
    destruct Htask as [-> | Htask]; [| now apply IH].
    rewrite Hother by exact Hfresh. unfold f. apply JSMap_get_set_same. }
  rewrite Hfold; [exact Hdep | | exact Hin].
  unfold unique_keys, JSMap.keys in Hunique. unfold JSMap.values.
  rewrite map_map.
  rewrite (map_ext_in _ fst); [exact Hunique |].
  intros [key t] Hentry. cbn [fst snd]. apply Hkeyed.
  now apply JSMap_In_get.
Qed.

Lemma task_map_well_keyed_check (m : JSMap.t TaskCoordinator.Task) :
  unique_keys m ->
  forallb (fun entry => String.eqb (TaskCoordinator.id (snd entry)) (fst entry))
    m = true ->
  task_map_well_keyed m.
Proof.
  intros Hunique Hall. split; [exact Hunique |].
  intros key task Hget. apply JSMap_get_In in Hget.
  rewrite forallb_forall in Hall. specialize (Hall _ Hget).
  now apply String.eqb_eq in Hall.
Qed.

(** X27. In a coordinator that holds every task once and under its own
    id, [detectConflicts] misses no deadlock: whenever some stored tasks
    form a cycle of declared dependencies, at least one dependency
    deadlock of severity high is reported. *)
Theorem dependency_cycle_is_reported :
  forall (s : TaskCoordinator.State) (c : list string),
    task_map_well_keyed (TaskCoordinator.tasks s) ->
    cycle_of (task_depends_on s) c ->
    exists conflicts conflict,
      result TaskCoordinator.detectConflicts s = Return conflicts
      /\ In conflict conflicts
      /\ TaskCoordinator.type conflict = TaskCoordinator.dependency_deadlock
      /\ TaskCoordinator.severity conflict = TaskCoordinator.severity_high.
Proof.
  intros s c Hkeyed Hcycle.
  assert (cycle_of (depends_on (TaskCoordinator.buildDependencyGraph s)) c)
    as Hgraph.
  { destruct c as [| first rest]; [exact Hcycle |].
    destruct Hcycle as [Hchain Hclose]. split.
    - revert Hchain. apply chain_weaken. intros x y.
      now apply buildDependencyGraph_holds.
    - now apply buildDependencyGraph_holds. }
  apply detectCycles_complete in Hgraph.
  destruct (TaskCoordinator.detectCycles (TaskCoordinator.buildDependencyGraph s))
    as [| cycle cycles] eqn:Ecycles; [congruence |].
  exists (TaskCoordinator.resourceContention s
          ++ TaskCoordinator.dependencyDeadlock s
          ++ TaskCoordinator.capabilityMismatch s)%list.
  eexists. split.
  { unfold result, TaskCoordinator.detectConflicts, bind, gets, modify, ret.
    now destruct (Nat.ltb 0 _). }
  split.
  { rewrite !in_app_iff. right. left.
    unfold TaskCoordinator.dependencyDeadlock. rewrite Ecycles. now left. }
  split; reflexivity.
Qed.

Lemma dependency_cycle_is_reported_witness :
  exists conflicts conflict,
    result TaskCoordinator.detectConflicts Fixture.mutual_dependency
    = Return conflicts
    /\ In conflict conflicts
    /\ TaskCoordinator.type conflict = TaskCoordinator.dependency_deadlock
    /\ TaskCoordinator.severity conflict = TaskCoordinator.severity_high.
Proof.
  apply (dependency_cycle_is_reported Fixture.mutual_dependency ["T2"; "T1"]).
  - apply task_map_well_keyed_check; [| vm_compute; reflexivity].
    vm_compute. repeat constructor; simpl; intuition discriminate.
  - assert (forall x y deps,
               In (TaskCoordinator.mkTask x x ["python"]
                     TaskCoordinator.medium TaskCoordinator.pending None deps
                     0 None (if String.eqb x "T1" then 1000 else 2000) None
                     None)
                 (TaskCoordinator.getAllTasks Fixture.mutual_dependency) ->
               In y deps ->
               task_depends_on Fixture.mutual_dependency x y) as Hedge.
    { intros x y deps Hin Hy. eexists. split; [exact Hin |].
      split; [reflexivity | exact Hy]. }
    split; [split; [| exact I] |].
    + apply (Hedge "T2" "T1" ["T1"]); [vm_compute; tauto | now left].
    + apply (Hedge "T1" "T2" ["T2"]); [vm_compute; tauto | now left].
Defined.

(** ** The event history *)

Lemma last_n_app {A : Type} (n : nat) (l l' : list A) :
  last_n n (last_n n l ++ l') = last_n n (l ++ l').
Proof.
  unfold last_n. rewrite !skipn_app, !length_app, !length_skipn, skipn_skipn.
  destruct (Nat.le_gt_cases (length l) n) as [Hshort | Hlong].
  - replace (length l - n)%nat with 0%nat by lia. rewrite Nat.sub_0_r.
    f_equal; f_equal; lia.
  - f_equal; f_equal; lia.
Qed.

Lemma last_n_length {A : Type} (n : nat) (l : list A) :
  length (last_n n l) = Nat.min n (length l).
Proof. unfold last_n. rewrite length_skipn. lia. Qed.

(** [xs.slice(-n)] for a positive [n] is the last [n] elements. *)
Lemma slice_negative {A : Type} (n : Z) (xs : list A) :
  0 < n -> EventHub.slice (- n) xs = last_n (Z.to_nat n) xs.
Proof.
  intros Hn. unfold EventHub.slice, last_n.
  destruct (Z.ltb_spec (- n) 0) as [_ | H]; [| lia].
  f_equal. lia.
Qed.

Lemma slice_zero {A : Type} (xs : list A) : EventHub.slice 0 xs = xs.
Proof.
  unfold EventHub.slice. cbn [Z.ltb Z.compare].
  replace (Z.min 0 (Z.of_nat (length xs))) with 0 by lia. reflexivity.
Qed.

Lemma slice_In {A : Type} (start : Z) (xs : list A) (x : A) :
  In x (EventHub.slice start xs) -> In x xs.
Proof.
  unfold EventHub.slice. intros Hin.
  rewrite <- (firstn_skipn
                (Z.to_nat
                   (if Z.ltb start 0
                    then Z.max (Z.of_nat (length xs) + start) 0
                    else Z.min start (Z.of_nat (length xs)))) xs).
  apply in_or_app. now right.
Qed.

Lemma broadcastEvent_history (now : Z) (type' : string)
  (data' : EventHub.Data) (s : EventHub.State) :
  EventHub.eventHistory (EventHub.broadcastEvent now type' data' s)
  = last_n 1000 (EventHub.eventHistory s ++ [recorded (now, type', data')]).
Proof.
  unfold EventHub.broadcastEvent. cbn [EventHub.eventHistory recorded].
  set (pushed := (EventHub.eventHistory s ++ _)%list).
  destruct (Nat.ltb_spec 1000 (length pushed)) as [Hlong | Hshort].
  - now apply (slice_negative 1000).
  - unfold last_n. replace (length pushed - 1000)%nat with 0%nat by lia.
    reflexivity.
Qed.

(** X28. The event history is a window on what was broadcast: after any
    sequence of broadcasts it holds the last 1000 events of the earlier
    history followed by the new events, oldest first, and so never more
    than 1000 events once something has been broadcast; every broadcast
    goes out to the clients, in order, whether or not it is still in the
    history. *)
Theorem event_history_keeps_the_last_thousand :
  forall (bs : list Broadcast) (s : EventHub.State),
    let s' := broadcast_all bs s in
    (bs <> [] \/ (length (EventHub.eventHistory s) <= 1000)%nat ->
     EventHub.eventHistory s'
     = last_n 1000 (EventHub.eventHistory s ++ map recorded bs)
     /\ (length (EventHub.eventHistory s') <= 1000)%nat)
    /\ EventHub.emitted s'
       = (EventHub.emitted s
          ++ map (fun b : Broadcast => (snd (fst b), snd b)) bs)%list.
Proof.
  intros bs. unfold broadcast_all.
  induction bs as [| [[now type'] data'] bs IH]; intros s; cbn zeta.
  - cbn [fold_left map]. rewrite !app_nil_r. split; [| reflexivity].
    intros [H | Hshort]; [congruence |].
    unfold last_n.
    replace (length (EventHub.eventHistory s) - 1000)%nat with 0%nat by lia.
    split; [reflexivity | exact Hshort].
  - cbn [fold_left map].
    specialize (IH (EventHub.broadcastEvent now type' data' s)).
    cbn zeta in IH. destruct IH as [IHhistory IHemitted]. split.
    + intros _. destruct IHhistory as [-> Hlen].
      { right. rewrite broadcastEvent_history, last_n_length. lia. }
      split.
      * rewrite broadcastEvent_history, last_n_app, <- app_assoc.
        reflexivity.
      * rewrite last_n_length. lia.
    + rewrite IHemitted. unfold EventHub.broadcastEvent.
      cbn [EventHub.emitted fst snd]. now rewrite <- app_assoc.
Qed.

Lemma event_history_keeps_the_last_thousand_witness :
  EventHub.eventHistory
    (broadcast_all
       [ (10, "task_created", EventHub.mkData None (Some "T1") []);
         (20, "agent_registered", EventHub.mkData (Some "A1") None []) ]
       EventHub.init)
  = [ EventHub.mkCoordinationEvent "task_created" None (Some "T1")
        (EventHub.mkData None (Some "T1") []) 10;
      EventHub.mkCoordinationEvent "agent_registered" (Some "A1") None
        (EventHub.mkData (Some "A1") None []) 20 ].
Proof.
  destruct (event_history_keeps_the_last_thousand
              [ (10, "task_created", EventHub.mkData None (Some "T1") []);
                (20, "agent_registered", EventHub.mkData (Some "A1") None []) ]
              EventHub.init) as [Hhistory _].
  destruct Hhistory as [-> _]; [left; discriminate |].
  reflexivity.
Defined.

(** X29. [getRecentEvents] and [getEventsByType] with a positive limit
    (50 when none is given) return the most recent events, oldest first:
    the last [limit] events of the history, or of the events of the
    given type, and all of them when there are fewer. A limit of 0 does
    not return nothing: it returns the whole history, or every event of
    the type. *)
Theorem recent_events_are_the_last_ones :
  forall (limit : option Z) (s : EventHub.State) (type' : string),
    let wanted := or_else limit 50 in
    let of_type :=
      filter (fun event => String.eqb (EventHub.type event) type')
        (EventHub.eventHistory s) in
    (0 < wanted ->
     EventHub.getRecentEvents limit s
     = last_n (Z.to_nat wanted) (EventHub.eventHistory s)
     /\ EventHub.getEventsByType type' limit s
        = last_n (Z.to_nat wanted) of_type
     /\ (Z.of_nat (length (EventHub.getRecentEvents limit s)) <= wanted)
     /\ (Z.of_nat (length (EventHub.getEventsByType type' limit s))
         <= wanted))
    /\ (wanted = 0 ->
        EventHub.getRecentEvents limit s = EventHub.eventHistory s
        /\ EventHub.getEventsByType type' limit s = of_type)
    /\ (forall event,
          In event (EventHub.getEventsByType type' limit s) ->
          EventHub.type event = type'
          /\ In event (EventHub.eventHistory s)).
Proof.
  intros limit s type' wanted of_type.
  unfold EventHub.getRecentEvents, EventHub.getEventsByType.
  fold wanted. fold of_type. repeat split.
  - now apply slice_negative.
  - now apply slice_negative.
  - rewrite slice_negative, last_n_length by assumption. lia.
  - rewrite slice_negative, last_n_length by assumption. lia.
  - rewrite H. apply slice_zero.
  - rewrite H. apply slice_zero.
  - apply slice_In in H. apply filter_In in H as [_ Htype].
    now apply String.eqb_eq in Htype.
  - apply slice_In in H. now apply filter_In in H as [Hin _].
Qed.

Lemma recent_events_are_the_last_ones_witness :
  EventHub.getRecentEvents (Some 1)
    (broadcast_all
       [ (10, "task_created", EventHub.mkData None (Some "T1") []);
         (20, "agent_registered", EventHub.mkData (Some "A1") None []) ]
       EventHub.init)
  = [ EventHub.mkCoordinationEvent "agent_registered" (Some "A1") None
        (EventHub.mkData (Some "A1") None []) 20 ].
Proof.
  destruct (recent_events_are_the_last_ones (Some 1)
              (broadcast_all
                 [ (10, "task_created", EventHub.mkData None (Some "T1") []);
                   (20, "agent_registered",
                    EventHub.mkData (Some "A1") None []) ]
                 EventHub.init) "task_created") as [Hpositive _].
  destruct Hpositive as [-> _]; [reflexivity |].
  reflexivity.
Defined.

(** ** Requests of the dashboard *)

Lemma send_each_outbox {A : Type} (o : Server.Outbound) (xs : list A)
  (s : Server.State) :
  fold_left (fun acc _ => Server.send o acc) xs s
  = Server.mkState (Server.taskCoordinator s)
      (Server.outbox s ++ repeat o (length xs)).
Proof.
  revert s. induction xs as [| x xs IH]; intros s; cbn [fold_left length repeat].
  - rewrite app_nil_r. now destruct s.
  - rewrite IH. unfold Server.send.
    cbn [Server.taskCoordinator Server.outbox].
    now rewrite <- app_assoc.
Qed.

(** X30. The three requests of the dashboard only read. The project
    status they compute says initializing exactly when there is no task,
    completed exactly when there are tasks and all of them are completed,
    and active otherwise; it counts the stored tasks, never more completed
    ones than there are, and as active agents those that are not offline;
    its progress is 0 while there is no task. [get_agent_registry] answers
    one [agent_registered] per registered agent and [get_tasks] one
    [task_assigned] per stored task, whatever the state of the task, all
    on the socket that asked; the coordinator is left as it is. *)
Theorem dashboard_requests_only_read :
  forall (percent : nat -> nat -> Z) (socket : string) (s : Server.State),
    let coordinator := Server.taskCoordinator s in
    let registry := TaskCoordinator.agentRegistry coordinator in
    let tasks := TaskCoordinator.getAllTasks coordinator in
    let project := Server.projectStatus percent s in
    (Server.phase project = Server.phase_initializing <-> tasks = [])
    /\ (Server.phase project = Server.phase_completed
        <-> tasks <> []
            /\ forall task,
                 In task tasks ->
                 TaskCoordinator.status task = TaskCoordinator.completed)
    /\ Server.totalTasks project = TaskCoordinator.getTaskCount coordinator
    /\ (Server.completedTasks project <= Server.totalTasks project)%nat
    /\ (Server.activeAgents project
        <= AgentRegistry.getAgentCount registry)%nat
    /\ (tasks = [] -> Server.progress project = 0)
    /\ Server.on_get_project_status socket s
       = Server.mkState coordinator
           (Server.outbox s
            ++ [Server.reply socket "project_status_update"])
    /\ Server.on_get_agent_registry socket s
       = Server.mkState coordinator
           (Server.outbox s
            ++ repeat (Server.reply socket "agent_registered")
                 (AgentRegistry.getAgentCount registry))
    /\ Server.on_get_tasks socket s
       = Server.mkState coordinator
           (Server.outbox s
            ++ repeat (Server.reply socket "task_assigned")
                 (TaskCoordinator.getTaskCount coordinator)).
Proof.
  intros percent socket s coordinator registry tasks project.
  unfold project, Server.projectStatus.
  cbn [Server.phase Server.totalTasks Server.completedTasks
       Server.activeAgents Server.progress].
  fold coordinator. fold tasks.
  set (done := filter _ tasks).
  assert (length done <= length tasks)%nat as Hle
      by apply filter_length_le.
  assert (length done = length tasks
          <-> forall task,
                In task tasks ->
                TaskCoordinator.status task = TaskCoordinator.completed)
    as Hall.
  { unfold done. rewrite filter_length_all. split; intros H task Hin.
    - specialize (H task Hin).
      now destruct (TaskCoordinator.status task).
    - rewrite (H task Hin). reflexivity. }
  split; [| split; [| split; [| split; [| split; [| split]]]]].
  - destruct tasks as [| task rest]; cbn [length Nat.eqb]; [tauto |].
    destruct (Nat.eqb _ _); split; discriminate.
  - destruct tasks as [| task rest] eqn:Etasks; cbn [length Nat.eqb].
    + split; [discriminate | tauto].
    + cbn [length] in Hall.
      destruct (Nat.eqb_spec (length done) (S (length rest))) as [E | E].
      * split; [| reflexivity]. intros _. split; [discriminate |].
        now apply Hall.
      * split; [discriminate |]. intros [_ H]. apply Hall in H. contradiction.
  - unfold TaskCoordinator.getTaskCount, tasks, TaskCoordinator.getAllTasks,
      JSMap.size, JSMap.values. apply length_map.
  - exact Hle.
  - unfold AgentRegistry.getOnlineAgentCount, AgentRegistry.getAgentCount,
      AgentRegistry.getAllAgents, JSMap.size, JSMap.values.
    etransitivity; [apply filter_length_le |]. now rewrite length_map.
  - intros ->. reflexivity.
  - split; [reflexivity |]. split.
    + unfold Server.on_get_agent_registry. rewrite send_each_outbox.
      unfold AgentRegistry.getAgentCount, AgentRegistry.getAllAgents,
        JSMap.size, JSMap.values. now rewrite length_map.
    + unfold Server.on_get_tasks. rewrite send_each_outbox.
      unfold TaskCoordinator.getTaskCount, TaskCoordinator.getAllTasks,
        JSMap.size, JSMap.values. now rewrite length_map.
Qed.
